(** * cnss_prealloc: the tiered pre-reserved memory pool of the CNSS driver

    A shallow embedding of [cnss_prealloc/cnss_prealloc.c] and the proofs
    of its tier-selection, tracking-table and leak-audit properties.

    Conventions of the embedding.
    - A pointer is an address in [Z]; [NULL] is 0.
    - [void **pool_ptrs] is [option (list ptr)]: [None] is the null
      pointer, [Some t] a block whose slots hold [t].  Reading or writing
      through a null table, or past the end of the block, has no defined
      behaviour in C; the model stops with [Fault].
    - The target is arm64: [int] has 32 bits, [size_t] and pointers have
      64.  [int] and [size_t] values live in [Z]; the conversions the C
      compiler inserts ([int] to [size_t] in [ptr_idx < table_capacity],
      [size_t] to [int] in [return ptr_idx], the wrapping [+ 1]) are
      written out with [to_size_t] and [wrap_int].
    - The kernel services the driver calls (mempool, slab, kmalloc) are not
      part of the driver.  Their answers come from a [kernel] record, and
      every call is appended to a trace [ktrace], so that "which allocator
      was attempted" and "the block went back to its allocator" are facts
      about the trace.
    - [pool_table_lock] serialises the table updates; the embedding is the
      sequential semantics of one call at a time.
    - [pr_debug] lines are compiled out by default and are not modelled;
      [pr_err], [pr_info] and [WARN_ON] go to [dmesg].
    - [cnss_assign_prealloc_pool] binds one of the three static tables
      according to a device id; the first part of the embedding starts
      from the bound table ([boot]).  [wcnss_prealloc_put] is the
      table-scan variant; the variant for older kernels, which finds the
      tier through the page of the block, is [Pre517.wcnss_prealloc_put].
      It, the binding of a table, [cnss_pool_deinit] and the device-tree
      gate of the module are embedded under "The rest of the driver". *)

From Stdlib Require Import ZArith Lia.
From stdpp Require Import base option list strings.

Local Open Scope Z_scope.

(** ** Machine integers and pointers *)

Abbreviation ptr := Z (only parsing).
Definition NULL : ptr := 0.

Definition to_size_t (z : Z) : Z := z mod 2 ^ 64.
Definition wrap_int (z : Z) : Z := (z + 2 ^ 31) mod 2 ^ 32 - 2 ^ 31.
Definition INT_MAX : Z := 2 ^ 31 - 1.
Definition sizeof_ptr : Z := 8.

(** [EPERM] comes from the kernel's errno-base.h, where it is 1; the driver
    only looks at the sign of [-EPERM]. *)
Definition EPERM : Z := 1.

(** Number of iterations of [for (ptr_idx = 0; ptr_idx < cap; ptr_idx++)]
    with [size_t ptr_idx] and [int cap]. *)
Definition loop_bound (cap : Z) : nat := Z.to_nat (to_size_t cap).

(** [n] times the size of a pointer, in [size_t] arithmetic, and the
    number of pointer slots a block of that many bytes holds. *)
Definition table_bytes (n : Z) : Z := to_size_t (to_size_t n * sizeof_ptr).
Definition slots_of_bytes (b : Z) : nat := Z.to_nat (b / sizeof_ptr).

(** ** struct cnss_pool *)

Record cnss_pool := mk_cnss_pool {
  size : Z;
  min : Z;
  name : string;
  mp : ptr;
  cache : ptr;
  pool_ptrs : option (list ptr);
  table_capacity : Z
}.

Definition set_cache (p : cnss_pool) (c : ptr) : cnss_pool :=
  mk_cnss_pool (size p) (min p) (name p) (mp p) c (pool_ptrs p)
               (table_capacity p).
Definition set_mp (p : cnss_pool) (m : ptr) : cnss_pool :=
  mk_cnss_pool (size p) (min p) (name p) m (cache p) (pool_ptrs p)
               (table_capacity p).
Definition set_pool_ptrs (p : cnss_pool) (t : option (list ptr)) : cnss_pool :=
  mk_cnss_pool (size p) (min p) (name p) (mp p) (cache p) t
               (table_capacity p).
Definition set_table_capacity (p : cnss_pool) (c : Z) : cnss_pool :=
  mk_cnss_pool (size p) (min p) (name p) (mp p) (cache p) (pool_ptrs p) c.

(** The static tables.  A row is [{size, min, name, NULL, NULL, NULL}];
    the last member is zero-initialised. *)
Definition row (sz mn : Z) (nm : string) : cnss_pool :=
  mk_cnss_pool sz mn nm NULL NULL None 0.

Definition cnss_pools_default : list cnss_pool :=
  [ row (8 * 1024) 16 "cnss-pool-8k";
    row (16 * 1024) 16 "cnss-pool-16k";
    row (32 * 1024) 22 "cnss-pool-32k";
    row (64 * 1024) 38 "cnss-pool-64k";
    row (128 * 1024) 10 "cnss-pool-128k" ].

Definition cnss_pools_adrastea : list cnss_pool :=
  [ row (8 * 1024) 2 "cnss-pool-8k";
    row (16 * 1024) 10 "cnss-pool-16k";
    row (32 * 1024) 8 "cnss-pool-32k";
    row (64 * 1024) 4 "cnss-pool-64k";
    row (128 * 1024) 2 "cnss-pool-128k" ].

Definition cnss_pools_wcn6750 : list cnss_pool :=
  [ row (8 * 1024) 2 "cnss-pool-8k";
    row (16 * 1024) 8 "cnss-pool-16k";
    row (32 * 1024) 11 "cnss-pool-32k";
    row (64 * 1024) 15 "cnss-pool-64k";
    row (128 * 1024) 4 "cnss-pool-128k" ].

(** ** The kernel: answers and trace *)

Inductive gfp_t := GFP_ZERO_ATOMIC | GFP_ZERO_KERNEL.

(** A call into the kernel.  [i] is the tier whose [cnss_pools[i].mp] or
    [cnss_pools[i].cache] is passed; [KMempoolAlloc] also records what the
    call returned. *)
Inductive kcall :=
| KKmemCacheCreate (i : nat) (nm : string) (sz : Z)
| KKmemCacheDestroy (i : nat)
| KMempoolCreate (i : nat) (mn : Z)
| KKmalloc (bytes : Z)
| KKrealloc (i : nat) (bytes : Z)
| KMempoolAlloc (i : nat) (gfp : gfp_t) (res : ptr)
| KMempoolFree (i : nat) (mem : ptr).

Inductive printk :=
| MsgEnterPoolCheck
| MsgNotFreed (p : ptr) (nm : string) (ptr_idx : nat)
| MsgTableNull (nm : string)
| MsgNotAvailable (sz : Z) (gfp : gfp_t)
| MsgCacheFailed (nm : string)
| MsgMempoolFailed (nm : string)
| MsgTableFailed (nm : string) (mn sz : Z)
| MsgCreated (nm : string) (mn sz : Z)
| MsgWarnOn.

(** What the kernel answers during one call of the driver.
    - [env_atomic]: [in_interrupt() || !preemptible() || rcu_preempt_depth()];
    - [env_mempool_alloc i]: the result of [mempool_alloc(cnss_pools[i].mp, _)];
    - [env_krealloc]: [None] when [krealloc] fails, [Some g] when it
      succeeds, [g] being what the not yet written part of the block holds;
    - [env_kmem_cache_create i], [env_mempool_create i]: the handles returned
      while tier [i] is built;
    - [env_kmalloc i]: [None] when the table of tier [i] cannot be
      allocated, [Some g] when it can, slot [k] of the fresh block holding
      [g k] ([kmalloc] does not clear memory). *)
Record kernel := mk_kernel {
  env_atomic : bool;
  env_mempool_alloc : nat → ptr;
  env_krealloc : option ptr;
  env_kmem_cache_create : nat → ptr;
  env_mempool_create : nat → ptr;
  env_kmalloc : nat → option (nat → ptr)
}.

(** ** Driver state

    [cnss_pools] is the global pointer ([None] before a table is bound);
    [cnss_prealloc_pool_size] always is the [ARRAY_SIZE] of the bound table,
    so it is the length of the list. *)
Record machine := mk_machine {
  cnss_pools : option (list cnss_pool);
  ktrace : list kcall;
  dmesg : list printk
}.

Definition cnss_prealloc_pool_size (pools : list cnss_pool) : nat :=
  length pools.

Inductive outcome (A : Type) :=
| Done (a : A)
| Fault.
Arguments Done {A} a.
Arguments Fault {A}.

Definition kfun (A : Type) : Type := machine → outcome (A * machine).

Definition kret {A} (a : A) : kfun A := λ st, Done (a, st).
Definition kbind {A B} (c : kfun A) (k : A → kfun B) : kfun B :=
  λ st, match c st with
        | Done (a, st') => k a st'
        | Fault => Fault
        end.
Definition kfault {A} : kfun A := λ _, Fault.

Declare Scope kfun_scope.
Delimit Scope kfun_scope with kfun.
Notation "x <- c ;; k" := (kbind c (λ x, k))
  (at level 100, c at next level, right associativity) : kfun_scope.
Notation "c ;; k" := (kbind c (λ _, k))
  (at level 100, right associativity) : kfun_scope.
Local Open Scope kfun_scope.

(** [cnss_pools[i]] as an rvalue and as an lvalue. *)
Definition read_pool (i : nat) : kfun cnss_pool :=
  λ st, match cnss_pools st ≫= (.!! i) with
        | Some p => Done (p, st)
        | None => Fault
        end.

Definition write_pool (i : nat) (p : cnss_pool) : kfun unit :=
  λ st, match cnss_pools st with
        | Some pools =>
            if decide (i < length pools)%nat
            then Done (tt, mk_machine (Some (<[i:=p]> pools))
                                      (ktrace st) (dmesg st))
            else Fault
        | None => Fault
        end.

Definition call (e : kcall) : kfun unit :=
  λ st, Done (tt, mk_machine (cnss_pools st) (ktrace st ++ [e]) (dmesg st)).

Definition pr (m : printk) : kfun unit :=
  λ st, Done (tt, mk_machine (cnss_pools st) (ktrace st) (dmesg st ++ [m])).

(** ** Table scans

    Both table loops have the shape
    [for (ptr_idx = 0; ptr_idx < cap; ptr_idx++) if (hit pool_table[ptr_idx]) ...]:
    [ScanHit] is the iteration that took the branch, [ScanEnd] the value of
    [ptr_idx] when the condition failed. *)
Inductive scan_result :=
| ScanHit (ptr_idx : nat)
| ScanEnd (ptr_idx : nat)
| ScanFault.

Fixpoint scan_table (hit : ptr → bool) (pool_table : option (list ptr))
    (todo ptr_idx : nat) : scan_result :=
  match todo with
  | O => ScanEnd ptr_idx
  | S todo' =>
      match pool_table ≫= (.!! ptr_idx) with
      | None => ScanFault
      | Some v =>
          if hit v then ScanHit ptr_idx
          else scan_table hit pool_table todo' (S ptr_idx)
      end
  end.

Definition is_null (v : ptr) : bool := v =? NULL.

(** [krealloc(old, bytes, GFP_ATOMIC)] when it succeeds: the old contents
    up to the new size, the rest not initialised. *)
Definition krealloc_block (old : option (list ptr)) (bytes : Z) (g : ptr)
    : list ptr :=
  resize (slots_of_bytes bytes) g (default [] old).

(** ** wcnss_find_pool_table_slot *)
Definition wcnss_find_pool_table_slot (env : kernel) (pool : nat) (mem : ptr)
    : kfun Z :=
  p <- read_pool pool ;;
  match scan_table is_null (pool_ptrs p) (loop_bound (table_capacity p)) 0 with
  | ScanFault => kfault
  | ScanHit ptr_idx =>
      match pool_ptrs p with
      | Some t => write_pool pool (set_pool_ptrs p (Some (<[ptr_idx:=mem]> t))) ;;
                  kret 0
      | None => kfault
      end
  | ScanEnd ptr_idx =>
      let new_capacity := wrap_int (table_capacity p + 1) in
      call (KKrealloc pool (table_bytes new_capacity)) ;;
      match env_krealloc env with
      | None =>
          write_pool pool (set_pool_ptrs p None) ;;
          kret (- EPERM)
      | Some g =>
          let t := krealloc_block (pool_ptrs p) (table_bytes new_capacity) g in
          if decide (ptr_idx < length t)%nat then
            write_pool pool
              (set_table_capacity
                 (set_pool_ptrs p (Some (<[ptr_idx:=mem]> t)))
                 (wrap_int (table_capacity p + 1))) ;;
            kret 0
          else kfault
      end
  end.

(** ** wcnss_free_pool_table_slot

    The struct is passed by value, but its [pool_ptrs] member still points
    at the tier's table: the store [pool_table[ptr_idx] = NULL] is made in
    that shared block.  The function returns its [int] result together with
    the contents of the block afterwards; the caller keeps them in
    [cnss_pools[i]]. *)
Definition wcnss_free_pool_table_slot (mempool : cnss_pool) (mem : ptr)
    : outcome (Z * option (list ptr)) :=
  match scan_table (Z.eqb mem) (pool_ptrs mempool)
                   (loop_bound (table_capacity mempool)) 0 with
  | ScanFault => Fault
  | ScanHit ptr_idx =>
      Done (wrap_int (Z.of_nat ptr_idx),
            (λ t, <[ptr_idx:=NULL]> t) <$> pool_ptrs mempool)
  | ScanEnd _ => Done (- EPERM, pool_ptrs mempool)
  end.

(** ** cnss_pool_alloc_threshold *)
Definition cnss_pool_alloc_threshold : kfun Z :=
  p <- read_pool 0 ;; kret (size p).

(** ** wcnss_prealloc_get

    [get_loop] is the [for] loop over the tiers: [todo] iterations are
    left, [i] is the loop variable.  It returns the values of [mem], [ret]
    and [i] with which the loop is left. *)
Definition gfp_of (env : kernel) : gfp_t :=
  if env_atomic env then GFP_ZERO_ATOMIC else GFP_ZERO_KERNEL.

Fixpoint get_loop (env : kernel) (sz : Z) (todo i : nat)
    : kfun (ptr * Z * nat) :=
  match todo with
  | O => kret (NULL, 0, i)
  | S todo' =>
      p <- read_pool i ;;
      if (sz <=? size p) && negb (mp p =? NULL) then
        match pool_ptrs p with
        | None => pr (MsgTableNull (name p)) ;; kret (NULL, 0, i)
        | Some _ =>
            let mem := env_mempool_alloc env i in
            call (KMempoolAlloc i (gfp_of env) mem) ;;
            if mem =? NULL then get_loop env sz todo' (S i)
            else
              ret <- wcnss_find_pool_table_slot env i mem ;;
              kret (mem, ret, i)
        end
      else get_loop env sz todo' (S i)
  end.

Definition wcnss_prealloc_get (env : kernel) (sz : Z) : kfun ptr :=
  λ st,
    match cnss_pools st with
    | None => Done (NULL, st)
    | Some pools =>
        (thr <- cnss_pool_alloc_threshold ;;
         r <- (if thr <=? sz
               then get_loop env sz (cnss_prealloc_pool_size pools) 0
               else kret (NULL, 0, O)) ;;
         let '(mem, ret, i) := r in
         mem <- (if ret <? 0
                 then _ <- read_pool i ;;
                      call (KMempoolFree i mem) ;; kret NULL
                 else kret mem) ;;
         (if mem =? NULL
          then thr <- cnss_pool_alloc_threshold ;;
               if thr <=? sz
               then pr (MsgNotAvailable sz (gfp_of env))
               else kret tt
          else kret tt) ;;
         kret mem) st
    end.

(** ** wcnss_prealloc_put (the table-scan variant, kernels from 5.17) *)
Fixpoint put_loop (mem : ptr) (todo i : nat) : kfun Z :=
  match todo with
  | O => kret 0
  | S todo' =>
      p <- read_pool i ;;
      if mp p =? NULL then put_loop mem todo' (S i)
      else
        match pool_ptrs p with
        | None => pr (MsgTableNull (name p)) ;; kret 0
        | Some _ =>
            match wcnss_free_pool_table_slot p mem with
            | Fault => kfault
            | Done (ret, t) =>
                write_pool i (set_pool_ptrs p t) ;;
                if 0 <=? ret
                then call (KMempoolFree i mem) ;; kret 1
                else put_loop mem todo' (S i)
            end
        end
  end.

Definition wcnss_prealloc_put (mem : ptr) : kfun Z :=
  λ st,
    if mem =? NULL then Done (0, st)
    else match cnss_pools st with
         | None => Done (0, st)
         | Some pools => put_loop mem (cnss_prealloc_pool_size pools) 0 st
         end.

(** ** wcnss_check_pool_lists *)
Fixpoint check_slots (pool : option (list ptr)) (nm : string)
    (todo ptr_idx : nat) : kfun unit :=
  match todo with
  | O => kret tt
  | S todo' =>
      match pool ≫= (.!! ptr_idx) with
      | None => kfault
      | Some v =>
          (if v =? NULL then kret tt
           else pr (MsgNotFreed v nm ptr_idx) ;; pr MsgWarnOn) ;;
          check_slots pool nm todo' (S ptr_idx)
      end
  end.

Fixpoint check_loop (todo i : nat) : kfun unit :=
  match todo with
  | O => kret tt
  | S todo' =>
      p <- read_pool i ;;
      check_slots (pool_ptrs p) (name p) (loop_bound (table_capacity p)) 0 ;;
      check_loop todo' (S i)
  end.

(** [cnss_prealloc_pool_size] is never 0, so with [cnss_pools] still null
    the first iteration reads through the null pointer. *)
Definition wcnss_check_pool_lists : kfun unit :=
  pr MsgEnterPoolCheck ;;
  λ st, match cnss_pools st with
        | None => Fault
        | Some pools => check_loop (cnss_prealloc_pool_size pools) 0 st
        end.

(** ** cnss_pool_init *)
Definition kmalloc_block (bytes : Z) (g : nat → ptr) : list ptr :=
  g <$> seq 0 (slots_of_bytes bytes).

Fixpoint init_loop (env : kernel) (todo i : nat) : kfun unit :=
  match todo with
  | O => kret tt
  | S todo' =>
      p <- read_pool i ;;
      call (KKmemCacheCreate i (name p) (size p)) ;;
      let c := env_kmem_cache_create env i in
      let p := set_cache p c in
      write_pool i p ;;
      if c =? NULL then
        pr (MsgCacheFailed (name p)) ;;
        init_loop env todo' (S i)
      else
        call (KMempoolCreate i (min p)) ;;
        let m := env_mempool_create env i in
        let p := set_mp p m in
        write_pool i p ;;
        if m =? NULL then
          pr (MsgMempoolFailed (name p)) ;;
          call (KKmemCacheDestroy i) ;;
          write_pool i (set_cache p NULL) ;;
          init_loop env todo' (S i)
        else
          let p := set_table_capacity p (min p) in
          write_pool i p ;;
          call (KKmalloc (table_bytes (min p))) ;;
          let t := kmalloc_block (table_bytes (min p)) <$> env_kmalloc env i in
          let p := set_pool_ptrs p t in
          write_pool i p ;;
          (if t is None
           then pr (MsgTableFailed (name p) (min p) (size p)) ;; pr MsgWarnOn
           else kret tt) ;;
          pr (MsgCreated (name p) (min p) (size p)) ;;
          init_loop env todo' (S i)
  end.

Definition cnss_pool_init (env : kernel) : kfun Z :=
  λ st, match cnss_pools st with
        | None => Fault
        | Some pools =>
            (init_loop env (cnss_prealloc_pool_size pools) 0 ;; kret 0) st
        end.


(** ** Predicates on states

    [table_sized]: the block behind [pool_ptrs] holds [table_capacity]
    slots, and the capacity is a non-negative [int].
    [table_ok]: moreover the capacity leaves room for one more slot. *)
Definition table_sized (p : cnss_pool) : Prop :=
  0 <= table_capacity p <= INT_MAX ∧
  match pool_ptrs p with
  | Some t => Z.of_nat (length t) = table_capacity p
  | None => True
  end.

Definition table_ok (p : cnss_pool) : Prop :=
  table_sized p ∧ table_capacity p < INT_MAX.

(** The tier takes part in the selection for a request of [sz] bytes:
    [cnss_pools[i].size >= size && cnss_pools[i].mp]. *)
Definition candidate (sz : Z) (p : cnss_pool) : bool :=
  (sz <=? size p) && negb (mp p =? NULL).

(** [v] sits in a slot of the table of [p]. *)
Definition recorded (v : ptr) (p : cnss_pool) : Prop :=
  ∃ t, pool_ptrs p = Some t ∧ v ∈ t.

(** Replace the tiers, extend the trace, extend the log. *)
Definition with_pools (st : machine) (pools : list cnss_pool) : machine :=
  mk_machine (Some pools) (ktrace st) (dmesg st).
Definition add_calls (st : machine) (es : list kcall) : machine :=
  mk_machine (cnss_pools st) (ktrace st ++ es) (dmesg st).
Definition add_msgs (st : machine) (ms : list printk) : machine :=
  mk_machine (cnss_pools st) (ktrace st) (dmesg st ++ ms).

(** [k] is the first slot of [t] on which [hit] holds. *)
Definition first_hit (hit : ptr → bool) (t : list ptr) (k : nat) : Prop :=
  (∃ v, t !! k = Some v ∧ hit v = true) ∧
  ∀ j w, (j < k)%nat → t !! j = Some w → hit w = false.

(** No slot of [t] satisfies [hit]. *)
Definition no_hit (hit : ptr → bool) (t : list ptr) : Prop :=
  ∀ j w, t !! j = Some w → hit w = false.

(** [wcnss_prealloc_put]'s loop goes past tier [p] when looking for [mem]:
    the tier has no mempool, or its table does not hold [mem]. *)
Definition put_passes (mem : ptr) (p : cnss_pool) : Prop :=
  mp p = NULL ∨ ∃ t, pool_ptrs p = Some t ∧ mem ∉ t.

(** [a] is in no tracking table. *)
Definition untracked (a : ptr) (pools : list cnss_pool) : Prop :=
  ∀ j p, pools !! j = Some p → ¬ recorded a p.

(** Slot [k] of tier [j] is the only slot of any table that holds [a]. *)
Definition only_slot (a : ptr) (pools : list cnss_pool) (j k : nat) : Prop :=
  (∃ p t, pools !! j = Some p ∧ pool_ptrs p = Some t ∧ t !! k = Some a) ∧
  ∀ j' p' t' k', pools !! j' = Some p' → pool_ptrs p' = Some t' →
                 t' !! k' = Some a → j' = j ∧ k' = k.

(** No tier before [j] that has a mempool has lost its table. *)
Definition tables_present_before (pools : list cnss_pool) (j : nat) : Prop :=
  ∀ i q, (i < j)%nat → pools !! i = Some q → mp q ≠ NULL →
         pool_ptrs q ≠ None.

(** ** Example states

    [profileA] is the two-tier table of the scenario: 8k and 16k, two
    blocks reserved in each.  [kernel_says alloc kr] is a kernel in which
    every cache, mempool and table of [cnss_pool_init] is created, fresh
    table memory happens to be zero, [mempool_alloc] answers [alloc] and
    [krealloc] answers [kr]. *)
Definition profileA : list cnss_pool :=
  [ row (8 * 1024) 2 "cnss-pool-8k"; row (16 * 1024) 2 "cnss-pool-16k" ].

Definition kernel_says (alloc : nat → ptr) (kr : option ptr) : kernel :=
  mk_kernel false alloc kr
            (λ i, 256 + Z.of_nat i) (λ i, 512 + Z.of_nat i)
            (λ _, Some (λ _, NULL)).

Definition boot (pools : list cnss_pool) : machine :=
  mk_machine (Some pools) [] [].

(** [profileA] with both tiers built; [t0] and [t1] are the tables. *)
Definition tier8k (t : option (list ptr)) : cnss_pool :=
  mk_cnss_pool 8192 2 "cnss-pool-8k" 512 256 t 2.
Definition tier16k (t : option (list ptr)) : cnss_pool :=
  mk_cnss_pool 16384 2 "cnss-pool-16k" 513 257 t 2.
Definition tiersA (t0 t1 : option (list ptr)) : list cnss_pool :=
  [ tier8k t0; tier16k t1 ].

(** Block 20480 is on loan from the 16k tier. *)
Definition st_held : machine :=
  mk_machine (Some (tiersA (Some [0; 0]) (Some [20480; 0]))) [] [].

(** The same, after the 8k tier lost its table to a failed growth. *)
Definition st_lost : machine :=
  mk_machine (Some (tiersA None (Some [20480; 0]))) [] [].

(** [wcnss_prealloc_get]'s loop goes past tier [i]: the tier is no
    candidate, or it is one, has its table, and its mempool gives nothing. *)
Definition get_passes (env : kernel) (sz : Z) (i : nat) (p : cnss_pool)
    : Prop :=
  candidate sz p = false ∨
  (pool_ptrs p ≠ None ∧ env_mempool_alloc env i = NULL).

(** The calls made on tiers [i], ..., [i + n - 1] when the loop goes past
    all of them: one failed [mempool_alloc] per candidate. *)
Definition failed_allocs (env : kernel) (sz : Z) (pools : list cnss_pool)
    (i n : nat) : list kcall :=
  flat_map (λ k, match pools !! k with
                 | Some p => if candidate sz p
                             then [KMempoolAlloc k (gfp_of env) NULL]
                             else []
                 | None => []
                 end) (seq i n).

(** The request reaches the threshold [cnss_pools[0].size]. *)
Definition engaged (sz : Z) (pools : list cnss_pool) : Prop :=
  ∃ p0, pools !! 0%nat = Some p0 ∧ size p0 <= sz.

(** The state in which [wcnss_prealloc_get] calls
    [wcnss_find_pool_table_slot] for tier [j]: the candidates before [j]
    gave nothing, the mempool of tier [j] has just answered. *)
Definition at_insert (env : kernel) (sz : Z) (st : machine)
    (pools : list cnss_pool) (j : nat) : machine :=
  mk_machine (Some pools)
    (ktrace st ++ failed_allocs env sz pools 0 j ++
       [KMempoolAlloc j (gfp_of env) (env_mempool_alloc env j)])
    (dmesg st).

(** The loop of [wcnss_prealloc_get] arrives at tier [j]. *)
Definition get_reaches (env : kernel) (sz : Z) (pools : list cnss_pool)
    (j : nat) : Prop :=
  ∀ k q, (k < j)%nat → pools !! k = Some q → get_passes env sz k q.

(** ** Blocks on loan

    The trace tells which blocks the mempools have handed out and not got
    back: [on_loan tr] lists them with the tier they came from. *)
Definition loan_step (l : list (nat * ptr)) (e : kcall) : list (nat * ptr) :=
  match e with
  | KMempoolAlloc i _ m => if m =? NULL then l else (i, m) :: l
  | KMempoolFree _ m => filter (λ x, x.2 ≠ m) l
  | _ => l
  end.

Definition on_loan (tr : list kcall) : list (nat * ptr) :=
  foldl loan_step [] tr.

(** The driver's invariant: a table of tier [i] only holds blocks on loan
    from tier [i]. *)
Definition tracked_on_loan (st : machine) : Prop :=
  ∀ pools i p t v,
    cnss_pools st = Some pools → pools !! i = Some p →
    pool_ptrs p = Some t → v ∈ t → v ≠ NULL →
    (i, v) ∈ on_loan (ktrace st).

(** The kernel's side: a mempool never hands out a block that is still on
    loan. *)
Definition hands_out_fresh (env : kernel) (st : machine) : Prop :=
  ∀ i j, env_mempool_alloc env i ≠ NULL →
         (j, env_mempool_alloc env i) ∉ on_loan (ktrace st).

(** [profileA] built, nothing on loan. *)
Definition st_ready : machine :=
  mk_machine (Some (tiersA (Some [0; 0]) (Some [0; 0]))) [] [].

(** [profileA] built, both slots of the 8k tier taken. *)
Definition st_full8k : machine :=
  mk_machine (Some (tiersA (Some [4096; 12288]) (Some [0; 0])))
    [KMempoolAlloc 0 GFP_ZERO_KERNEL 4096;
     KMempoolAlloc 0 GFP_ZERO_KERNEL 12288] [].

(** The 8k mempool is exhausted, the 16k mempool gives block 20480. *)
Definition only_16k_gives (i : nat) : ptr :=
  match i with 1%nat => 20480 | _ => NULL end.

(** The 8k mempool gives block 28672. *)
Definition the_8k_gives (i : nat) : ptr :=
  match i with 0%nat => 28672 | _ => NULL end.

(** The tiers are in increasing order of block size (rule 2 of the comment
    above the static tables). *)
Definition increasing (pools : list cnss_pool) : Prop :=
  ∀ a b pa pb, (a < b)%nat → pools !! a = Some pa → pools !! b = Some pb →
               size pa <= size pb.

(** Tier [i] is the first candidate for a request of [sz] bytes. *)
Definition first_candidate (sz : Z) (pools : list cnss_pool) (i : nat)
    : Prop :=
  (∃ p, pools !! i = Some p ∧ candidate sz p = true) ∧
  ∀ k q, (k < i)%nat → pools !! k = Some q → candidate sz q = false.

(** [profileA] as [cnss_pool_init] leaves it under [kernel_says]. *)
Definition st_initA : machine :=
  mk_machine (Some (tiersA (Some [0; 0]) (Some [0; 0])))
    [KKmemCacheCreate 0 "cnss-pool-8k" 8192; KMempoolCreate 0 2; KKmalloc 16;
     KKmemCacheCreate 1 "cnss-pool-16k" 16384; KMempoolCreate 1 2;
     KKmalloc 16]
    [MsgCreated "cnss-pool-8k" 2 8192; MsgCreated "cnss-pool-16k" 2 16384].

(** ** What the leak audit prints

    One [pr_err] and one [WARN_ON] per slot that is not empty, tier after
    tier, slot after slot. *)
Definition slot_reports (nm : string) (t : list ptr) (idx todo : nat)
    : list printk :=
  flat_map (λ k, match t !! k with
                 | Some v => if v =? NULL then []
                             else [MsgNotFreed v nm k; MsgWarnOn]
                 | None => []
                 end) (seq idx todo).

Definition tier_reports (p : cnss_pool) : list printk :=
  match pool_ptrs p with
  | Some t => slot_reports (name p) t 0 (length t)
  | None => []
  end.

Definition leak_reports (pools : list cnss_pool) : list printk :=
  flat_map tier_reports pools.

(** The audit can walk the tier: the table holds [table_capacity] slots,
    or there is no table and the capacity is 0. *)
Definition audit_safe (p : cnss_pool) : Prop :=
  table_sized p ∧ (pool_ptrs p = None → table_capacity p = 0).

(** Blocks 4096 and 20480 were never released. *)
Definition st_leaky : machine :=
  mk_machine (Some (tiersA (Some [4096; 0]) (Some [0; 20480]))) [] [].

(** ** What [cnss_pool_init] makes of a tier *)
Definition init_tier (env : kernel) (i : nat) (p : cnss_pool) : cnss_pool :=
  let c := env_kmem_cache_create env i in
  if c =? NULL then set_cache p c
  else
    let m := env_mempool_create env i in
    if m =? NULL then set_cache (set_mp (set_cache p c) m) NULL
    else
      set_pool_ptrs
        (set_table_capacity (set_mp (set_cache p c) m) (min p))
        (kmalloc_block (table_bytes (min p)) <$> env_kmalloc env i).

Fixpoint init_tiers (env : kernel) (i : nat) (l : list cnss_pool)
    : list cnss_pool :=
  match l with
  | [] => []
  | p :: l' => init_tier env i p :: init_tiers env (S i) l'
  end.

(** A row of a static table before [cnss_pool_init]: no table yet, capacity
    still 0, a sensible reserve. *)
Definition static_row (p : cnss_pool) : Prop :=
  pool_ptrs p = None ∧ table_capacity p = 0 ∧ 0 <= min p <= INT_MAX.

(** A kernel in which the table of the 16k tier cannot be allocated. *)
Definition kernel_without_16k_table : kernel :=
  mk_kernel false (λ _, NULL) None
            (λ i, 256 + Z.of_nat i) (λ i, 512 + Z.of_nat i)
            (λ i, match i with 1%nat => None | _ => Some (λ _, NULL) end).

(** ** Sequences of requests *)
Inductive request :=
| ReqGet (env : kernel) (sz : Z)
| ReqPut (mem : ptr).

Definition serve (r : request) (st : machine) : outcome machine :=
  match r with
  | ReqGet env sz =>
      match wcnss_prealloc_get env sz st with
      | Done (_, st') => Done st'
      | Fault => Fault
      end
  | ReqPut mem =>
      match wcnss_prealloc_put mem st with
      | Done (_, st') => Done st'
      | Fault => Fault
      end
  end.

Fixpoint serve_all (rs : list request) (st : machine) : outcome machine :=
  match rs with
  | [] => Done st
  | r :: rs' =>
      match serve r st with
      | Done st' => serve_all rs' st'
      | Fault => Fault
      end
  end.

(** Tier [i] has a mempool [m] but no table. *)
Definition lost_table (i : nat) (m : ptr) (st : machine) : Prop :=
  ∃ pools p, cnss_pools st = Some pools ∧ pools !! i = Some p ∧
             mp p = m ∧ pool_ptrs p = None.

(** A computation that leaves the tiers alone. *)
Definition keeps_pools {A} (c : kfun A) : Prop :=
  ∀ st a st', c st = Done (a, st') → cnss_pools st' = cnss_pools st.

(** What [wcnss_prealloc_get] and [wcnss_prealloc_put] may do to the
    tiers: every tier keeps its mempool, and a tier without a table stays
    without one. *)
Definition evolves (pools : list cnss_pool) (st' : machine) : Prop :=
  ∃ pools', cnss_pools st' = Some pools' ∧
    ∀ j pj, pools !! j = Some pj →
            ∃ pj', pools' !! j = Some pj' ∧ mp pj' = mp pj ∧
                   (pool_ptrs pj = None → pool_ptrs pj' = None).

(** Both slots of the 16k tier are taken, one slot of the 8k tier. *)
Definition st_full16k : machine :=
  mk_machine (Some (tiersA (Some [4096; 0]) (Some [20480; 24576]))) [] [].

(** The 16k mempool gives block 32768. *)
Definition the_16k_gives (i : nat) : ptr :=
  match i with 1%nat => 32768 | _ => NULL end.

(** ** The invariant of the tables

    No block sits in two slots, every table has its capacity, and the
    tables hold only blocks on loan. *)
Definition slots_distinct (pools : list cnss_pool) : Prop :=
  ∀ i p t k j q u l v,
    pools !! i = Some p → pool_ptrs p = Some t → t !! k = Some v →
    pools !! j = Some q → pool_ptrs q = Some u → u !! l = Some v →
    v ≠ NULL → i = j ∧ k = l.

Definition pool_inv (st : machine) : Prop :=
  ∃ pools, cnss_pools st = Some pools ∧ Forall table_sized pools ∧
           slots_distinct pools ∧ tracked_on_loan st.

(** * The rest of the driver

    The functions below are the ones around the allocator: binding a
    static table, tearing the tiers down, the release variant for kernels
    before 5.17, and the device-tree gate of the module.

    Calls and log lines for which [kcall] and [printk] have no entry are
    returned by the function that makes them, as a list of [side_call]. *)
Inductive side_call :=
| InfoAssign (device_id : Z)
| InfoDestroy (nm : string)
| MempoolDestroy (i : nat) (m : Z)
| Kfree (i : nat) (t : option (list Z)).

(** ** cnss_assign_prealloc_pool, cnss_initialize_prealloc_pool

    The three tables are static arrays that the driver writes through
    [cnss_pools]; [statics] is what they hold when the function is called,
    [pristine] what they hold when the module is loaded.  The device ids
    come from cnss_common.h and are parameters; case labels are distinct.
    The ids named beside [default] share its branch. *)
Record statics := mk_statics {
  now_default : list cnss_pool;
  now_adrastea : list cnss_pool;
  now_wcn6750 : list cnss_pool
}.

Definition pristine : statics :=
  mk_statics cnss_pools_default cnss_pools_adrastea cnss_pools_wcn6750.

Definition cnss_assign_prealloc_pool (ADRASTEA_DEVICE_ID WCN6750_DEVICE_ID : Z)
    (arrays : statics) (device_id : Z) : kfun (list side_call) :=
  λ st,
    let table :=
      if device_id =? ADRASTEA_DEVICE_ID then now_adrastea arrays
      else if device_id =? WCN6750_DEVICE_ID then now_wcn6750 arrays
      else now_default arrays in
    Done ([InfoAssign device_id],
          mk_machine (Some table) (ktrace st) (dmesg st)).

Definition cnss_initialize_prealloc_pool
    (ADRASTEA_DEVICE_ID WCN6750_DEVICE_ID : Z) (arrays : statics)
    (env : kernel) (device_id : Z) : kfun (list side_call) :=
  notes <- cnss_assign_prealloc_pool ADRASTEA_DEVICE_ID WCN6750_DEVICE_ID
             arrays device_id ;;
  cnss_pool_init env ;;
  kret notes.

(** ** cnss_pool_deinit, cnss_deinitialize_prealloc_pool

    [mempool_destroy] and [kfree] accept a null pointer.  Neither
    [cnss_pools] nor [table_capacity] is reset. *)
Fixpoint deinit_loop (todo i : nat) : kfun (list side_call) :=
  match todo with
  | O => kret []
  | S todo' =>
      p <- read_pool i ;;
      call (KKmemCacheDestroy i) ;;
      let p1 := set_mp p NULL in
      write_pool i p1 ;;
      let p2 := set_cache p1 NULL in
      write_pool i p2 ;;
      let p3 := set_pool_ptrs p2 None in
      write_pool i p3 ;;
      rest <- deinit_loop todo' (S i) ;;
      kret ([InfoDestroy (name p); MempoolDestroy i (mp p);
             Kfree i (pool_ptrs p)] ++ rest)
  end.

Definition cnss_pool_deinit : kfun (list side_call) :=
  λ st, match cnss_pools st with
        | None => Done ([], st)
        | Some pools => deinit_loop (cnss_prealloc_pool_size pools) 0 st
        end.

Definition cnss_deinitialize_prealloc_pool : kfun (list side_call) :=
  cnss_pool_deinit.

(** A tier as [cnss_pool_deinit] leaves it. *)
Definition torn_down (p : cnss_pool) : cnss_pool :=
  set_pool_ptrs (set_cache (set_mp p NULL) NULL) None.

(** ** The release variant for kernels before 5.17

    The tier is found through the slab cache of the page of the block.
    [page_map] is what the memory manager answers: [virt_addr_valid],
    [virt_to_head_page] and the [slab_cache] member of a page. *)
Record page_map := mk_page_map {
  virt_addr_valid : Z → bool;
  virt_to_head_page : Z → Z;
  slab_cache : Z → Z
}.

Definition EINVAL : Z := 22.
Definition ENOENT : Z := 2.

Module Pre517.

Fixpoint get_index_loop (c : Z) (todo i : nat) : kfun Z :=
  match todo with
  | O => kret (- ENOENT)
  | S todo' =>
      p <- read_pool i ;;
      if cache p =? c then kret (Z.of_nat i)
      else get_index_loop c todo' (S i)
  end.

Definition cnss_pool_get_index (pm : page_map) (mem : Z) : kfun Z :=
  if negb (virt_addr_valid pm mem) then kret (- EINVAL)
  else
    let page := virt_to_head_page pm mem in
    if page =? NULL then kret (- ENOENT)
    else
      let c := slab_cache pm page in
      if c =? NULL then kret (- ENOENT)
      else
        λ st, match cnss_pools st with
              | None => Fault
              | Some pools =>
                  get_index_loop c (cnss_prealloc_pool_size pools) 0 st
              end.

Definition wcnss_prealloc_put (pm : page_map) (mem : Z) : kfun Z :=
  λ st,
    if mem =? NULL then Done (0, st)
    else match cnss_pools st with
         | None => Done (0, st)
         | Some pools =>
             (i <- cnss_pool_get_index pm mem ;;
              if (0 <=? i) &&
                 (i <? Z.of_nat (cnss_prealloc_pool_size pools)) then
                p <- read_pool (Z.to_nat i) ;;
                if mp p =? NULL then kret 0
                else
                  match pool_ptrs p with
                  | None => pr (MsgTableNull (name p)) ;; kret 0
                  | Some _ =>
                      match wcnss_free_pool_table_slot p mem with
                      | Fault => kfault
                      | Done (ret, t) =>
                          write_pool (Z.to_nat i) (set_pool_ptrs p t) ;;
                          if 0 <=? ret
                          then call (KMempoolFree (Z.to_nat i) mem) ;; kret 1
                          else kret 0
                      end
                  end
              else kret 0) st
         end.

End Pre517.

(** ** The device-tree gate

    A node of the tree, as far as the module looks at it: the names of its
    properties and the answer of [of_device_is_available].
    [for_each_node_with_property] walks the nodes that have the property, in
    the order of the tree. *)
Record device_node := mk_device_node {
  properties : list string;
  of_device_is_available : bool
}.

Definition ENODEV : Z := 19.
Definition EOPNOTSUPP : Z := 95.

Definition has_property (nm : string) (dn : device_node) : bool :=
  bool_decide (nm ∈ properties dn).

(** The loop of [cnss_prealloc_is_valid_dt_node_found]: the value of [dn]
    with which it is left, [None] when the nodes are exhausted. *)
Fixpoint first_available (nodes : list device_node) : option device_node :=
  match nodes with
  | [] => None
  | dn :: rest =>
      if of_device_is_available dn then Some dn else first_available rest
  end.

Definition cnss_prealloc_is_valid_dt_node_found (tree : list device_node)
    : bool :=
  match first_available (filter (λ dn, has_property "qcom,wlan" dn = true)
                                tree) with
  | Some _ => true
  | None => false
  end.

Definition cnss_prealloc_init (tree : list device_node) : Z :=
  if negb (cnss_prealloc_is_valid_dt_node_found tree) then - ENODEV else 0.

Definition wcnss_pre_alloc_reset : Z := - EOPNOTSUPP.

(** ** Predicates for the further properties *)

(** The members of a tier that no request may change. *)
Definition same_config (p p' : cnss_pool) : Prop :=
  size p' = size p ∧ min p' = min p ∧ name p' = name p ∧
  mp p' = mp p ∧ cache p' = cache p.

(** A tier that has a table has room for its reserve. *)
Definition reserve_covered (p : cnss_pool) : Prop :=
  pool_ptrs p ≠ None → min p <= table_capacity p.

(** No slot of any table holds an address. *)
Definition all_slots_empty (pools : list cnss_pool) : Prop :=
  ∀ i p t k v, pools !! i = Some p → pool_ptrs p = Some t →
               t !! k = Some v → v = NULL.


(** A table with room to grow [n] more times before its capacity passes
    [INT_MAX]. *)
Definition headroom (n : nat) (p : cnss_pool) : Prop :=
  table_sized p ∧ table_capacity p + Z.of_nat n <= INT_MAX.

(** What [n] requests may have made of a tier. *)
Definition tier_after (n : nat) (p p' : cnss_pool) : Prop :=
  same_config p p' ∧ table_sized p' ∧
  table_capacity p <= table_capacity p' <= table_capacity p + Z.of_nat n ∧
  (pool_ptrs p = None → pool_ptrs p' = None).

(** The three ways in which [wcnss_prealloc_get] changes the tier [pj] that
    gave it the block [m]: an empty slot is taken, the table grows by one
    slot, or the table is lost. *)
Definition get_changes (m : Z) (pj p' : cnss_pool) : Prop :=
  ∃ t, pool_ptrs pj = Some t ∧
    ((∃ k, first_hit is_null t k ∧
           p' = set_pool_ptrs pj (Some (<[k:=m]> t))) ∨
     ((NULL ∉ t) ∧
      p' = set_table_capacity (set_pool_ptrs pj (Some (t ++ [m])))
             (table_capacity pj + 1)) ∨
     ((NULL ∉ t) ∧ p' = set_pool_ptrs pj None)).


(** The kernel calls that [cnss_pool_init] makes for tier [i], and for the
    tiers [l] from index [i] on. *)
Definition init_calls (env : kernel) (i : nat) (p : cnss_pool)
    : list kcall :=
  KKmemCacheCreate i (name p) (size p) ::
  if env_kmem_cache_create env i =? NULL then []
  else KMempoolCreate i (min p) ::
       if env_mempool_create env i =? NULL then [KKmemCacheDestroy i]
       else [KKmalloc (table_bytes (min p))].

Fixpoint init_trace (env : kernel) (i : nat) (l : list cnss_pool)
    : list kcall :=
  match l with
  | [] => []
  | p :: l' => init_calls env i p ++ init_trace env (S i) l'
  end.


(** The calls and log lines that [cnss_pool_deinit] returns for the tiers
    [l] from index [i] on. *)
Fixpoint deinit_calls (i : nat) (l : list cnss_pool) : list side_call :=
  match l with
  | [] => []
  | p :: l' =>
      [InfoDestroy (name p); MempoolDestroy i (mp p); Kfree i (pool_ptrs p)]
        ++ deinit_calls (S i) l'
  end.


(** The memory manager attributes [mem] to tier [i]: the address is valid,
    its head page has a slab cache, and [i] is the first tier with that
    cache. *)
Definition owner_tier (pm : page_map) (mem : Z) (pools : list cnss_pool)
    (i : nat) : Prop :=
  virt_addr_valid pm mem = true ∧
  virt_to_head_page pm mem ≠ NULL ∧
  slab_cache pm (virt_to_head_page pm mem) ≠ NULL ∧
  (∃ p, pools !! i = Some p ∧
        cache p = slab_cache pm (virt_to_head_page pm mem)) ∧
  ∀ k q, (k < i)%nat → pools !! k = Some q →
         cache q ≠ slab_cache pm (virt_to_head_page pm mem).

(** The memory manager attributes [mem] to no tier. *)
Definition no_owner (pm : page_map) (mem : Z) (pools : list cnss_pool)
    : Prop :=
  virt_addr_valid pm mem = false ∨
  virt_to_head_page pm mem = NULL ∨
  slab_cache pm (virt_to_head_page pm mem) = NULL ∨
  ∀ k q, pools !! k = Some q →
         cache q ≠ slab_cache pm (virt_to_head_page pm mem).


(** A kernel whose [kmalloc] hands over blocks that were used before: slot
    0 of a fresh table still holds the word 20480.  Its mempools give the
    block at address 20480. *)
Definition kernel_with_stale_tables : kernel :=
  mk_kernel false (λ _, 20480) None
            (λ i, 256 + Z.of_nat i) (λ i, 512 + Z.of_nat i)
            (λ _, Some (λ k, match k with 0%nat => 20480 | _ => NULL end)).

(** A kernel that builds the two tiers of [profileA] and hands over table
    memory that is zero. *)
Definition builds_profileA (env : kernel) : Prop :=
  ∀ i, (i < 2)%nat →
    env_kmem_cache_create env i ≠ NULL ∧ env_mempool_create env i ≠ NULL ∧
    ∃ g, env_kmalloc env i = Some g ∧ ∀ k, g k = NULL.

(** * Proofs *)

Ltac solve_tables_ok :=
  repeat constructor; unfold INT_MAX; simpl; lia.

(** ** Integer conversions in range *)

Lemma loop_bound_in_range cap :
  0 <= cap < 2 ^ 64 → loop_bound cap = Z.to_nat cap.
Proof.
  intros H. unfold loop_bound, to_size_t. by rewrite Z.mod_small.
Qed.

Lemma wrap_int_in_range z :
  - 2 ^ 31 <= z < 2 ^ 31 → wrap_int z = z.
Proof.
  intros H. unfold wrap_int. rewrite Z.mod_small; lia.
Qed.

Lemma slots_of_table_bytes n :
  0 <= n < 2 ^ 61 → slots_of_bytes (table_bytes n) = Z.to_nat n.
Proof.
  intros H. unfold slots_of_bytes, table_bytes, to_size_t, sizeof_ptr.
  rewrite (Z.mod_small n) by lia.
  rewrite Z.mod_small by lia.
  by rewrite Z.div_mul.
Qed.

Lemma table_sized_bound p t :
  table_sized p → pool_ptrs p = Some t →
  loop_bound (table_capacity p) = length t.
Proof.
  intros [Hr Hl] Ht. rewrite Ht in Hl. unfold INT_MAX in Hr.
  rewrite loop_bound_in_range by lia. lia.
Qed.

Lemma table_ok_bound p t :
  table_ok p → pool_ptrs p = Some t →
  loop_bound (table_capacity p) = length t.
Proof. intros [Hs _]. by apply table_sized_bound. Qed.

Lemma table_ok_sized pools : Forall table_ok pools → Forall table_sized pools.
Proof. intros H. eapply Forall_impl; [exact H|]. by intros p [Hs _]. Qed.

(** ** The table scan *)

Lemma scan_table_spec hit t todo idx :
  (idx + todo ≤ length t)%nat →
  match scan_table hit (Some t) todo idx with
  | ScanHit k =>
      (idx ≤ k < idx + todo)%nat ∧
      (∃ v, t !! k = Some v ∧ hit v = true) ∧
      ∀ j w, (idx ≤ j < k)%nat → t !! j = Some w → hit w = false
  | ScanEnd k =>
      k = (idx + todo)%nat ∧
      ∀ j w, (idx ≤ j < k)%nat → t !! j = Some w → hit w = false
  | ScanFault => False
  end.
Proof.
  induction todo as [|n IH] in idx |- *; intros Hlen; simpl.
  - split; [lia | intros; lia].
  - destruct (t !! idx) as [v|] eqn:Hv.
    + destruct (hit v) eqn:Hh.
      * split; [lia|]. split; [eauto|]. intros; lia.
      * specialize (IH (S idx)).
        destruct (scan_table hit (Some t) n (S idx)) as [k|k|];
          [ destruct IH as (Hk & Hex & Hbefore); [lia|]
          | destruct IH as (Hk & Hbefore); [lia|]
          | apply IH; lia ].
        -- split; [lia|]. split; [done|].
           intros j w Hj Hw. destruct (decide (j = idx)) as [->|Hne].
           ++ congruence.
           ++ apply (Hbefore j); [lia | done].
        -- split; [lia|].
           intros j w Hj Hw. destruct (decide (j = idx)) as [->|Hne].
           ++ congruence.
           ++ apply (Hbefore j); [lia | done].
    + apply lookup_ge_None in Hv. lia.
Qed.

Lemma scan_whole_table hit t :
  (∃ k, first_hit hit t k ∧
        scan_table hit (Some t) (length t) 0 = ScanHit k) ∨
  (no_hit hit t ∧ scan_table hit (Some t) (length t) 0 = ScanEnd (length t)).
Proof.
  pose proof (scan_table_spec hit t (length t) 0) as H.
  destruct (scan_table hit (Some t) (length t) 0) as [k|k|].
  - destruct H as (Hk & Hex & Hb); [lia|]. left. exists k. split; [|done].
    split; [done|]. intros j w Hj. apply Hb. lia.
  - destruct H as (Hk & Hb); [lia|]. right. simpl in Hk. subst k. split; [|done].
    intros j w Hw. apply (Hb j); [|done].
    apply lookup_lt_Some in Hw. lia.
  - exfalso. apply H. lia.
Qed.

Lemma first_hit_unique hit t k1 k2 :
  first_hit hit t k1 → first_hit hit t k2 → k1 = k2.
Proof.
  intros [(v1 & Hv1 & Hh1) Hb1] [(v2 & Hv2 & Hh2) Hb2].
  destruct (Nat.lt_trichotomy k1 k2) as [Hlt|[->|Hlt]]; [|done|].
  - specialize (Hb2 _ _ Hlt Hv1). congruence.
  - specialize (Hb1 _ _ Hlt Hv2). congruence.
Qed.

Lemma first_hit_no_hit hit t k : first_hit hit t k → no_hit hit t → False.
Proof.
  intros [(v & Hv & Hh) _] Hn. specialize (Hn _ _ Hv). congruence.
Qed.

Lemma scan_null_table hit todo idx :
  scan_table hit None todo idx =
  match todo with O => ScanEnd idx | S _ => ScanFault end.
Proof. by destruct todo. Qed.

Lemma no_hit_is_null t : no_hit is_null t ↔ NULL ∉ t.
Proof.
  unfold no_hit, is_null. split.
  - intros H Hin. apply list_elem_of_lookup in Hin as [j Hj].
    specialize (H _ _ Hj). lia.
  - intros H j w Hw. apply Z.eqb_neq. intros ->.
    apply H. apply list_elem_of_lookup. eauto.
Qed.

Lemma no_hit_eqb mem t : no_hit (Z.eqb mem) t ↔ mem ∉ t.
Proof.
  unfold no_hit. split.
  - intros H Hin. apply list_elem_of_lookup in Hin as [j Hj].
    specialize (H _ _ Hj). lia.
  - intros H j w Hw. apply Z.eqb_neq. intros ->.
    apply H. apply list_elem_of_lookup. eauto.
Qed.

(** ** Reading and writing [cnss_pools[i]] *)

Lemma read_pool_eq st pools i p :
  cnss_pools st = Some pools → pools !! i = Some p →
  read_pool i st = Done (p, st).
Proof. intros Hst Hp. unfold read_pool. rewrite Hst. simpl. by rewrite Hp. Qed.

Lemma write_pool_eq st pools i p :
  cnss_pools st = Some pools → (i < length pools)%nat →
  write_pool i p st = Done (tt, with_pools st (<[i:=p]> pools)).
Proof.
  intros Hst Hi. unfold write_pool. rewrite Hst.
  by rewrite decide_True.
Qed.

(** ** Stepping through a computation *)

Lemma kbind_kret {A B} (k : A → kfun B) a st : kbind (kret a) k st = k a st.
Proof. done. Qed.

Lemma kbind_assoc {A B C} (c : kfun A) (f : A → kfun B) (k : B → kfun C) st :
  kbind (kbind c f) k st = kbind c (λ x, kbind (f x) k) st.
Proof. unfold kbind. by destruct (c st) as [[a st']|]. Qed.

Lemma kbind_call {B} (k : unit → kfun B) e ps tr dm :
  kbind (call e) k (mk_machine ps tr dm) = k tt (mk_machine ps (tr ++ [e]) dm).
Proof. done. Qed.

Lemma kbind_pr {B} (k : unit → kfun B) m ps tr dm :
  kbind (pr m) k (mk_machine ps tr dm) = k tt (mk_machine ps tr (dm ++ [m])).
Proof. done. Qed.

Lemma kbind_read {B} (k : cnss_pool → kfun B) pools i p tr dm :
  pools !! i = Some p →
  kbind (read_pool i) k (mk_machine (Some pools) tr dm) =
  k p (mk_machine (Some pools) tr dm).
Proof. intros Hp. unfold kbind. by erewrite read_pool_eq. Qed.

Lemma kbind_threshold {B} (k : Z → kfun B) pools p0 tr dm :
  pools !! 0%nat = Some p0 →
  kbind cnss_pool_alloc_threshold k (mk_machine (Some pools) tr dm) =
  k (size p0) (mk_machine (Some pools) tr dm).
Proof.
  intros Hp. unfold cnss_pool_alloc_threshold.
  by rewrite kbind_assoc, (kbind_read _ _ _ _ _ _ Hp), kbind_kret.
Qed.

(** ** wcnss_find_pool_table_slot: the three ways it ends *)

Lemma find_slot_reuse env st pools i p t k mem :
  cnss_pools st = Some pools → pools !! i = Some p →
  pool_ptrs p = Some t → table_ok p → first_hit is_null t k →
  wcnss_find_pool_table_slot env i mem st =
  Done (0, with_pools st (<[i:=set_pool_ptrs p (Some (<[k:=mem]> t))]> pools)).
Proof.
  intros Hst Hp Ht Hok Hk.
  unfold wcnss_find_pool_table_slot, kbind.
  rewrite (read_pool_eq _ _ _ _ Hst Hp).
  rewrite (table_ok_bound _ _ Hok Ht), Ht.
  destruct (scan_whole_table is_null t) as [(k' & Hk' & ->)|[Hno _]].
  - rewrite (first_hit_unique _ _ _ _ Hk' Hk).
    rewrite (write_pool_eq _ pools); [done..|].
    by eapply lookup_lt_Some.
  - destruct (first_hit_no_hit _ _ _ Hk Hno).
Qed.

Lemma grown_block t cap g mem :
  Z.of_nat (length t) = cap → 0 <= cap < INT_MAX →
  <[length t:=mem]>
    (krealloc_block (Some t) (table_bytes (wrap_int (cap + 1))) g) =
  t ++ [mem].
Proof.
  intros Hlen Hcap. unfold INT_MAX in Hcap. unfold krealloc_block. simpl.
  rewrite wrap_int_in_range by lia.
  rewrite slots_of_table_bytes by lia.
  replace (Z.to_nat (cap + 1)) with (length t + 1)%nat by lia.
  rewrite resize_add, resize_all, drop_all. simpl.
  rewrite insert_app_r_alt by lia.
  by rewrite Nat.sub_diag.
Qed.

Lemma find_slot_grow env st pools i p t g mem :
  cnss_pools st = Some pools → pools !! i = Some p →
  pool_ptrs p = Some t → table_ok p → NULL ∉ t →
  env_krealloc env = Some g →
  wcnss_find_pool_table_slot env i mem st =
  Done (0, mk_machine
             (Some (<[i:=set_table_capacity
                           (set_pool_ptrs p (Some (t ++ [mem])))
                           (table_capacity p + 1)]> pools))
             (ktrace st ++
                [KKrealloc i (table_bytes (wrap_int (table_capacity p + 1)))])
             (dmesg st)).
Proof.
  intros Hst Hp Ht Hok Hfull Hg.
  unfold wcnss_find_pool_table_slot, kbind.
  rewrite (read_pool_eq _ _ _ _ Hst Hp).
  rewrite (table_ok_bound _ _ Hok Ht), Ht.
  destruct (scan_whole_table is_null t) as [(k' & Hk' & _)|[_ ->]].
  { apply no_hit_is_null in Hfull. destruct (first_hit_no_hit _ _ _ Hk' Hfull). }
  unfold call at 1. rewrite Hg.
  destruct Hok as [[Hr Hl] Hlt]. rewrite Ht in Hl.
  assert (0 <= table_capacity p < INT_MAX) as Hr' by lia.
  pose proof (grown_block t _ g mem Hl Hr') as Hblock.
  rewrite decide_True.
  2:{ apply (f_equal length) in Hblock.
      rewrite length_insert, length_app in Hblock. simpl in Hblock. lia. }
  rewrite Hblock.
  erewrite write_pool_eq; [|done|simpl; by eapply lookup_lt_Some].
  unfold kret, with_pools. simpl.
  rewrite wrap_int_in_range by (unfold INT_MAX in Hr'; lia).
  done.
Qed.

Lemma find_slot_grow_fails env st pools i p t mem :
  cnss_pools st = Some pools → pools !! i = Some p →
  pool_ptrs p = Some t → table_ok p → NULL ∉ t →
  env_krealloc env = None →
  wcnss_find_pool_table_slot env i mem st =
  Done (- EPERM,
        mk_machine
          (Some (<[i:=set_pool_ptrs p None]> pools))
          (ktrace st ++
             [KKrealloc i (table_bytes (wrap_int (table_capacity p + 1)))])
          (dmesg st)).
Proof.
  intros Hst Hp Ht Hok Hfull Hg.
  unfold wcnss_find_pool_table_slot, kbind.
  rewrite (read_pool_eq _ _ _ _ Hst Hp).
  rewrite (table_ok_bound _ _ Hok Ht).
  destruct (scan_whole_table is_null t) as [(k' & Hk' & _)|[_ Hscan]].
  { apply no_hit_is_null in Hfull. destruct (first_hit_no_hit _ _ _ Hk' Hfull). }
  rewrite Ht, Hscan.
  unfold call at 1. rewrite Hg.
  erewrite write_pool_eq; [|done|simpl; by eapply lookup_lt_Some].
  done.
Qed.

(** ** wcnss_free_pool_table_slot *)

Lemma free_slot_found p t k mem :
  pool_ptrs p = Some t → table_sized p → first_hit (Z.eqb mem) t k →
  wcnss_free_pool_table_slot p mem =
  Done (Z.of_nat k, Some (<[k:=NULL]> t)).
Proof.
  intros Ht Hok Hk. unfold wcnss_free_pool_table_slot.
  rewrite (table_sized_bound _ _ Hok Ht), Ht.
  destruct (scan_whole_table (Z.eqb mem) t) as [(k' & Hk' & ->)|[Hno _]].
  - rewrite (first_hit_unique _ _ _ _ Hk' Hk). simpl.
    destruct Hk as [(v & Hv & _) _]. apply lookup_lt_Some in Hv.
    destruct Hok as [Hr Hl]. rewrite Ht in Hl. unfold INT_MAX in Hr.
    rewrite wrap_int_in_range by lia. done.
  - destruct (first_hit_no_hit _ _ _ Hk Hno).
Qed.

Lemma free_slot_missing p t mem :
  pool_ptrs p = Some t → table_sized p → mem ∉ t →
  wcnss_free_pool_table_slot p mem = Done (- EPERM, Some t).
Proof.
  intros Ht Hok Hno. unfold wcnss_free_pool_table_slot.
  rewrite (table_sized_bound _ _ Hok Ht), Ht.
  destruct (scan_whole_table (Z.eqb mem) t) as [(k' & Hk' & _)|[_ ->]]; [|done].
  apply no_hit_eqb in Hno. destruct (first_hit_no_hit _ _ _ Hk' Hno).
Qed.

Lemma set_pool_ptrs_same p : set_pool_ptrs p (pool_ptrs p) = p.
Proof. by destruct p. Qed.

(** ** wcnss_prealloc_put: the loop *)

Lemma put_loop_pass mem todo i pools tr dm p :
  pools !! i = Some p → table_sized p → put_passes mem p →
  put_loop mem (S todo) i (mk_machine (Some pools) tr dm) =
  put_loop mem todo (S i) (mk_machine (Some pools) tr dm).
Proof.
  intros Hp Hok Hpass. simpl. unfold kbind at 1.
  erewrite read_pool_eq; [|done..].
  destruct Hpass as [Hmp|(t & Ht & Hno)].
  - rewrite Hmp. done.
  - destruct (mp p =? NULL); [done|].
    rewrite Ht, (free_slot_missing _ _ _ Ht Hok Hno).
    unfold kbind at 1.
    erewrite write_pool_eq; [|done|by eapply lookup_lt_Some].
    rewrite <- Ht, set_pool_ptrs_same. unfold with_pools. simpl.
    rewrite list_insert_id by done.
    replace (0 <=? - EPERM) with false by done. done.
Qed.

Lemma put_loop_run mem pools tr dm n i :
  Forall table_sized pools →
  (i + n ≤ length pools)%nat →
  (∀ k p, (i ≤ k < i + n)%nat → pools !! k = Some p → put_passes mem p) →
  put_loop mem (length pools - i) i (mk_machine (Some pools) tr dm) =
  put_loop mem (length pools - (i + n)) (i + n)
           (mk_machine (Some pools) tr dm).
Proof.
  intros Hok. induction n as [|n IH] in i |- *; intros Hlen Hpass.
  - by rewrite Nat.add_0_r.
  - destruct (lookup_lt_is_Some_2 pools i) as [p Hp]; [lia|].
    replace (length pools - i)%nat with (S (length pools - S i)) by lia.
    rewrite (put_loop_pass _ _ _ _ _ _ p); [|done| |].
    + replace (i + S n)%nat with (S i + n)%nat by lia.
      apply IH; [lia|]. intros k q Hk. apply Hpass. lia.
    + eapply Forall_lookup_1; done.
    + apply (Hpass i); [lia|done].
Qed.

Lemma put_loop_found mem todo i pools tr dm p t k :
  pools !! i = Some p → table_sized p → mp p ≠ NULL →
  pool_ptrs p = Some t → first_hit (Z.eqb mem) t k →
  put_loop mem (S todo) i (mk_machine (Some pools) tr dm) =
  Done (1, mk_machine
             (Some (<[i:=set_pool_ptrs p (Some (<[k:=NULL]> t))]> pools))
             (tr ++ [KMempoolFree i mem]) dm).
Proof.
  intros Hp Hok Hmp Ht Hk. simpl. unfold kbind at 1.
  erewrite read_pool_eq; [|done..].
  apply Z.eqb_neq in Hmp. rewrite Hmp, Ht.
  rewrite (free_slot_found _ _ _ _ Ht Hok Hk).
  unfold kbind at 1.
  erewrite write_pool_eq; [|done|by eapply lookup_lt_Some].
  replace (0 <=? Z.of_nat k) with true by (symmetry; apply Z.leb_le; lia).
  done.
Qed.

Lemma put_loop_untracked mem pools tr dm todo i :
  Forall table_sized pools → untracked mem pools →
  (i + todo ≤ length pools)%nat →
  ∃ dm', put_loop mem todo i (mk_machine (Some pools) tr dm) =
         Done (0, mk_machine (Some pools) tr dm').
Proof.
  intros Hok Hun. induction todo as [|n IH] in i |- *; intros Hlen.
  - by exists dm.
  - destruct (lookup_lt_is_Some_2 pools i) as [p Hp]; [lia|].
    pose proof (Forall_lookup_1 _ _ _ _ Hok Hp) as Hokp.
    destruct (decide (mp p = NULL)) as [Hmp|Hmp].
    { rewrite (put_loop_pass _ _ _ _ _ _ p); [|done|done|by left].
      apply IH. lia. }
    destruct (pool_ptrs p) as [t|] eqn:Ht.
    + rewrite (put_loop_pass _ _ _ _ _ _ p); [|done|done|].
      * apply IH. lia.
      * right. exists t. split; [done|]. intros Hin.
        apply (Hun _ _ Hp). by exists t.
    + simpl. unfold kbind at 1.
      erewrite read_pool_eq; [|done..].
      apply Z.eqb_neq in Hmp. rewrite Hmp, Ht.
      by eexists.
Qed.

(** ** Releasing a block that sits in one slot *)

Lemma only_slot_first_hit a pools j k p t :
  only_slot a pools j k → pools !! j = Some p → pool_ptrs p = Some t →
  first_hit (Z.eqb a) t k.
Proof.
  intros [(p0 & t0 & Hp0 & Ht0 & Hk) Huniq] Hp Ht.
  assert (p0 = p) as -> by congruence.
  assert (t0 = t) as -> by congruence.
  split.
  - exists a. split; [done|]. apply Z.eqb_refl.
  - intros i w Hi Hw. apply Z.eqb_neq. intros <-.
    destruct (Huniq _ _ _ _ Hp Ht Hw) as [_ ->]. lia.
Qed.

Lemma only_slot_passes a pools j k i q :
  only_slot a pools j k → tables_present_before pools j →
  (i < j)%nat → pools !! i = Some q → put_passes a q.
Proof.
  intros [_ Huniq] Hpres Hi Hq.
  destruct (decide (mp q = NULL)) as [Hmp|Hmp]; [by left|right].
  specialize (Hpres _ _ Hi Hq Hmp).
  destruct (pool_ptrs q) as [t|] eqn:Ht; [|done].
  exists t. split; [done|]. intros Hin.
  apply list_elem_of_lookup in Hin as [k' Hk'].
  destruct (Huniq _ _ _ _ Hq Ht Hk') as [-> _]. lia.
Qed.

Lemma untracked_after_clear a pools j k p t :
  a ≠ NULL → only_slot a pools j k → pools !! j = Some p →
  pool_ptrs p = Some t →
  untracked a (<[j:=set_pool_ptrs p (Some (<[k:=NULL]> t))]> pools).
Proof.
  intros Ha [_ Huniq] Hp Ht j' p' Hp' (t' & Ht' & Hin).
  apply list_elem_of_lookup in Hin as [k' Hk'].
  destruct (decide (j' = j)) as [->|Hne].
  - rewrite list_lookup_insert_eq in Hp' by (by eapply lookup_lt_Some).
    injection Hp' as <-. simpl in Ht'. injection Ht' as <-.
    apply list_lookup_insert_Some in Hk' as [(_ & Hnull & _)|[Hnek Hk']].
    + congruence.
    + destruct (Huniq _ _ _ _ Hp Ht Hk') as [_ ->]. done.
  - rewrite list_lookup_insert_ne in Hp' by done.
    destruct (Huniq _ _ _ _ Hp' Ht' Hk') as [-> _]. done.
Qed.

Lemma table_sized_after_store pools j p t k v :
  Forall table_sized pools → pools !! j = Some p → pool_ptrs p = Some t →
  Forall table_sized (<[j:=set_pool_ptrs p (Some (<[k:=v]> t))]> pools).
Proof.
  intros Hok Hp Ht. apply Forall_insert; [done|].
  pose proof (Forall_lookup_1 _ _ _ _ Hok Hp) as [Hr Hl].
  rewrite Ht in Hl. split; [done|]. simpl. by rewrite length_insert.
Qed.

Lemma put_eq a pools tr dm :
  a ≠ NULL →
  wcnss_prealloc_put a (mk_machine (Some pools) tr dm) =
  put_loop a (length pools - 0) 0 (mk_machine (Some pools) tr dm).
Proof.
  intros Ha. unfold wcnss_prealloc_put. apply Z.eqb_neq in Ha. rewrite Ha.
  simpl. by rewrite Nat.sub_0_r.
Qed.

(** ** Releasing the same block twice *)

Lemma put_twice a st pools j k p :
  cnss_pools st = Some pools → Forall table_sized pools → a ≠ NULL →
  only_slot a pools j k → pools !! j = Some p → mp p ≠ NULL →
  tables_present_before pools j →
  ∃ t st1 st2,
    pool_ptrs p = Some t ∧
    wcnss_prealloc_put a st = Done (1, st1) ∧
    cnss_pools st1 =
      Some (<[j:=set_pool_ptrs p (Some (<[k:=NULL]> t))]> pools) ∧
    ktrace st1 = ktrace st ++ [KMempoolFree j a] ∧
    (∀ pools1, cnss_pools st1 = Some pools1 → untracked a pools1) ∧
    wcnss_prealloc_put a st1 = Done (0, st2) ∧
    cnss_pools st2 = cnss_pools st1 ∧
    ktrace st2 = ktrace st1.
Proof.
  intros Hst Hok Ha Hslot Hp Hmp Hbefore.
  destruct st as [ps tr dm]. simpl in Hst. subst ps.
  pose proof Hslot as [(p0 & t & Hp0 & Ht & Hk) _].
  assert (p0 = p) as -> by congruence.
  pose proof (lookup_lt_Some _ _ _ Hp) as Hj.
  exists t.
  set (pools1 := <[j:=set_pool_ptrs p (Some (<[k:=NULL]> t))]> pools).
  assert (Forall table_sized pools1) as Hok1
    by (by apply table_sized_after_store).
  assert (untracked a pools1) as Hun1
    by (by eapply untracked_after_clear).
  destruct (put_loop_untracked a pools1 (tr ++ [KMempoolFree j a]) dm
              (length pools1) 0 Hok1 Hun1) as [dm' Hsecond]; [lia|].
  exists (mk_machine (Some pools1) (tr ++ [KMempoolFree j a]) dm).
  exists (mk_machine (Some pools1) (tr ++ [KMempoolFree j a]) dm').
  split; [done|]. split.
  { rewrite put_eq by done.
    rewrite (put_loop_run a pools tr dm j 0 Hok); [|lia|].
    - simpl. replace (length pools - j)%nat with (S (length pools - S j)) by lia.
      eapply put_loop_found; [done| |done|done|].
      + exact (Forall_lookup_1 _ _ _ _ Hok Hp).
      + exact (only_slot_first_hit _ _ _ _ _ _ Hslot Hp Ht).
    - intros i q Hi Hq. eapply only_slot_passes; [done|done| |done]. lia. }
  split; [done|]. split; [done|]. split.
  { simpl. intros ? [= <-]. done. }
  split; [|done].
  rewrite put_eq by done. by rewrite Nat.sub_0_r.
Qed.

(** ** wcnss_prealloc_get: the loop *)

Lemma get_loop_pass env sz todo i pools tr dm p :
  pools !! i = Some p → get_passes env sz i p →
  get_loop env sz (S todo) i (mk_machine (Some pools) tr dm) =
  get_loop env sz todo (S i)
    (mk_machine (Some pools) (tr ++ failed_allocs env sz pools i 1) dm).
Proof.
  intros Hp Hpass. simpl. unfold kbind at 1.
  erewrite read_pool_eq; [|done..].
  unfold failed_allocs. simpl. rewrite Hp. fold (candidate sz p).
  destruct Hpass as [Hc|[Ht Hm]].
  - rewrite Hc. simpl. by rewrite app_nil_r.
  - destruct (candidate sz p); [|simpl; by rewrite app_nil_r].
    destruct (pool_ptrs p); [|done].
    rewrite Hm. simpl. done.
Qed.

Lemma failed_allocs_S env sz pools i n :
  failed_allocs env sz pools i (S n) =
  failed_allocs env sz pools i 1 ++ failed_allocs env sz pools (S i) n.
Proof. unfold failed_allocs. simpl. by rewrite app_nil_r. Qed.

Lemma get_loop_run env sz pools tr dm n i :
  (i + n ≤ length pools)%nat →
  (∀ k p, (i ≤ k < i + n)%nat → pools !! k = Some p →
          get_passes env sz k p) →
  get_loop env sz (length pools - i) i (mk_machine (Some pools) tr dm) =
  get_loop env sz (length pools - (i + n)) (i + n)
    (mk_machine (Some pools) (tr ++ failed_allocs env sz pools i n) dm).
Proof.
  induction n as [|n IH] in i, tr |- *; intros Hlen Hpass.
  - rewrite Nat.add_0_r. unfold failed_allocs. simpl. by rewrite app_nil_r.
  - destruct (lookup_lt_is_Some_2 pools i) as [p Hp]; [lia|].
    replace (length pools - i)%nat with (S (length pools - S i)) by lia.
    rewrite (get_loop_pass _ _ _ _ _ _ _ p); [|done|].
    + replace (i + S n)%nat with (S i + n)%nat by lia.
      rewrite IH; [|lia|].
      * by rewrite (failed_allocs_S _ _ _ i n), app_assoc.
      * intros k q Hk. apply Hpass. lia.
    + apply (Hpass i); [lia|done].
Qed.

Lemma get_loop_table_null env sz todo i pools tr dm p :
  pools !! i = Some p → candidate sz p = true → pool_ptrs p = None →
  get_loop env sz (S todo) i (mk_machine (Some pools) tr dm) =
  Done ((NULL, 0, i),
        mk_machine (Some pools) tr (dm ++ [MsgTableNull (name p)])).
Proof.
  intros Hp Hc Ht. simpl. unfold kbind at 1.
  erewrite read_pool_eq; [|done..].
  fold (candidate sz p). by rewrite Hc, Ht.
Qed.

Lemma get_loop_alloc env sz todo i pools tr dm p :
  pools !! i = Some p → candidate sz p = true → pool_ptrs p ≠ None →
  env_mempool_alloc env i ≠ NULL →
  get_loop env sz (S todo) i (mk_machine (Some pools) tr dm) =
  match wcnss_find_pool_table_slot env i (env_mempool_alloc env i)
          (mk_machine (Some pools)
             (tr ++ [KMempoolAlloc i (gfp_of env) (env_mempool_alloc env i)])
             dm) with
  | Done (ret, st') => Done ((env_mempool_alloc env i, ret, i), st')
  | Fault => Fault
  end.
Proof.
  intros Hp Hc Ht Hm. simpl. unfold kbind at 1.
  erewrite read_pool_eq; [|done..].
  fold (candidate sz p). rewrite Hc.
  destruct (pool_ptrs p); [|done].
  apply Z.eqb_neq in Hm. unfold kbind at 1. simpl. rewrite Hm.
  unfold kbind. simpl.
  by destruct (wcnss_find_pool_table_slot _ _ _ _) as [[? ?]|].
Qed.

(** ** wcnss_prealloc_get: from the loop to the result *)

Lemma threshold_eq pools tr dm p0 :
  pools !! 0%nat = Some p0 →
  cnss_pool_alloc_threshold (mk_machine (Some pools) tr dm) =
  Done (size p0, mk_machine (Some pools) tr dm).
Proof.
  intros Hp. unfold cnss_pool_alloc_threshold, kbind.
  by erewrite read_pool_eq.
Qed.

Lemma get_tail {B} (k : unit → kfun B) env sz pools p0 tr dm (mem : ptr) :
  pools !! 0%nat = Some p0 →
  kbind (if mem =? NULL
         then thr <- cnss_pool_alloc_threshold ;;
              if thr <=? sz
              then pr (MsgNotAvailable sz (gfp_of env))
              else kret tt
         else kret tt) k (mk_machine (Some pools) tr dm) =
  k tt (mk_machine (Some pools) tr
          (dm ++ if (mem =? NULL) && (size p0 <=? sz)
                 then [MsgNotAvailable sz (gfp_of env)] else [])).
Proof.
  intros Hp. destruct (mem =? NULL); simpl.
  - rewrite kbind_assoc, (kbind_threshold _ _ _ _ _ Hp).
    destruct (size p0 <=? sz).
    + by rewrite kbind_pr.
    + by rewrite kbind_kret, app_nil_r.
  - by rewrite kbind_kret, app_nil_r.
Qed.

Lemma get_below pools tr dm env sz p0 :
  pools !! 0%nat = Some p0 → sz < size p0 →
  wcnss_prealloc_get env sz (mk_machine (Some pools) tr dm) =
  Done (NULL, mk_machine (Some pools) tr dm).
Proof.
  intros Hp Hsz. unfold wcnss_prealloc_get. simpl.
  rewrite (kbind_threshold _ _ _ _ _ Hp).
  replace (size p0 <=? sz) with false by (symmetry; apply Z.leb_gt; lia).
  rewrite kbind_kret. simpl. rewrite kbind_kret.
  rewrite (get_tail _ _ _ _ _ _ _ _ Hp).
  replace (size p0 <=? sz) with false by (symmetry; apply Z.leb_gt; lia).
  rewrite andb_false_r, app_nil_r. done.
Qed.

Lemma get_null env sz pools tr dm p0 i pools1 tr1 dm1 p1 :
  pools !! 0%nat = Some p0 → size p0 <= sz →
  get_loop env sz (length pools) 0 (mk_machine (Some pools) tr dm) =
    Done ((NULL, 0, i), mk_machine (Some pools1) tr1 dm1) →
  pools1 !! 0%nat = Some p1 → size p1 = size p0 →
  wcnss_prealloc_get env sz (mk_machine (Some pools) tr dm) =
  Done (NULL, mk_machine (Some pools1) tr1
                (dm1 ++ [MsgNotAvailable sz (gfp_of env)])).
Proof.
  intros Hp Hsz Hloop Hp1 Hsize. unfold wcnss_prealloc_get. simpl.
  rewrite (kbind_threshold _ _ _ _ _ Hp).
  replace (size p0 <=? sz) with true by (symmetry; apply Z.leb_le; lia).
  unfold kbind at 1. unfold cnss_prealloc_pool_size. rewrite Hloop. simpl.
  rewrite kbind_kret, (get_tail _ _ _ _ _ _ _ _ Hp1), Hsize.
  replace (size p0 <=? sz) with true by (symmetry; apply Z.leb_le; lia).
  done.
Qed.

Lemma get_block env sz pools tr dm p0 m i st1 :
  pools !! 0%nat = Some p0 → size p0 <= sz → m ≠ NULL →
  get_loop env sz (length pools) 0 (mk_machine (Some pools) tr dm) =
    Done ((m, 0, i), st1) →
  (∃ pools1 p1, cnss_pools st1 = Some pools1 ∧ pools1 !! 0%nat = Some p1) →
  wcnss_prealloc_get env sz (mk_machine (Some pools) tr dm) = Done (m, st1).
Proof.
  intros Hp Hsz Hm Hloop (pools1 & p1 & Hst1 & Hp1).
  destruct st1 as [ps1 tr1 dm1]. simpl in Hst1. subst ps1.
  unfold wcnss_prealloc_get. simpl.
  rewrite (kbind_threshold _ _ _ _ _ Hp).
  replace (size p0 <=? sz) with true by (symmetry; apply Z.leb_le; lia).
  unfold kbind at 1. unfold cnss_prealloc_pool_size. rewrite Hloop. simpl.
  rewrite kbind_kret, (get_tail _ _ _ _ _ _ _ _ Hp1).
  apply Z.eqb_neq in Hm. rewrite Hm. simpl. by rewrite app_nil_r.
Qed.

Lemma get_rollback env sz pools tr dm p0 m ret i pools1 tr1 dm1 p1 q :
  pools !! 0%nat = Some p0 → size p0 <= sz → ret < 0 →
  get_loop env sz (length pools) 0 (mk_machine (Some pools) tr dm) =
    Done ((m, ret, i), mk_machine (Some pools1) tr1 dm1) →
  pools1 !! 0%nat = Some p1 → size p1 = size p0 → pools1 !! i = Some q →
  wcnss_prealloc_get env sz (mk_machine (Some pools) tr dm) =
  Done (NULL, mk_machine (Some pools1) (tr1 ++ [KMempoolFree i m])
                (dm1 ++ [MsgNotAvailable sz (gfp_of env)])).
Proof.
  intros Hp Hsz Hret Hloop Hp1 Hsize Hq. unfold wcnss_prealloc_get. simpl.
  rewrite (kbind_threshold _ _ _ _ _ Hp).
  replace (size p0 <=? sz) with true by (symmetry; apply Z.leb_le; lia).
  unfold kbind at 1. unfold cnss_prealloc_pool_size. rewrite Hloop. simpl.
  replace (ret <? 0) with true by (symmetry; apply Z.ltb_lt; lia).
  rewrite kbind_assoc, (kbind_read _ _ _ _ _ _ Hq). cbv beta.
  rewrite kbind_assoc, kbind_call. cbv beta. rewrite kbind_kret.
  rewrite (get_tail _ _ _ _ _ _ _ _ Hp1), Hsize.
  replace (size p0 <=? sz) with true by (symmetry; apply Z.leb_le; lia).
  done.
Qed.

(** [wcnss_find_pool_table_slot] touches the table and the capacity of its
    tier and nothing else, whatever the shape of the table. *)
Lemma find_slot_frame env i m pools tr dm ret st2 :
  wcnss_find_pool_table_slot env i m (mk_machine (Some pools) tr dm) =
    Done (ret, st2) →
  ∃ p p' tr2,
    pools !! i = Some p ∧
    st2 = mk_machine (Some (<[i:=p']> pools)) tr2 dm ∧
    size p' = size p ∧ mp p' = mp p ∧ name p' = name p ∧
    tr `prefix_of` tr2 ∧
    (ret = 0 ∨ ret = - EPERM).
Proof.
  unfold wcnss_find_pool_table_slot, kbind at 1, read_pool. simpl.
  destruct (pools !! i) as [p|] eqn:Hp; [|done].
  pose proof (lookup_lt_Some _ _ _ Hp) as Hi.
  destruct (scan_table _ _ _ _) as [k|k|]; [| |done].
  - destruct (pool_ptrs p) as [t|]; [|done].
    unfold kbind, write_pool. simpl. rewrite decide_True by done.
    intros [= <- <-]. eexists p, _, tr. repeat split; eauto.
  - unfold kbind at 1, call. simpl.
    destruct (env_krealloc env) as [g|].
    + destruct (decide _); [|done].
      unfold kbind, write_pool. simpl. rewrite decide_True by done.
      intros [= <- <-]. eexists p, _, _. repeat split; eauto.
      by apply prefix_app_r.
    + unfold kbind, write_pool. simpl. rewrite decide_True by done.
      intros [= <- <-]. eexists p, _, _. repeat split; eauto.
      by apply prefix_app_r.
Qed.

(** ** wcnss_prealloc_get: the paths through the function *)

Lemma get_loop_reaches_block env sz pools tr dm j pj :
  pools !! j = Some pj → candidate sz pj = true → pool_ptrs pj ≠ None →
  env_mempool_alloc env j ≠ NULL → get_reaches env sz pools j →
  get_loop env sz (length pools) 0 (mk_machine (Some pools) tr dm) =
  match wcnss_find_pool_table_slot env j (env_mempool_alloc env j)
          (at_insert env sz (mk_machine (Some pools) tr dm) pools j) with
  | Done (ret, st') => Done ((env_mempool_alloc env j, ret, j), st')
  | Fault => Fault
  end.
Proof.
  intros Hp Hc Ht Hm Hreach.
  pose proof (lookup_lt_Some _ _ _ Hp) as Hj.
  rewrite <- (Nat.sub_0_r (length pools)) at 1.
  rewrite (get_loop_run env sz pools tr dm j 0); [|lia|].
  2:{ intros k q Hk. apply Hreach. lia. }
  simpl. replace (length pools - j)%nat with (S (length pools - S j)) by lia.
  rewrite (get_loop_alloc _ _ _ _ _ _ _ pj) by done.
  unfold at_insert. simpl. by rewrite app_assoc.
Qed.

Lemma insert_keeps_threshold (pools : list cnss_pool) j pj p' p0 :
  pools !! 0%nat = Some p0 → pools !! j = Some pj → size p' = size pj →
  ∃ p1, <[j:=p']> pools !! 0%nat = Some p1 ∧ size p1 = size p0.
Proof.
  intros Hp0 Hpj Hsize. destruct j as [|j].
  - exists p'. rewrite list_lookup_insert_eq by (by eapply lookup_lt_Some).
    split; [done|]. congruence.
  - exists p0. by rewrite list_lookup_insert_ne.
Qed.

Lemma get_exhausted env sz pools tr dm :
  engaged sz pools →
  get_reaches env sz pools (length pools) →
  wcnss_prealloc_get env sz (mk_machine (Some pools) tr dm) =
  Done (NULL,
        mk_machine (Some pools)
          (tr ++ failed_allocs env sz pools 0 (length pools))
          (dm ++ [MsgNotAvailable sz (gfp_of env)])).
Proof.
  intros (p0 & Hp0 & Hsz) Hreach.
  eapply get_null; [done|done| |done|done].
  rewrite <- (Nat.sub_0_r (length pools)) at 1.
  rewrite (get_loop_run env sz pools tr dm (length pools) 0); [|lia|].
  - simpl. by rewrite Nat.sub_diag.
  - intros k q Hk. apply Hreach. lia.
Qed.

Lemma get_lost_table env sz pools tr dm j pj :
  engaged sz pools → get_reaches env sz pools j →
  pools !! j = Some pj → candidate sz pj = true → pool_ptrs pj = None →
  wcnss_prealloc_get env sz (mk_machine (Some pools) tr dm) =
  Done (NULL,
        mk_machine (Some pools)
          (tr ++ failed_allocs env sz pools 0 j)
          (dm ++ [MsgTableNull (name pj); MsgNotAvailable sz (gfp_of env)])).
Proof.
  intros (p0 & Hp0 & Hsz) Hreach Hp Hc Ht.
  pose proof (lookup_lt_Some _ _ _ Hp) as Hj.
  rewrite (cons_middle (MsgTableNull _)), app_assoc.
  eapply get_null; [done|done| |done|done].
  rewrite <- (Nat.sub_0_r (length pools)) at 1.
  rewrite (get_loop_run env sz pools tr dm j 0); [|lia|].
  - simpl. replace (length pools - j)%nat with (S (length pools - S j)) by lia.
    by eapply get_loop_table_null.
  - intros k q Hk. apply Hreach. lia.
Qed.

Lemma get_served env sz pools tr dm j pj t :
  engaged sz pools → get_reaches env sz pools j →
  pools !! j = Some pj → candidate sz pj = true →
  pool_ptrs pj = Some t → table_ok pj → env_mempool_alloc env j ≠ NULL →
  let m := env_mempool_alloc env j in
  let st1 := at_insert env sz (mk_machine (Some pools) tr dm) pools j in
  let grow := KKrealloc j (table_bytes (wrap_int (table_capacity pj + 1))) in
  (∃ k, first_hit is_null t k ∧
        wcnss_prealloc_get env sz (mk_machine (Some pools) tr dm) =
        Done (m, mk_machine
                   (Some (<[j:=set_pool_ptrs pj (Some (<[k:=m]> t))]> pools))
                   (ktrace st1) dm)) ∨
  (is_Some (env_krealloc env) ∧ (NULL ∉ t) ∧
   wcnss_prealloc_get env sz (mk_machine (Some pools) tr dm) =
   Done (m, mk_machine
              (Some (<[j:=set_table_capacity
                            (set_pool_ptrs pj (Some (t ++ [m])))
                            (table_capacity pj + 1)]> pools))
              (ktrace st1 ++ [grow]) dm)) ∨
  (env_krealloc env = None ∧ (NULL ∉ t) ∧
   wcnss_prealloc_get env sz (mk_machine (Some pools) tr dm) =
   Done (NULL, mk_machine
                 (Some (<[j:=set_pool_ptrs pj None]> pools))
                 ((ktrace st1 ++ [grow]) ++ [KMempoolFree j m])
                 (dm ++ [MsgNotAvailable sz (gfp_of env)]))).
Proof.
  intros (p0 & Hp0 & Hsz) Hreach Hp Hc Ht Hok Hm m st1 grow.
  assert (pool_ptrs pj ≠ None) as Hsome by (by rewrite Ht).
  pose proof (get_loop_reaches_block env sz pools tr dm j pj
                Hp Hc Hsome Hm Hreach) as Hloop.
  fold m st1 in Hloop.
  destruct (scan_whole_table is_null t) as [(k & Hk & _)|[Hfull _]].
  - left. exists k. split; [done|].
    rewrite (find_slot_reuse env st1 pools j pj t k m) in Hloop by done.
    eapply get_block; [done|done|done|exact Hloop|].
    destruct (insert_keeps_threshold pools j pj
                (set_pool_ptrs pj (Some (<[k:=m]> t))) p0) as (p1 & Hp1 & _);
      [done..|].
    by eexists _, p1.
  - apply no_hit_is_null in Hfull. right.
    destruct (env_krealloc env) as [g|] eqn:Hg.
    + left. split; [by eexists|]. split; [done|].
      rewrite (find_slot_grow env st1 pools j pj t g m) in Hloop by done.
      eapply get_block; [done|done|done|exact Hloop|].
      destruct (insert_keeps_threshold pools j pj
                  (set_table_capacity (set_pool_ptrs pj (Some (t ++ [m])))
                                      (table_capacity pj + 1)) p0)
        as (p1 & Hp1 & _); [done..|].
      by eexists _, p1.
    + right. split; [done|]. split; [done|].
      rewrite (find_slot_grow_fails env st1 pools j pj t m) in Hloop by done.
      destruct (insert_keeps_threshold pools j pj (set_pool_ptrs pj None) p0)
        as (p1 & Hp1 & Hsize); [done..|].
      eapply get_rollback; [done|done| |exact Hloop|done|done|].
      * unfold EPERM. lia.
      * apply list_lookup_insert_eq. by eapply lookup_lt_Some.
Qed.

(** ** Where the loop of wcnss_prealloc_get stops *)

Lemma get_passes_dec env sz i p :
  get_passes env sz i p ∨
  (candidate sz p = true ∧
   (pool_ptrs p = None ∨
    (pool_ptrs p ≠ None ∧ env_mempool_alloc env i ≠ NULL))).
Proof.
  unfold get_passes.
  destruct (candidate sz p); [|by left; left].
  destruct (pool_ptrs p) as [t|]; [|right; split; [done|by left]].
  destruct (decide (env_mempool_alloc env i = NULL)) as [Hm|Hm].
  - left. right. done.
  - right. split; [done|]. right. done.
Qed.

Lemma first_stop env sz (pools : list cnss_pool) n :
  (n ≤ length pools)%nat →
  get_reaches env sz pools n ∨
  ∃ j pj, (j < n)%nat ∧ get_reaches env sz pools j ∧
          pools !! j = Some pj ∧ candidate sz pj = true ∧
          (pool_ptrs pj = None ∨
           (pool_ptrs pj ≠ None ∧ env_mempool_alloc env j ≠ NULL)).
Proof.
  induction n as [|n IH]; intros Hn.
  - left. intros k q Hk. lia.
  - destruct IH as [Hreach|(j & pj & Hj & Hrest)]; [lia| |].
    + destruct (lookup_lt_is_Some_2 pools n) as [p Hp]; [lia|].
      destruct (get_passes_dec env sz n p) as [Hpass|[Hc Hstop]].
      * left. intros k q Hk Hq.
        destruct (decide (k = n)) as [->|Hne].
        -- assert (q = p) as -> by congruence. done.
        -- apply Hreach; [lia|done].
      * right. exists n, p. split; [lia|]. done.
    + right. exists j, pj. split; [lia|done].
Qed.

Lemma get_faults_without_tiers env sz tr dm :
  wcnss_prealloc_get env sz (mk_machine (Some []) tr dm) = Fault.
Proof. done. Qed.

(** Every way [wcnss_prealloc_get] can end once the request reaches the
    threshold. *)
Lemma get_cases env sz pools tr dm :
  engaged sz pools → Forall table_ok pools →
  let st := mk_machine (Some pools) tr dm in
  (∃ st', wcnss_prealloc_get env sz st = Done (NULL, st')) ∨
  ∃ j pj t p' tr',
    get_reaches env sz pools j ∧
    pools !! j = Some pj ∧ candidate sz pj = true ∧
    pool_ptrs pj = Some t ∧ env_mempool_alloc env j ≠ NULL ∧
    wcnss_prealloc_get env sz st =
      Done (env_mempool_alloc env j,
            mk_machine (Some (<[j:=p']> pools)) tr' dm) ∧
    size p' = size pj ∧ mp p' = mp pj ∧
    ktrace (at_insert env sz st pools j) `prefix_of` tr' ∧
    ((∃ k, first_hit is_null t k ∧
           p' = set_pool_ptrs pj (Some (<[k:=env_mempool_alloc env j]> t))) ∨
     ((NULL ∉ t) ∧
      p' = set_table_capacity
             (set_pool_ptrs pj (Some (t ++ [env_mempool_alloc env j])))
             (table_capacity pj + 1))).
Proof.
  intros Heng Hok st.
  destruct (first_stop env sz pools (length pools))
    as [Hall|(j & pj & Hj & Hreach & Hp & Hc & Hstop)]; [lia| |].
  { left. eexists. by apply get_exhausted. }
  destruct Hstop as [Hnone|[Hsome Hm]].
  { left. eexists. by eapply get_lost_table. }
  destruct (pool_ptrs pj) as [t|] eqn:Ht; [|done].
  pose proof (Forall_lookup_1 _ _ _ _ Hok Hp) as Hokj.
  destruct (get_served env sz pools tr dm j pj t Heng Hreach Hp Hc Ht Hokj Hm)
    as [(k & Hk & Hget)|[(Hg & Hfull & Hget)|(Hg & Hfull & Hget)]].
  - right. eexists j, pj, t, _, _.
    do 5 (split; [done|]). split; [exact Hget|].
    do 3 (split; [done|]). left. by exists k.
  - right. eexists j, pj, t, _, _.
    do 5 (split; [done|]). split; [exact Hget|].
    do 2 (split; [done|]). split; [by apply prefix_app_r|].
    right. done.
  - left. eexists. exact Hget.
Qed.

(** ** The first mempool that is called *)

Lemma failed_allocs_app env sz pools i n m :
  failed_allocs env sz pools i (n + m) =
  failed_allocs env sz pools i n ++ failed_allocs env sz pools (i + n) m.
Proof.
  unfold failed_allocs. by rewrite seq_app, flat_map_app.
Qed.

Lemma failed_allocs_none env sz (pools : list cnss_pool) i n :
  (∀ k q, (i ≤ k < i + n)%nat → pools !! k = Some q →
          candidate sz q = false) →
  failed_allocs env sz pools i n = [].
Proof.
  induction n as [|n IH] in i |- *; intros Hnone; [done|].
  rewrite failed_allocs_S, IH.
  - unfold failed_allocs. simpl. destruct (pools !! i) as [q|] eqn:Hq; [|done].
    rewrite (Hnone i q); [done|lia|done].
  - intros k q Hk. apply Hnone. lia.
Qed.

Lemma failed_allocs_first env sz pools i p n :
  first_candidate sz pools i → pools !! i = Some p → (i < n)%nat →
  failed_allocs env sz pools 0 n =
  KMempoolAlloc i (gfp_of env) NULL ::
    failed_allocs env sz pools (S i) (n - S i).
Proof.
  intros [(p' & Hp' & Hc) Hfirst] Hp Hn.
  assert (p' = p) as -> by congruence.
  replace n with (i + (1 + (n - S i)))%nat at 1 by lia.
  rewrite !failed_allocs_app.
  rewrite failed_allocs_none by (intros k q Hk; apply Hfirst; lia).
  simpl. unfold failed_allocs at 1. simpl. rewrite Hp, Hc. simpl.
  by rewrite Nat.add_1_r.
Qed.

Lemma first_candidate_passes env sz pools i p j :
  first_candidate sz pools i → pools !! i = Some p → (i < j)%nat →
  get_reaches env sz pools j → env_mempool_alloc env i = NULL.
Proof.
  intros [(p' & Hp' & Hc) _] Hp Hij Hreach.
  assert (p' = p) as -> by congruence.
  destruct (Hreach i p Hij Hp) as [Hno|[_ Hm]]; [congruence|done].
Qed.

Lemma first_candidate_stop sz pools i j pj :
  first_candidate sz pools i → pools !! j = Some pj →
  candidate sz pj = true → (i ≤ j)%nat.
Proof.
  intros [_ Hfirst] Hpj Hc.
  destruct (decide (i ≤ j)%nat) as [|Hlt]; [done|].
  rewrite (Hfirst j pj) in Hc; [done|lia|done].
Qed.

Lemma prefix_snoc_cons {A} (l : list A) x rest more :
  (l ++ [x]) `prefix_of` l ++ (x :: rest) ++ more.
Proof. exists (rest ++ more). by rewrite <- app_assoc. Qed.

(** Whatever happens later, the first kernel call of
    [wcnss_prealloc_get] is [mempool_alloc] on the first candidate. *)
Lemma get_first_call env sz pools tr dm i p :
  engaged sz pools → Forall table_ok pools →
  first_candidate sz pools i → pools !! i = Some p → pool_ptrs p ≠ None →
  ∃ r st',
    wcnss_prealloc_get env sz (mk_machine (Some pools) tr dm) =
      Done (r, st') ∧
    (tr ++ [KMempoolAlloc i (gfp_of env) (env_mempool_alloc env i)])
      `prefix_of` ktrace st'.
Proof.
  intros Heng Hok Hfirst Hp Ht.
  pose proof (lookup_lt_Some _ _ _ Hp) as Hi.
  destruct (first_stop env sz pools (length pools))
    as [Hall|(j & pj & Hj & Hreach & Hpj & Hc & Hstop)]; [lia| |].
  { eexists _, _. split; [by apply get_exhausted|]. simpl.
    rewrite (failed_allocs_first env sz pools i p) by done.
    rewrite (first_candidate_passes env sz pools i p (length pools)) by done.
    eexists. by rewrite <- app_assoc. }
  pose proof (first_candidate_stop sz pools i j pj Hfirst Hpj Hc) as Hij.
  destruct (decide (i = j)) as [->|Hne].
  - assert (pj = p) as -> by congruence.
    destruct Hstop as [Hnone|[_ Hm]]; [done|].
    destruct (pool_ptrs p) as [t|] eqn:Htp; [|done].
    pose proof (Forall_lookup_1 _ _ _ _ Hok Hp) as Hokp.
    assert (ktrace (at_insert env sz (mk_machine (Some pools) tr dm) pools j)
            = tr ++ [KMempoolAlloc j (gfp_of env) (env_mempool_alloc env j)])
      as Hat.
    { unfold at_insert. simpl. rewrite failed_allocs_none; [done|].
      intros k q Hk. apply Hfirst. lia. }
    destruct (get_served env sz pools tr dm j p t Heng Hreach Hp Hc Htp Hokp Hm)
      as [(k & Hk & Hget)|[(Hg & Hfull & Hget)|(Hg & Hfull & Hget)]];
      rewrite Hat in Hget; eexists _, _; (split; [exact Hget|]); simpl.
    + done.
    + by apply prefix_app_r.
    + rewrite <- app_assoc. by apply prefix_app_r.
  - assert (i < j)%nat as Hlt by lia.
    pose proof (first_candidate_passes env sz pools i p j Hfirst Hp Hlt Hreach)
      as Hmi.
    pose proof (failed_allocs_first env sz pools i p j Hfirst Hp Hlt) as Hfa.
    assert ((tr ++ [KMempoolAlloc i (gfp_of env) NULL])
              `prefix_of` (tr ++ failed_allocs env sz pools 0 j))
      as Hprefix.
    { rewrite Hfa. eexists. by rewrite <- app_assoc. }
    rewrite Hmi.
    destruct Hstop as [Hnone|[Hsome Hm]].
    + eexists _, _. split; [by eapply get_lost_table|]. done.
    + destruct (pool_ptrs pj) as [t|] eqn:Htj; [|done].
      pose proof (Forall_lookup_1 _ _ _ _ Hok Hpj) as Hokj.
      destruct (get_served env sz pools tr dm j pj t
                  Heng Hreach Hpj Hc Htj Hokj Hm)
        as [(k & Hk & Hget)|[(Hg & Hfull & Hget)|(Hg & Hfull & Hget)]];
        eexists _, _; (split; [exact Hget|]); unfold at_insert; simpl;
        (etrans; [exact Hprefix|]).
      * rewrite app_assoc. by apply prefix_app_r.
      * apply prefix_app_r. rewrite app_assoc. by apply prefix_app_r.
      * do 2 apply prefix_app_r. rewrite app_assoc. by apply prefix_app_r.
Qed.

(** ** A block that has just been recorded *)

Lemma only_slot_insert a (pools : list cnss_pool) i p p' t' k :
  untracked a pools → pools !! i = Some p →
  pool_ptrs p' = Some t' → t' !! k = Some a →
  (∀ k', t' !! k' = Some a → k' = k) →
  only_slot a (<[i:=p']> pools) i k.
Proof.
  intros Hun Hp Ht' Hk Honly.
  pose proof (lookup_lt_Some _ _ _ Hp) as Hi. split.
  - exists p', t'. by rewrite list_lookup_insert_eq.
  - intros j q tq kq Hq Htq Hkq.
    destruct (decide (j = i)) as [->|Hne].
    + rewrite list_lookup_insert_eq in Hq by done.
      injection Hq as <-. assert (tq = t') as -> by congruence.
      split; [done|]. by apply Honly.
    + rewrite list_lookup_insert_ne in Hq by done.
      destruct (Hun j q Hq). exists tq. split; [done|].
      apply list_elem_of_lookup. by exists kq.
Qed.

Lemma untracked_not_in a (pools : list cnss_pool) i p t :
  untracked a pools → pools !! i = Some p → pool_ptrs p = Some t → a ∉ t.
Proof. intros Hun Hp Ht Hin. apply (Hun i p Hp). by exists t. Qed.

Lemma get_success env sz pools tr dm i p t :
  engaged sz pools → get_reaches env sz pools i →
  pools !! i = Some p → candidate sz p = true →
  pool_ptrs p = Some t → table_ok p →
  env_mempool_alloc env i ≠ NULL →
  NULL ∈ t ∨ is_Some (env_krealloc env) →
  untracked (env_mempool_alloc env i) pools →
  ∃ p' k tr',
    wcnss_prealloc_get env sz (mk_machine (Some pools) tr dm) =
      Done (env_mempool_alloc env i,
            mk_machine (Some (<[i:=p']> pools)) tr' dm) ∧
    mp p' = mp p ∧ table_sized p' ∧
    only_slot (env_mempool_alloc env i) (<[i:=p']> pools) i k.
Proof.
  intros Heng Hreach Hp Hc Ht Hok Hm Hroom Hun.
  pose proof (untracked_not_in _ _ _ _ _ Hun Hp Ht) as Hnot.
  pose proof Hok as [[Hr Hl] Hlt]. rewrite Ht in Hl.
  destruct (get_served env sz pools tr dm i p t Heng Hreach Hp Hc Ht Hok Hm)
    as [(k & Hk & Hget)|[(Hg & Hfull & Hget)|(Hg & Hfull & Hget)]].
  - pose proof Hk as [(v & Hv & _) _].
    pose proof (lookup_lt_Some _ _ _ Hv) as Hklt.
    eexists _, k, _. split; [exact Hget|]. split; [done|]. split.
    + split; [done|]. simpl. by rewrite length_insert.
    + eapply only_slot_insert; [done|done|done| |].
      * by apply list_lookup_insert_eq.
      * intros k' Hk'.
        apply list_lookup_insert_Some in Hk' as [(-> & _ & _)|[_ Hk']];
          [done|].
        destruct Hnot. apply list_elem_of_lookup. by exists k'.
  - eexists _, (length t), _. split; [exact Hget|]. split; [done|]. split.
    + split; simpl; [lia|]. rewrite length_app. simpl. lia.
    + eapply only_slot_insert; [done|done|done| |].
      * by apply list_lookup_middle.
      * intros k' Hk'.
        apply lookup_app_Some in Hk' as [Hk'|[Hge Hk']].
        -- destruct Hnot. apply list_elem_of_lookup. by exists k'.
        -- apply list_lookup_singleton_Some in Hk' as [Hz _]. lia.
  - destruct Hroom as [Hnull|[g Hsome]]; [done|congruence].
Qed.

Lemma tables_present_before_insert (pools : list cnss_pool) i p' :
  tables_present_before pools i →
  tables_present_before (<[i:=p']> pools) i.
Proof.
  intros Hpres k q Hk Hq Hmp. rewrite list_lookup_insert_ne in Hq by lia.
  by apply (Hpres k q).
Qed.

Lemma first_fit_is_smallest sz pools i p :
  increasing pools → first_candidate sz pools i → pools !! i = Some p →
  ∀ j q, pools !! j = Some q → candidate sz q = true → size p <= size q.
Proof.
  intros Hinc Hfirst Hp j q Hq Hc.
  pose proof (first_candidate_stop sz pools i j q Hfirst Hq Hc) as Hij.
  destruct (decide (i = j)) as [->|Hne].
  - assert (q = p) as -> by congruence. lia.
  - apply (Hinc i j); [lia|done|done].
Qed.

Lemma first_candidate_reaches env sz pools i :
  first_candidate sz pools i → get_reaches env sz pools i.
Proof. intros [_ Hfirst] k q Hk Hq. left. by eapply Hfirst. Qed.

(** ** wcnss_check_pool_lists: the loops *)

Lemma check_slots_run nm t ps tr dm todo idx :
  (idx + todo ≤ length t)%nat →
  check_slots (Some t) nm todo idx (mk_machine ps tr dm) =
  Done (tt, mk_machine ps tr (dm ++ slot_reports nm t idx todo)).
Proof.
  induction todo as [|n IH] in idx, dm |- *; intros Hlen.
  - unfold slot_reports. simpl. by rewrite app_nil_r.
  - destruct (lookup_lt_is_Some_2 t idx) as [v Hv]; [lia|].
    simpl. rewrite Hv. unfold slot_reports. simpl. rewrite Hv.
    unfold kbind at 1.
    destruct (v =? NULL).
    + simpl. rewrite IH by lia. done.
    + unfold kbind at 1. simpl. rewrite IH by lia.
      unfold slot_reports. by rewrite <- !app_assoc.
Qed.

Lemma check_tier_safe p ps tr dm :
  audit_safe p →
  check_slots (pool_ptrs p) (name p) (loop_bound (table_capacity p)) 0
    (mk_machine ps tr dm) =
  Done (tt, mk_machine ps tr (dm ++ tier_reports p)).
Proof.
  intros [Hsized Hnone]. unfold tier_reports.
  destruct (pool_ptrs p) as [t|] eqn:Ht.
  - rewrite (table_sized_bound _ _ Hsized Ht).
    by apply check_slots_run.
  - rewrite Hnone by done. simpl. by rewrite app_nil_r.
Qed.

Lemma check_tier_null p ps tr dm :
  table_sized p → pool_ptrs p = None → 0 < table_capacity p →
  check_slots (pool_ptrs p) (name p) (loop_bound (table_capacity p)) 0
    (mk_machine ps tr dm) = Fault.
Proof.
  intros [Hr _] -> Hpos. unfold INT_MAX in Hr.
  rewrite loop_bound_in_range by lia.
  destruct (Z.to_nat (table_capacity p)) eqn:Hn; [lia|done].
Qed.

Lemma check_loop_run pools tr dm n i :
  (i + n = length pools)%nat → Forall audit_safe (drop i pools) →
  check_loop n i (mk_machine (Some pools) tr dm) =
  Done (tt, mk_machine (Some pools) tr (dm ++ leak_reports (drop i pools))).
Proof.
  induction n as [|n IH] in i, dm |- *; intros Hlen Hsafe.
  - rewrite drop_ge by lia. simpl. by rewrite app_nil_r.
  - destruct (lookup_lt_is_Some_2 pools i) as [p Hp]; [lia|].
    rewrite (drop_S _ _ _ Hp) in Hsafe |- *.
    apply Forall_cons in Hsafe as [Hsafep Hsafe].
    simpl. unfold kbind at 1. erewrite read_pool_eq; [|done..].
    unfold kbind at 1. rewrite (check_tier_safe _ _ _ _ Hsafep).
    rewrite IH; [|lia|done]. by rewrite <- app_assoc.
Qed.

Lemma check_loop_faults pools tr dm n i j p :
  (i + n = length pools)%nat → Forall table_sized pools →
  (i ≤ j)%nat → pools !! j = Some p →
  pool_ptrs p = None → 0 < table_capacity p →
  check_loop n i (mk_machine (Some pools) tr dm) = Fault.
Proof.
  intros Hlen Hsized Hij Hp Hnone Hpos.
  pose proof (lookup_lt_Some _ _ _ Hp) as Hj.
  induction n as [|n IH] in i, dm, Hlen, Hij |- *; [lia|].
  destruct (lookup_lt_is_Some_2 pools i) as [q Hq]; [lia|].
  pose proof (Forall_lookup_1 _ _ _ _ Hsized Hq) as Hsq.
  simpl. unfold kbind at 1. erewrite read_pool_eq; [|done..].
  unfold kbind at 1.
  destruct (decide (pool_ptrs q = None ∧ 0 < table_capacity q))
    as [[Hqn Hqp]|Hgood].
  { by rewrite check_tier_null. }
  rewrite check_tier_safe.
  - apply IH; [lia|].
    destruct (decide (i = j)) as [->|]; [|lia].
    assert (q = p) as -> by congruence. destruct Hgood. done.
  - split; [done|]. intros Hqn. destruct Hsq as [Hr _].
    destruct (decide (table_capacity q = 0)); [done|].
    destruct Hgood. split; [done|lia].
Qed.

Lemma check_eq pools tr dm :
  wcnss_check_pool_lists (mk_machine (Some pools) tr dm) =
  check_loop (length pools) 0
    (mk_machine (Some pools) tr (dm ++ [MsgEnterPoolCheck])).
Proof. done. Qed.

Lemma slot_reports_elem nm t idx todo v k :
  MsgNotFreed v nm k ∈ slot_reports nm t idx todo ↔
  (idx ≤ k < idx + todo)%nat ∧ t !! k = Some v ∧ v ≠ NULL.
Proof.
  unfold slot_reports. rewrite list_elem_of_In, in_flat_map. split.
  - intros (k' & Hk' & Hin). apply in_seq in Hk'.
    destruct (t !! k') as [w|] eqn:Hw; [|done].
    destruct (w =? NULL) eqn:Hnull; [done|]. apply Z.eqb_neq in Hnull.
    destruct Hin as [[= -> ->]|[[=]|[]]]. done.
  - intros (Hk & Hv & Hne). exists k. split; [apply in_seq; lia|].
    rewrite Hv. apply Z.eqb_neq in Hne. rewrite Hne. by left.
Qed.


Lemma leak_reports_complete (pools : list cnss_pool) i p t k v :
  pools !! i = Some p → pool_ptrs p = Some t → t !! k = Some v → v ≠ NULL →
  MsgNotFreed v (name p) k ∈ leak_reports pools.
Proof.
  intros Hp Ht Hk Hv. unfold leak_reports.
  rewrite list_elem_of_In, in_flat_map. exists p. split.
  - apply list_elem_of_In, list_elem_of_lookup. by exists i.
  - apply list_elem_of_In. unfold tier_reports. rewrite Ht.
    apply slot_reports_elem. split; [|done].
    apply lookup_lt_Some in Hk. lia.
Qed.


(** ** cnss_pool_init *)

Lemma kbind_read_middle {B} (k : cnss_pool → kfun B) done x rest tr dm :
  kbind (read_pool (length done)) k
        (mk_machine (Some (done ++ x :: rest)) tr dm) =
  k x (mk_machine (Some (done ++ x :: rest)) tr dm).
Proof.
  unfold kbind, read_pool. simpl. by rewrite list_lookup_middle.
Qed.

Lemma kbind_write_middle {B} (k : unit → kfun B) done x q rest tr dm :
  kbind (write_pool (length done) q) k
        (mk_machine (Some (done ++ x :: rest)) tr dm) =
  k tt (mk_machine (Some (done ++ q :: rest)) tr dm).
Proof.
  unfold kbind, write_pool. simpl.
  rewrite decide_True by (rewrite length_app; simpl; lia).
  rewrite insert_app_r_alt by lia. by rewrite Nat.sub_diag.
Qed.

Lemma init_loop_spec env rest done tr dm :
  ∃ tr' dm',
    init_loop env (length rest) (length done)
      (mk_machine (Some (done ++ rest)) tr dm) =
    Done (tt, mk_machine (Some (done ++ init_tiers env (length done) rest))
                tr' dm').
Proof.
  induction rest as [|p rest IH] in done, tr, dm |- *.
  { by eexists _, _. }
  assert (∀ q tr1 dm1, ∃ tr' dm',
            init_loop env (length rest) (S (length done))
              (mk_machine (Some (done ++ q :: rest)) tr1 dm1) =
            Done (tt, mk_machine
                        (Some (done ++ q ::
                                 init_tiers env (S (length done)) rest))
                        tr' dm')) as Hstep.
  { intros q tr1 dm1. specialize (IH (done ++ [q]) tr1 dm1).
    rewrite length_app, Nat.add_1_r, <- !app_assoc in IH. exact IH. }
  cbn [length init_loop init_tiers]. unfold init_tier.
  rewrite kbind_read_middle, kbind_call, kbind_write_middle.
  destruct (env_kmem_cache_create env (length done) =? NULL).
  { rewrite kbind_pr. apply Hstep. }
  rewrite kbind_call, kbind_write_middle.
  destruct (env_mempool_create env (length done) =? NULL).
  { rewrite kbind_pr, kbind_call, kbind_write_middle. apply Hstep. }
  rewrite kbind_write_middle, kbind_call, kbind_write_middle.
  cbn [min name size set_table_capacity set_mp set_cache set_pool_ptrs].
  destruct (env_kmalloc env (length done)) as [g|]; cbn [fmap option_fmap option_map].
  - rewrite kbind_kret, kbind_pr. apply Hstep.
  - rewrite kbind_assoc, !kbind_pr. apply Hstep.
Qed.

Lemma init_eq env pools :
  ∃ tr dm,
    cnss_pool_init env (boot pools) =
    Done (0, mk_machine (Some (init_tiers env 0 pools)) tr dm).
Proof.
  destruct (init_loop_spec env pools [] [] []) as (tr & dm & Hloop).
  exists tr, dm. unfold cnss_pool_init, boot, kbind. simpl in *.
  unfold cnss_prealloc_pool_size. by rewrite Hloop.
Qed.

Lemma init_tiers_lookup env k l j :
  init_tiers env k l !! j = init_tier env (k + j) <$> l !! j.
Proof.
  induction l as [|p l IH] in k, j |- *; [done|].
  destruct j as [|j]; simpl.
  - by rewrite Nat.add_0_r.
  - rewrite IH. by rewrite Nat.add_succ_r.
Qed.

Lemma kmalloc_block_length n g :
  0 <= n <= INT_MAX →
  Z.of_nat (length (kmalloc_block (table_bytes n) g)) = n.
Proof.
  intros Hn. unfold INT_MAX in Hn. unfold kmalloc_block.
  rewrite length_fmap, length_seq, slots_of_table_bytes by lia. lia.
Qed.

Lemma init_tier_sized env i p : static_row p → table_sized (init_tier env i p).
Proof.
  intros (Hnone & Hcap & Hmin). unfold init_tier.
  destruct (_ =? NULL).
  { split; simpl; [unfold INT_MAX; lia|by rewrite Hnone]. }
  destruct (_ =? NULL).
  { split; simpl; [unfold INT_MAX; lia|by rewrite Hnone]. }
  split; simpl; [lia|].
  destruct (env_kmalloc env i) as [g|]; [|done]. simpl.
  by apply kmalloc_block_length.
Qed.

Lemma init_tiers_sized env pools :
  Forall static_row pools → Forall table_sized (init_tiers env 0 pools).
Proof.
  intros Hrows. apply Forall_lookup. intros j q Hq.
  rewrite init_tiers_lookup in Hq.
  destruct (pools !! j) as [p|] eqn:Hp; [|done].
  injection Hq as <-. apply init_tier_sized.
  by eapply Forall_lookup_1.
Qed.

Lemma init_tier_no_table env i p :
  env_kmem_cache_create env i ≠ NULL → env_mempool_create env i ≠ NULL →
  env_kmalloc env i = None →
  pool_ptrs (init_tier env i p) = None ∧
  table_capacity (init_tier env i p) = min p ∧
  mp (init_tier env i p) = env_mempool_create env i.
Proof.
  intros Hc Hm Hk. unfold init_tier.
  apply Z.eqb_neq in Hc, Hm. rewrite Hc, Hm, Hk. done.
Qed.

(** ** What a request can do to the tiers *)

Lemma keeps_kret {A} (a : A) : keeps_pools (kret a).
Proof. by intros st a' st' [= <- <-]. Qed.

Lemma keeps_call e : keeps_pools (call e).
Proof. by intros st a st' [= <- <-]. Qed.

Lemma keeps_pr m : keeps_pools (pr m).
Proof. by intros st a st' [= <- <-]. Qed.

Lemma keeps_read i : keeps_pools (read_pool i).
Proof.
  intros st a st'. unfold read_pool.
  destruct (cnss_pools st ≫= _); [|done]. by intros [= <- <-].
Qed.

Lemma keeps_bind {A B} (c : kfun A) (k : A → kfun B) :
  keeps_pools c → (∀ a, keeps_pools (k a)) → keeps_pools (kbind c k).
Proof.
  intros Hc Hk st b st'. unfold kbind.
  destruct (c st) as [[a st1]|] eqn:Hcst; [|done].
  intros Hkst. rewrite (Hk _ _ _ _ Hkst). by eapply Hc.
Qed.

Lemma keeps_threshold : keeps_pools cnss_pool_alloc_threshold.
Proof. apply keeps_bind; [apply keeps_read|intros p; apply keeps_kret]. Qed.

Lemma evolves_refl pools tr dm :
  evolves pools (mk_machine (Some pools) tr dm).
Proof. exists pools. split; [done|]. intros j pj Hpj. by exists pj. Qed.

Lemma evolves_insert (pools : list cnss_pool) j pj p' tr dm :
  pools !! j = Some pj → mp p' = mp pj → pool_ptrs pj ≠ None →
  evolves pools (mk_machine (Some (<[j:=p']> pools)) tr dm).
Proof.
  intros Hpj Hmp Ht. eexists. split; [done|]. intros k q Hq.
  destruct (decide (k = j)) as [->|Hne].
  - assert (q = pj) as -> by congruence.
    exists p'. rewrite list_lookup_insert_eq by (by eapply lookup_lt_Some).
    done.
  - exists q. by rewrite list_lookup_insert_ne.
Qed.

Lemma evolves_trans pools pools1 tr dm st' :
  evolves pools (mk_machine (Some pools1) tr dm) → evolves pools1 st' →
  evolves pools st'.
Proof.
  intros (ps1 & [= <-] & H1) (pools2 & Hst' & H2).
  exists pools2. split; [done|]. intros j pj Hpj.
  destruct (H1 j pj Hpj) as (q & Hq & Hmq & Hnq).
  destruct (H2 j q Hq) as (q' & Hq' & Hmq' & Hnq').
  exists q'. split; [done|]. split; [congruence|]. auto.
Qed.

Lemma get_loop_frame env sz todo k pools tr dm m ret j st' :
  get_loop env sz todo k (mk_machine (Some pools) tr dm) =
    Done ((m, ret, j), st') →
  evolves pools st'.
Proof.
  induction todo as [|n IH] in k, tr, dm |- *; simpl.
  { intros [= <- <- <- <-]. apply evolves_refl. }
  unfold kbind at 1, read_pool. simpl.
  destruct (pools !! k) as [p|] eqn:Hp; [|done].
  destruct ((sz <=? size p) && negb (mp p =? NULL)); [|apply IH].
  destruct (pool_ptrs p) as [t|] eqn:Ht.
  - rewrite kbind_call.
    destruct (env_mempool_alloc env k =? NULL); [apply IH|].
    unfold kbind.
    destruct (wcnss_find_pool_table_slot _ _ _ _) as [[r st2]|] eqn:Hfind;
      [|done].
    intros [= <- <- <- <-].
    apply find_slot_frame in Hfind as (q & p' & tr2 & Hq & -> & _ & Hmp & _).
    assert (q = p) as -> by congruence.
    eapply evolves_insert; [done|done|]. by rewrite Ht.
  - rewrite kbind_pr. intros [= <- <- <- <-]. apply evolves_refl.
Qed.

Lemma get_frame env sz pools tr dm r st' :
  wcnss_prealloc_get env sz (mk_machine (Some pools) tr dm) = Done (r, st') →
  evolves pools st'.
Proof.
  unfold wcnss_prealloc_get. simpl. unfold kbind at 1.
  destruct (cnss_pool_alloc_threshold _) as [[thr st0]|] eqn:Hthr; [|done].
  assert (st0 = mk_machine (Some pools) tr dm) as ->.
  { revert Hthr. unfold cnss_pool_alloc_threshold, kbind, read_pool. simpl.
    destruct (pools !! 0%nat); [|done]. by intros [= <- <-]. }
  unfold kbind at 1.
  match goal with
  | |- match ?c with _ => _ end = _ → _ =>
      destruct c as [[[[m ret] j] st1]|] eqn:Hloop; [|done]
  end.
  intros Htail.
  assert (evolves pools st1) as Hst1.
  { destruct (thr <=? sz).
    - by eapply get_loop_frame.
    - injection Hloop as <- <- <- <-. apply evolves_refl. }
  assert (cnss_pools st' = cnss_pools st1) as Hsame.
  { revert Htail. apply keeps_bind.
    - destruct (ret <? 0); [|apply keeps_kret].
      apply keeps_bind; [apply keeps_read|intros _].
      apply keeps_bind; [apply keeps_call|intros _; apply keeps_kret].
    - intros mem. apply keeps_bind; [|intros _; apply keeps_kret].
      destruct (mem =? NULL); [|apply keeps_kret].
      apply keeps_bind; [apply keeps_threshold|intros thr2].
      destruct (thr2 <=? sz); [apply keeps_pr|apply keeps_kret]. }
  unfold evolves. by rewrite Hsame.
Qed.

Lemma put_loop_frame mem todo k pools tr dm r st' :
  put_loop mem todo k (mk_machine (Some pools) tr dm) = Done (r, st') →
  evolves pools st'.
Proof.
  induction todo as [|n IH] in k, pools, tr, dm |- *; simpl.
  { intros [= <- <-]. apply evolves_refl. }
  unfold kbind at 1, read_pool. simpl.
  destruct (pools !! k) as [p|] eqn:Hp; [|done].
  pose proof (lookup_lt_Some _ _ _ Hp) as Hk.
  destruct (mp p =? NULL); [apply IH|].
  destruct (pool_ptrs p) as [t|] eqn:Ht.
  - destruct (wcnss_free_pool_table_slot p mem) as [[ret t']|]; [|done].
    unfold kbind at 1, write_pool. simpl. rewrite decide_True by done.
    assert (evolves pools
              (mk_machine (Some (<[k:=set_pool_ptrs p t']> pools)) tr dm))
      as Hstep by (eapply evolves_insert; [done|done|by rewrite Ht]).
    destruct (0 <=? ret).
    + rewrite kbind_call. intros [= <- <-].
      eapply evolves_insert; [done|done|by rewrite Ht].
    + intros Hrest. apply IH in Hrest. by eapply evolves_trans.
  - rewrite kbind_pr. intros [= <- <-]. apply evolves_refl.
Qed.

Lemma put_frame mem pools tr dm r st' :
  wcnss_prealloc_put mem (mk_machine (Some pools) tr dm) = Done (r, st') →
  evolves pools st'.
Proof.
  unfold wcnss_prealloc_put. simpl.
  destruct (mem =? NULL).
  - intros [= <- <-]. apply evolves_refl.
  - apply put_loop_frame.
Qed.

Lemma lost_table_evolves i m pools st' :
  (∃ p, pools !! i = Some p ∧ mp p = m ∧ pool_ptrs p = None) →
  evolves pools st' → lost_table i m st'.
Proof.
  intros (p & Hp & Hmp & Hnone) (pools' & Hst' & Hev).
  destruct (Hev i p Hp) as (p' & Hp' & Hmp' & Hnone').
  exists pools', p'. split; [done|]. split; [done|].
  split; [congruence|auto].
Qed.

Lemma lost_table_serve i m r st st' :
  lost_table i m st → serve r st = Done st' → lost_table i m st'.
Proof.
  intros (pools & p & Hst & Hlost) Hserve.
  destruct st as [ps tr dm]. simpl in Hst. subst ps.
  apply (lost_table_evolves i m pools); [by exists p|].
  destruct r as [env sz|mem]; simpl in Hserve.
  - destruct (wcnss_prealloc_get _ _ _) as [[a st1]|] eqn:Hget; [|done].
    injection Hserve as <-. by eapply get_frame.
  - destruct (wcnss_prealloc_put _ _) as [[a st1]|] eqn:Hput; [|done].
    injection Hserve as <-. by eapply put_frame.
Qed.

Lemma lost_table_serve_all i m rs st st' :
  lost_table i m st → serve_all rs st = Done st' → lost_table i m st'.
Proof.
  induction rs as [|r rs IH] in st |- *; simpl.
  - by intros Hlost [= <-].
  - intros Hlost. destruct (serve r st) as [st1|] eqn:Hserve; [|done].
    apply IH. by eapply lost_table_serve.
Qed.

(** ** The invariant is kept

    [wcnss_prealloc_get] keeps [pool_inv] as long as the mempools hand out
    fresh blocks, [wcnss_prealloc_put] keeps it unconditionally. *)

Lemma on_loan_app tr es : on_loan (tr ++ es) = foldl loan_step (on_loan tr) es.
Proof. unfold on_loan. apply foldl_app. Qed.

Lemma loans_failed_allocs env sz pools l i n :
  foldl loan_step l (failed_allocs env sz pools i n) = l.
Proof.
  induction n as [|n IH] in i |- *; [done|].
  rewrite failed_allocs_S, foldl_app.
  assert (foldl loan_step l (failed_allocs env sz pools i 1) = l) as ->;
    [|apply IH].
  unfold failed_allocs. simpl. destruct (pools !! i) as [p|]; [|done].
  by destruct (candidate sz p).
Qed.

Lemma on_loan_failed_allocs env sz pools tr i n :
  on_loan (tr ++ failed_allocs env sz pools i n) = on_loan tr.
Proof. by rewrite on_loan_app, loans_failed_allocs. Qed.

Lemma on_loan_at_insert env sz pools tr dm j :
  env_mempool_alloc env j ≠ NULL →
  on_loan (ktrace (at_insert env sz (mk_machine (Some pools) tr dm) pools j)) =
  (j, env_mempool_alloc env j) :: on_loan tr.
Proof.
  intros Hm. unfold at_insert. simpl.
  rewrite app_assoc, on_loan_app, on_loan_failed_allocs. simpl.
  apply Z.eqb_neq in Hm. by rewrite Hm.
Qed.

Lemma filter_loans_fresh (l : list (nat * Z)) a :
  (∀ j, (j, a) ∉ l) → filter (λ x, x.2 ≠ a) l = l.
Proof.
  intros Hfresh. induction l as [|[j v] l IH]; [done|].
  rewrite filter_cons. simpl. destruct (decide (v ≠ a)) as [Hne|Heq].
  - f_equal. apply IH. intros j' Hin. apply (Hfresh j'). by right.
  - destruct (Hfresh j). apply dec_stable in Heq. subst v. by left.
Qed.

Lemma pool_inv_same_tables pools tr dm tr' dm' :
  pool_inv (mk_machine (Some pools) tr dm) → on_loan tr' = on_loan tr →
  pool_inv (mk_machine (Some pools) tr' dm').
Proof.
  intros (ps & [= <-] & Hsized & Hdist & Htracked) Hloan.
  exists pools. do 3 (split; [done|]).
  intros ps i p t v [= <-] Hp Ht Hv Hne. simpl. rewrite Hloan.
  by eapply (Htracked pools).
Qed.

Lemma pool_inv_drop_table pools tr dm tr' dm' j pj :
  pool_inv (mk_machine (Some pools) tr dm) → on_loan tr' = on_loan tr →
  pools !! j = Some pj →
  pool_inv (mk_machine (Some (<[j:=set_pool_ptrs pj None]> pools)) tr' dm').
Proof.
  intros (ps & [= <-] & Hsized & Hdist & Htracked) Hloan Hpj.
  pose proof (lookup_lt_Some _ _ _ Hpj) as Hj.
  assert (∀ i p t, <[j:=set_pool_ptrs pj None]> pools !! i = Some p →
                   pool_ptrs p = Some t → pools !! i = Some p) as Hold.
  { intros i p t Hp Ht. destruct (decide (i = j)) as [->|Hne].
    - rewrite list_lookup_insert_eq in Hp by done. by injection Hp as <-.
    - by rewrite list_lookup_insert_ne in Hp. }
  eexists. split; [done|]. split; [|split].
  - apply Forall_insert; [done|].
    destruct (Forall_lookup_1 _ _ _ _ Hsized Hpj) as [Hr _]. by split.
  - intros i p t k i' q u l v Hp Ht Hk Hq Hu Hl Hv.
    eapply Hdist; eauto.
  - intros ps i p t v [= <-] Hp Ht Hv Hne. simpl. rewrite Hloan.
    eapply (Htracked pools); eauto.
Qed.

Lemma pool_inv_record pools tr dm tr' dm' j pj t p' t' a k :
  pool_inv (mk_machine (Some pools) tr dm) →
  on_loan tr' = (j, a) :: on_loan tr →
  pools !! j = Some pj → pool_ptrs pj = Some t → untracked a pools →
  table_sized p' → pool_ptrs p' = Some t' →
  (∀ l v, t' !! l = Some v → v ≠ a → t !! l = Some v) →
  (∀ l, t' !! l = Some a → l = k) →
  pool_inv (mk_machine (Some (<[j:=p']> pools)) tr' dm').
Proof.
  intros (ps & [= <-] & Hsized & Hdist & Htracked) Hloan Hpj Ht Hun
         Hsized' Ht' Hrest Honly.
  pose proof (lookup_lt_Some _ _ _ Hpj) as Hj.
  assert (∀ i p u l v,
            <[j:=p']> pools !! i = Some p → pool_ptrs p = Some u →
            u !! l = Some v → v ≠ a →
            ∃ p0 u0, pools !! i = Some p0 ∧ pool_ptrs p0 = Some u0 ∧
                     u0 !! l = Some v) as Hold.
  { intros i p u l v Hp Hu Hl Hv. destruct (decide (i = j)) as [->|Hne].
    - rewrite list_lookup_insert_eq in Hp by done. injection Hp as <-.
      assert (u = t') as -> by congruence. exists pj, t. eauto.
    - rewrite list_lookup_insert_ne in Hp by done. exists p, u. eauto. }
  assert (∀ i p u l,
            <[j:=p']> pools !! i = Some p → pool_ptrs p = Some u →
            u !! l = Some a → i = j ∧ l = k) as Hnew.
  { intros i p u l Hp Hu Hl. destruct (decide (i = j)) as [->|Hne].
    - rewrite list_lookup_insert_eq in Hp by done. injection Hp as <-.
      assert (u = t') as -> by congruence. split; [done|]. by apply Honly.
    - rewrite list_lookup_insert_ne in Hp by done.
      destruct (Hun i p Hp). exists u. split; [done|].
      apply list_elem_of_lookup. by exists l. }
  eexists. split; [done|]. split; [|split].
  - by apply Forall_insert.
  - intros i p u l i' q u' l' v Hp Hu Hl Hq Hu' Hl' Hv.
    destruct (decide (v = a)) as [->|Hva].
    + destruct (Hnew _ _ _ _ Hp Hu Hl) as [-> ->].
      destruct (Hnew _ _ _ _ Hq Hu' Hl') as [-> ->]. done.
    + destruct (Hold _ _ _ _ _ Hp Hu Hl Hva) as (p0 & u0 & Hp0 & Hu0 & Hl0).
      destruct (Hold _ _ _ _ _ Hq Hu' Hl' Hva) as (q0 & w0 & Hq0 & Hw0 & Hm0).
      eapply Hdist; eauto.
  - intros ps i p u v [= <-] Hp Hu Hv Hne. simpl. rewrite Hloan.
    apply list_elem_of_lookup in Hv as [l Hl].
    destruct (decide (v = a)) as [->|Hva].
    + destruct (Hnew _ _ _ _ Hp Hu Hl) as [-> _]. by left.
    + right.
      destruct (Hold _ _ _ _ _ Hp Hu Hl Hva) as (p0 & u0 & Hp0 & Hu0 & Hl0).
      eapply (Htracked pools); eauto.
      apply list_elem_of_lookup. by exists l.
Qed.

Lemma pool_inv_clear pools tr dm j p t k a :
  pool_inv (mk_machine (Some pools) tr dm) →
  pools !! j = Some p → pool_ptrs p = Some t → t !! k = Some a → a ≠ NULL →
  pool_inv (mk_machine
              (Some (<[j:=set_pool_ptrs p (Some (<[k:=NULL]> t))]> pools))
              (tr ++ [KMempoolFree j a]) dm).
Proof.
  intros (ps & [= <-] & Hsized & Hdist & Htracked) Hp Ht Hk Ha.
  pose proof (lookup_lt_Some _ _ _ Hp) as Hj.
  set (pools' := <[j:=set_pool_ptrs p (Some (<[k:=NULL]> t))]> pools).
  assert (∀ i q u l v,
            pools' !! i = Some q → pool_ptrs q = Some u →
            u !! l = Some v → v ≠ NULL →
            (i, l) ≠ (j, k) ∧
            ∃ q0 u0, pools !! i = Some q0 ∧ pool_ptrs q0 = Some u0 ∧
                     u0 !! l = Some v) as Hold.
  { intros i q u l v Hq Hu Hl Hv. unfold pools' in Hq.
    destruct (decide (i = j)) as [->|Hne].
    - rewrite list_lookup_insert_eq in Hq by done. injection Hq as <-.
      simpl in Hu. injection Hu as <-.
      apply list_lookup_insert_Some in Hl as [(-> & <- & _)|[Hlk Hl]];
        [done|].
      split; [congruence|]. exists p, t. eauto.
    - rewrite list_lookup_insert_ne in Hq by done.
      split; [congruence|]. exists q, u. eauto. }
  eexists. split; [done|]. split; [|split].
  - by apply table_sized_after_store.
  - intros i q u l i' q' u' l' v Hq Hu Hl Hq' Hu' Hl' Hv.
    destruct (Hold _ _ _ _ _ Hq Hu Hl Hv) as (_ & q0 & u0 & Hq0 & Hu0 & Hl0).
    destruct (Hold _ _ _ _ _ Hq' Hu' Hl' Hv)
      as (_ & q1 & u1 & Hq1 & Hu1 & Hl1).
    eapply Hdist; eauto.
  - intros ps i q u v [= <-] Hq Hu Hv Hne. simpl.
    apply list_elem_of_lookup in Hv as [l Hl].
    destruct (Hold _ _ _ _ _ Hq Hu Hl Hne) as (Hpos & q0 & u0 & Hq0 & Hu0 & Hl0).
    rewrite on_loan_app. simpl. apply list_elem_of_filter. split.
    + simpl. intros ->.
      destruct (Hdist _ _ _ _ _ _ _ _ _ Hq0 Hu0 Hl0 Hp Ht Hk Hne) as [-> ->].
      done.
    + eapply (Htracked pools); eauto.
      apply list_elem_of_lookup. by exists l.
Qed.

Lemma untracked_fresh env st pools i :
  cnss_pools st = Some pools → tracked_on_loan st → hands_out_fresh env st →
  env_mempool_alloc env i ≠ NULL →
  untracked (env_mempool_alloc env i) pools.
Proof.
  intros Hst Hinv Hfresh Hm j p Hp (t & Ht & Hin).
  apply (Hfresh i j Hm). by eapply Hinv.
Qed.

Lemma get_keeps_inv env sz st r st' :
  pool_inv st →
  (∀ pools, cnss_pools st = Some pools → Forall table_ok pools) →
  hands_out_fresh env st →
  wcnss_prealloc_get env sz st = Done (r, st') → pool_inv st'.
Proof.
  intros Hinv Hok Hfresh Hget. destruct st as [ps tr dm].
  pose proof Hinv as (pools & Hps & Hsized & Hdist & Htracked).
  simpl in Hps. subst ps. specialize (Hok pools eq_refl).
  destruct (pools !! 0%nat) as [p0|] eqn:Hp0.
  2:{ destruct pools; [|done]. by rewrite get_faults_without_tiers in Hget. }
  destruct (Z_lt_le_dec sz (size p0)) as [Hlt|Hle].
  { rewrite (get_below _ _ _ _ _ p0) in Hget by done.
    by injection Hget as <- <-. }
  assert (engaged sz pools) as Heng by (by exists p0).
  destruct (first_stop env sz pools (length pools))
    as [Hall|(j & pj & Hj & Hreach & Hpj & Hc & Hstop)]; [lia| |].
  { rewrite get_exhausted in Hget by done. injection Hget as <- <-.
    eapply pool_inv_same_tables; [done|]. apply on_loan_failed_allocs. }
  destruct Hstop as [Hnone|[Hsome Hm]].
  { rewrite (get_lost_table env sz pools tr dm j pj) in Hget by done.
    injection Hget as <- <-.
    eapply pool_inv_same_tables; [done|]. apply on_loan_failed_allocs. }
  destruct (pool_ptrs pj) as [t|] eqn:Ht; [|done].
  pose proof (Forall_lookup_1 _ _ _ _ Hok Hpj) as Hokj.
  pose proof Hokj as [[Hr Hl] Hlt]. rewrite Ht in Hl.
  pose proof (untracked_fresh env (mk_machine (Some pools) tr dm) pools j
                eq_refl Htracked Hfresh Hm) as Hun.
  pose proof (untracked_not_in _ _ _ _ _ Hun Hpj Ht) as Hnot.
  pose proof (on_loan_at_insert env sz pools tr dm j Hm) as Hloan.
  destruct (get_served env sz pools tr dm j pj t Heng Hreach Hpj Hc Ht Hokj Hm)
    as [(k & Hk & Hres)|[(Hg & Hfull & Hres)|(Hg & Hfull & Hres)]];
    rewrite Hres in Hget; injection Hget as <- <-.
  - eapply (pool_inv_record pools tr dm _ _ j pj t _ _ _ k);
      [done|exact Hloan|done|done|done| |done| |].
    + split; [done|]. simpl. by rewrite length_insert.
    + intros l v Hlv Hv.
      by apply list_lookup_insert_Some in Hlv as [(_ & ? & _)|[_ ?]].
    + intros l Hlv.
      apply list_lookup_insert_Some in Hlv as [(-> & _ & _)|[_ Hlv]]; [done|].
      destruct Hnot. apply list_elem_of_lookup. by exists l.
  - eapply (pool_inv_record pools tr dm _ _ j pj t _ _ _ (length t));
      [done| |done|done|done| |done| |].
    + by rewrite on_loan_app.
    + split; simpl; [lia|]. rewrite length_app. simpl. lia.
    + intros l v Hlv Hv.
      apply lookup_app_Some in Hlv as [Hlv|[_ Hlv]]; [done|].
      by apply list_lookup_singleton_Some in Hlv as [_ ?].
    + intros l Hlv.
      apply lookup_app_Some in Hlv as [Hlv|[Hge Hlv]].
      * destruct Hnot. apply list_elem_of_lookup. by exists l.
      * apply list_lookup_singleton_Some in Hlv as [Hz _]. lia.
  - eapply pool_inv_drop_table; [done| |done].
    unfold at_insert in Hloan. simpl in Hloan.
    rewrite (on_loan_app _ [KMempoolFree _ _]), (on_loan_app _ [KKrealloc _ _]).
    rewrite Hloan. simpl.
    rewrite filter_cons. simpl. rewrite decide_False by (by intros ?).
    apply filter_loans_fresh. intros j'. by apply Hfresh.
Qed.

Lemma put_loop_outcomes a pools tr dm todo k :
  Forall table_sized pools → (k + todo = length pools)%nat →
  (∃ dm', put_loop a todo k (mk_machine (Some pools) tr dm) =
          Done (0, mk_machine (Some pools) tr dm')) ∨
  (∃ j p t idx,
     pools !! j = Some p ∧ pool_ptrs p = Some t ∧ t !! idx = Some a ∧
     put_loop a todo k (mk_machine (Some pools) tr dm) =
     Done (1, mk_machine
                (Some (<[j:=set_pool_ptrs p (Some (<[idx:=NULL]> t))]> pools))
                (tr ++ [KMempoolFree j a]) dm)).
Proof.
  intros Hsized. induction todo as [|n IH] in k |- *; intros Hlen.
  { left. by exists dm. }
  destruct (lookup_lt_is_Some_2 pools k) as [q Hq]; [lia|].
  pose proof (Forall_lookup_1 _ _ _ _ Hsized Hq) as Hsq.
  destruct (decide (mp q = NULL)) as [Hmq|Hmq].
  { rewrite (put_loop_pass _ _ _ _ _ _ q); [apply IH; lia|done|done|by left]. }
  destruct (pool_ptrs q) as [t|] eqn:Ht.
  - destruct (scan_whole_table (Z.eqb a) t) as [(idx & Hidx & _)|[Hno _]].
    + right. exists k, q, t, idx. split; [done|]. split; [done|]. split.
      * destruct Hidx as [(v & Hv & Heq) _]. apply Z.eqb_eq in Heq. by subst v.
      * by apply put_loop_found.
    + rewrite (put_loop_pass _ _ _ _ _ _ q); [apply IH; lia|done|done|].
      right. exists t. split; [done|]. by apply no_hit_eqb.
  - left. simpl. rewrite (kbind_read _ _ _ _ _ _ Hq).
    apply Z.eqb_neq in Hmq. rewrite Hmq, Ht. by eexists.
Qed.

Lemma put_keeps_inv a st r st' :
  pool_inv st → wcnss_prealloc_put a st = Done (r, st') → pool_inv st'.
Proof.
  intros Hinv Hput. destruct st as [ps tr dm].
  pose proof Hinv as (pools & Hps & Hsized & _). simpl in Hps. subst ps.
  destruct (decide (a = NULL)) as [->|Ha].
  { injection Hput as <- <-. done. }
  rewrite put_eq, Nat.sub_0_r in Hput by done.
  destruct (put_loop_outcomes a pools tr dm (length pools) 0 Hsized)
    as [[dm' Hres]|(j & p & t & idx & Hp & Ht & Hidx & Hres)]; [lia| |];
    rewrite Hres in Hput; injection Hput as <- <-.
  - by eapply pool_inv_same_tables.
  - by apply pool_inv_clear.
Qed.

Lemma init_establishes_inv env pools :
  Forall static_row pools →
  (∀ i g k, env_kmalloc env i = Some g → g k = NULL) →
  ∃ st, cnss_pool_init env (boot pools) = Done (0, st) ∧ pool_inv st.
Proof.
  intros Hrows Hzero.
  destruct (init_eq env pools) as (tr & dm & Hinit).
  eexists. split; [exact Hinit|].
  assert (∀ i p t l v, init_tiers env 0 pools !! i = Some p →
                       pool_ptrs p = Some t → t !! l = Some v → v = NULL)
    as Hempty.
  { intros i p t l v Hp Ht Hl. rewrite init_tiers_lookup in Hp.
    destruct (pools !! i) as [p0|] eqn:Hp0; [|done]. injection Hp as <-.
    destruct (Forall_lookup_1 _ _ _ _ Hrows Hp0) as (Hnone & _).
    revert Ht. unfold init_tier.
    destruct (_ =? NULL); [simpl; congruence|].
    destruct (_ =? NULL); [simpl; congruence|]. simpl.
    destruct (env_kmalloc env i) as [g|] eqn:Hg; [|done].
    intros [= <-]. unfold kmalloc_block in Hl.
    apply list_lookup_fmap_Some in Hl as (n & -> & _). by eapply Hzero. }
  eexists. split; [done|]. split; [by apply init_tiers_sized|]. split.
  - intros i p t k j q u l v Hp Ht Hk _ _ _ Hv.
    destruct Hv. by eapply Hempty.
  - intros ps i p t v [= <-] Hp Ht Hv Hne.
    apply list_elem_of_lookup in Hv as [l Hl].
    destruct Hne. by eapply Hempty.
Qed.

(** * The claims *)

(** C8.  A request strictly smaller than every tier's block size engages
    no tier: [wcnss_prealloc_get] returns [NULL] and the state is the one it
    started from, so no mempool was called (the trace is unchanged) and no
    tracking table was modified. *)
Theorem get_below_threshold env sz st pools :
  cnss_pools st = Some pools → pools ≠ [] →
  (∀ p, p ∈ pools → sz < size p) →
  wcnss_prealloc_get env sz st = Done (NULL, st).
Proof.
  intros Hst Hne Hsmall. destruct st as [ps tr dm]. simpl in Hst. subst ps.
  destruct pools as [|p0 pools]; [done|].
  eapply get_below; [done|]. apply Hsmall. by left.
Qed.

Lemma get_below_threshold_witness :
  wcnss_prealloc_get (kernel_says the_8k_gives None) 8191 st_held =
  Done (NULL, st_held).
Proof.
  apply (get_below_threshold _ 8191 st_held
           (tiersA (Some [0; 0]) (Some [20480; 0]))).
  - reflexivity.
  - discriminate.
  - intros p Hp. apply list_elem_of_In in Hp. simpl in Hp.
    destruct Hp as [<-|[<-|[]]]; simpl; lia.
Defined.

(** C1, as stated, fails: the 8k tier is the first tier large enough for
    8192 bytes and has its mempool, its mempool gives nothing, and yet
    [wcnss_prealloc_get] calls the mempool of the 16k tier and returns the
    block it gives. *)
Lemma get_overflows_to_16k :
  engaged 8192 (tiersA (Some [0; 0]) (Some [0; 0])) ∧
  first_candidate 8192 (tiersA (Some [0; 0]) (Some [0; 0])) 0 ∧
  env_mempool_alloc (kernel_says only_16k_gives None) 0 = NULL ∧
  wcnss_prealloc_get (kernel_says only_16k_gives None) 8192 st_ready =
  Done (20480,
        mk_machine (Some (tiersA (Some [0; 0]) (Some [20480; 0])))
          [KMempoolAlloc 0 GFP_ZERO_KERNEL NULL;
           KMempoolAlloc 1 GFP_ZERO_KERNEL 20480] []).
Proof.
  split; [|split; [|split; reflexivity]].
  - exists (tier8k (Some [0; 0])). split; [reflexivity|simpl; lia].
  - split; [eexists; split; reflexivity|]. intros k q Hk. lia.
Qed.

Lemma get_reaches_after_first env sz (pools : list cnss_pool) i pi j :
  pools !! i = Some pi →
  (∀ k q, (k < i)%nat → pools !! k = Some q → candidate sz q = false) →
  pool_ptrs pi ≠ None → env_mempool_alloc env i = NULL →
  (∀ k q, (i < k < j)%nat → pools !! k = Some q → get_passes env sz k q) →
  get_reaches env sz pools j.
Proof.
  intros Hpi Hfirst Hti Hmi Hbetween k q Hk Hq.
  destruct (Nat.lt_trichotomy k i) as [Hlt|[->|Hgt]].
  - left. by eapply Hfirst.
  - assert (q = pi) as -> by congruence. by right.
  - apply Hbetween; [lia|done].
Qed.

(** C1 (amended).  Let the request reach the threshold, let every table
    have its capacity, let tier [i] be the first tier whose block size is
    at least the request and whose mempool is present, and let its mempool
    give nothing.  Then [wcnss_prealloc_get] goes on to the larger tiers:
    - if tier [j > i] is the next candidate whose mempool gives a block
      (the candidates in between have their tables and give nothing), the
      mempool of tier [j] is called and its block is returned, recorded in
      the table of tier [j], unless the table is full and cannot grow;
    - [NULL] is returned with all tables unchanged when every later
      candidate has its table and gives nothing, after one call to the
      mempool of each candidate. *)
Theorem get_goes_on_to_larger_tiers env sz st pools i pi :
  cnss_pools st = Some pools → engaged sz pools → Forall table_ok pools →
  pools !! i = Some pi → candidate sz pi = true →
  (∀ k q, (k < i)%nat → pools !! k = Some q → candidate sz q = false) →
  pool_ptrs pi ≠ None → env_mempool_alloc env i = NULL →
  (∀ j pj,
     (i < j)%nat → pools !! j = Some pj → candidate sz pj = true →
     (∀ k q, (i < k < j)%nat → pools !! k = Some q → get_passes env sz k q) →
     pool_ptrs pj ≠ None → env_mempool_alloc env j ≠ NULL →
     ∃ r st',
       wcnss_prealloc_get env sz st = Done (r, st') ∧
       ktrace (at_insert env sz st pools j) `prefix_of` ktrace st' ∧
       ((r = env_mempool_alloc env j ∧
         ∃ pools' p', cnss_pools st' = Some pools' ∧
                      pools' !! j = Some p' ∧ recorded r p') ∨
        (r = NULL ∧ env_krealloc env = None ∧
         ∃ t, pool_ptrs pj = Some t ∧ NULL ∉ t))) ∧
  ((∀ k q, (i < k)%nat → pools !! k = Some q → get_passes env sz k q) →
   wcnss_prealloc_get env sz st =
   Done (NULL,
         mk_machine (Some pools)
           (ktrace st ++ failed_allocs env sz pools 0 (length pools))
           (dmesg st ++ [MsgNotAvailable sz (gfp_of env)]))).
Proof.
  intros Hst Heng Hok Hpi Hci Hfirst Hti Hmi.
  destruct st as [ps tr dm]. simpl in Hst. subst ps. split.
  - intros j pj Hij Hpj Hcj Hbetween Htj Hmj.
    pose proof (get_reaches_after_first env sz pools i pi j
                  Hpi Hfirst Hti Hmi Hbetween) as Hreach.
    destruct (pool_ptrs pj) as [t|] eqn:Ht; [|done].
    pose proof (Forall_lookup_1 _ _ _ _ Hok Hpj) as Hokj.
    pose proof (lookup_lt_Some _ _ _ Hpj) as Hj.
    destruct (get_served env sz pools tr dm j pj t
                Heng Hreach Hpj Hcj Ht Hokj Hmj)
      as [(k & Hk & Hget)|[(Hg & Hfull & Hget)|(Hg & Hfull & Hget)]];
      eexists _, _; (split; [exact Hget|]); simpl.
    + split; [done|]. left. split; [done|].
      eexists _, _. split; [done|].
      split; [by apply list_lookup_insert_eq|].
      eexists. split; [done|].
      destruct Hk as [(v & Hv & _) _].
      apply list_elem_of_lookup. exists k.
      apply list_lookup_insert_eq. by eapply lookup_lt_Some.
    + split; [by apply prefix_app_r|]. left. split; [done|].
      eexists _, _. split; [done|].
      split; [by apply list_lookup_insert_eq|].
      eexists. split; [done|]. apply elem_of_app. right. by left.
    + split; [rewrite <- app_assoc; by apply prefix_app_r|].
      right. split; [done|]. split; [done|]. by exists t.
  - intros Hlater. apply get_exhausted; [done|].
    eapply get_reaches_after_first; [done..|].
    intros k q Hk. apply Hlater. lia.
Qed.

Lemma get_goes_on_to_larger_tiers_witness :
  let env := kernel_says only_16k_gives None in
  let pools := tiersA (Some [0; 0]) (Some [0; 0]) in
  (∀ j pj,
     (0 < j)%nat → pools !! j = Some pj → candidate 8192 pj = true →
     (∀ k q, (0 < k < j)%nat → pools !! k = Some q →
             get_passes env 8192 k q) →
     pool_ptrs pj ≠ None → env_mempool_alloc env j ≠ NULL →
     ∃ r st',
       wcnss_prealloc_get env 8192 st_ready = Done (r, st') ∧
       ktrace (at_insert env 8192 st_ready pools j) `prefix_of` ktrace st' ∧
       ((r = env_mempool_alloc env j ∧
         ∃ pools' p', cnss_pools st' = Some pools' ∧
                      pools' !! j = Some p' ∧ recorded r p') ∨
        (r = NULL ∧ env_krealloc env = None ∧
         ∃ t, pool_ptrs pj = Some t ∧ NULL ∉ t))) ∧
  ((∀ k q, (0 < k)%nat → pools !! k = Some q → get_passes env 8192 k q) →
   wcnss_prealloc_get env 8192 st_ready =
   Done (NULL,
         mk_machine (Some pools)
           (ktrace st_ready ++ failed_allocs env 8192 pools 0 (length pools))
           (dmesg st_ready ++ [MsgNotAvailable 8192 (gfp_of env)]))).
Proof.
  apply (get_goes_on_to_larger_tiers
           (kernel_says only_16k_gives None) 8192 st_ready
           (tiersA (Some [0; 0]) (Some [0; 0])) 0 (tier8k (Some [0; 0]))).
  - reflexivity.
  - exists (tier8k (Some [0; 0])). split; [reflexivity|simpl; lia].
  - solve_tables_ok.
  - reflexivity.
  - reflexivity.
  - intros k q Hk. lia.
  - discriminate.
  - reflexivity.
Defined.

(** C2.  Let the loop of [wcnss_prealloc_get] arrive at tier [i], let the
    mempool of tier [i] give a block, and let
    [wcnss_find_pool_table_slot] return a negative value for it.  Then the
    last kernel call of [wcnss_prealloc_get] is [mempool_free] of that block
    on the mempool of tier [i], and the function returns [NULL]: the block
    is not handed out. *)
Theorem get_rolls_back env sz st pools i p ret st2 :
  cnss_pools st = Some pools → engaged sz pools →
  get_reaches env sz pools i →
  pools !! i = Some p → candidate sz p = true → pool_ptrs p ≠ None →
  env_mempool_alloc env i ≠ NULL →
  wcnss_find_pool_table_slot env i (env_mempool_alloc env i)
    (at_insert env sz st pools i) = Done (ret, st2) →
  ret < 0 →
  ∃ st',
    wcnss_prealloc_get env sz st = Done (NULL, st') ∧
    ktrace st' = ktrace st2 ++ [KMempoolFree i (env_mempool_alloc env i)] ∧
    cnss_pools st' = cnss_pools st2.
Proof.
  intros Hst (p0 & Hp0 & Hsz) Hreach Hp Hc Ht Hm Hfind Hret.
  destruct st as [ps tr dm]. simpl in Hst. subst ps.
  pose proof (get_loop_reaches_block env sz pools tr dm i p
                Hp Hc Ht Hm Hreach) as Hloop.
  rewrite Hfind in Hloop.
  apply find_slot_frame in Hfind
    as (q & p' & tr2 & Hq & -> & Hsize & _ & _ & _ & _).
  assert (q = p) as -> by congruence.
  destruct (insert_keeps_threshold pools i p p' p0) as (p1 & Hp1 & Hsize1);
    [done..|].
  eexists. split.
  { eapply get_rollback; [done|done|done|exact Hloop|done|done|].
    apply list_lookup_insert_eq. by eapply lookup_lt_Some. }
  split; reflexivity.
Qed.

Lemma get_rolls_back_witness :
  ∃ st',
    wcnss_prealloc_get (kernel_says the_8k_gives None) 8192 st_full8k =
      Done (NULL, st') ∧
    ktrace st' =
      ktrace (mk_machine (Some (tiersA None (Some [0; 0])))
                [KMempoolAlloc 0 GFP_ZERO_KERNEL 4096;
                 KMempoolAlloc 0 GFP_ZERO_KERNEL 12288;
                 KMempoolAlloc 0 GFP_ZERO_KERNEL 28672;
                 KKrealloc 0 24] [])
      ++ [KMempoolFree 0 (env_mempool_alloc
                            (kernel_says the_8k_gives None) 0)] ∧
    cnss_pools st' =
      cnss_pools (mk_machine (Some (tiersA None (Some [0; 0])))
                    [KMempoolAlloc 0 GFP_ZERO_KERNEL 4096;
                     KMempoolAlloc 0 GFP_ZERO_KERNEL 12288;
                     KMempoolAlloc 0 GFP_ZERO_KERNEL 28672;
                     KKrealloc 0 24] []).
Proof.
  apply (get_rolls_back (kernel_says the_8k_gives None) 8192 st_full8k
           (tiersA (Some [4096; 12288]) (Some [0; 0])) 0
           (tier8k (Some [4096; 12288])) (-1)).
  - reflexivity.
  - exists (tier8k (Some [4096; 12288])). split; [reflexivity|simpl; lia].
  - intros k q Hk. lia.
  - reflexivity.
  - reflexivity.
  - discriminate.
  - simpl. unfold NULL. lia.
  - reflexivity.
  - lia.
Defined.

(** C3.  [cnss_pool_init] takes the tracking tables from [kmalloc] and
    never clears them, while [wcnss_find_pool_table_slot] and
    [wcnss_free_pool_table_slot] read every non-null word of a table as a
    recorded address.  With table memory that still holds the word 20480
    in slot 0, the two tiers of [profileA] come out of [cnss_pool_init]
    with 20480 in both tables although nothing is on loan.  A request of
    10000 bytes is then served by the 16k tier with the block at 20480:
    the address was in the tables of both tiers before the call, and after
    the call it is recorded in the 8k tier and twice in the 16k tier.  So
    the returned address is neither new to the tables nor recorded in
    exactly one tier. *)
Theorem get_after_uncleared_init :
  ∃ st0 st1,
    cnss_pool_init kernel_with_stale_tables (boot profileA) = Done (0, st0) ∧
    on_loan (ktrace st0) = [] ∧
    cnss_pools st0 = Some (tiersA (Some [20480; 0]) (Some [20480; 0])) ∧
    recorded 20480 (tier8k (Some [20480; 0])) ∧
    recorded 20480 (tier16k (Some [20480; 0])) ∧
    wcnss_prealloc_get kernel_with_stale_tables 10000 st0 =
      Done (20480, st1) ∧
    cnss_pools st1 = Some (tiersA (Some [20480; 0]) (Some [20480; 20480])) ∧
    recorded 20480 (tier16k (Some [20480; 20480])) ∧
    ¬ (∀ j q, tiersA (Some [20480; 0]) (Some [20480; 20480]) !! j = Some q →
              recorded 20480 q → j = 1%nat).
Proof.
  eexists _, _. split; [vm_compute; reflexivity|].
  split; [vm_compute; reflexivity|]. split; [vm_compute; reflexivity|].
  assert (∀ t1, recorded 20480 (tier8k (Some [20480; t1]))) as H8.
  { intros t1. eexists. split; [reflexivity|]. by left. }
  assert (∀ t1, recorded 20480 (tier16k (Some [20480; t1]))) as H16.
  { intros t1. eexists. split; [reflexivity|]. by left. }
  split; [apply H8|]. split; [apply H16|].
  split; [vm_compute; reflexivity|]. split; [vm_compute; reflexivity|].
  split; [apply H16|].
  intros Honly. by specialize (Honly 0%nat _ eq_refl (H8 0)).
Qed.

(** If the tables are as the data model has them, the acquire keeps its
    promise.  Let every table have its capacity and hold only blocks on
    loan, and let the mempools never hand out a block that is on loan (the
    invariant is kept by the driver, see [get_keeps_inv], [put_keeps_inv]
    and [init_establishes_inv]).  If [wcnss_prealloc_get] returns a
    non-null address, then afterwards the address is recorded in the table
    of exactly one tier, whose block size is at least the request, and
    before the call it was in no table. *)
Theorem get_records_block env sz st pools a st' :
  cnss_pools st = Some pools → Forall table_ok pools →
  tracked_on_loan st → hands_out_fresh env st →
  wcnss_prealloc_get env sz st = Done (a, st') → a ≠ NULL →
  ∃ pools' j p',
    cnss_pools st' = Some pools' ∧
    pools' !! j = Some p' ∧ recorded a p' ∧ sz <= size p' ∧
    (∀ j' q, pools' !! j' = Some q → recorded a q → j' = j) ∧
    untracked a pools.
Proof.
  intros Hst Hok Hinv Hfresh Hget Ha.
  destruct st as [ps tr dm]. simpl in Hst. subst ps.
  destruct (pools !! 0%nat) as [p0|] eqn:Hp0.
  2:{ destruct pools; [|done]. by rewrite get_faults_without_tiers in Hget. }
  destruct (Z_lt_le_dec sz (size p0)) as [Hlt|Hle].
  { rewrite (get_below _ _ _ _ _ p0) in Hget by done. congruence. }
  assert (engaged sz pools) as Heng by (by exists p0).
  destruct (get_cases env sz pools tr dm Heng Hok)
    as [[st1 Hnull]|(j & pj & t & p' & tr' & Hreach & Hpj & Hc & Ht & Hm &
                     Hres & Hsize & _ & _ & Hshape)].
  { rewrite Hnull in Hget. congruence. }
  rewrite Hres in Hget. injection Hget as <- <-.
  pose proof (lookup_lt_Some _ _ _ Hpj) as Hj.
  assert (untracked (env_mempool_alloc env j) pools) as Hun
    by (by apply (untracked_fresh env (mk_machine (Some pools) tr dm))).
  assert (recorded (env_mempool_alloc env j) p') as Hrec.
  { destruct Hshape as [(k & [(v & Hv & _) _] & ->)|[_ ->]].
    - eexists. split; [done|]. apply list_elem_of_lookup. exists k.
      apply list_lookup_insert_eq. by eapply lookup_lt_Some.
    - eexists. split; [done|]. apply elem_of_app. right. by left. }
  exists (<[j:=p']> pools), j, p'. split; [done|].
  split; [by apply list_lookup_insert_eq|]. split; [done|].
  split.
  { rewrite Hsize. unfold candidate in Hc.
    apply andb_true_iff in Hc as [Hc _]. by apply Z.leb_le. }
  split; [|done].
  intros j' q Hq Hrq. destruct (decide (j' = j)) as [|Hne]; [done|].
  rewrite list_lookup_insert_ne in Hq by done.
  destruct (Hun _ _ Hq Hrq).
Qed.

Lemma tracked_on_loan_empty_tables pools tr dm :
  (∀ i p t v, pools !! i = Some p → pool_ptrs p = Some t → v ∈ t →
              v = NULL) →
  tracked_on_loan (mk_machine (Some pools) tr dm).
Proof.
  intros Hempty ps i p t v [= <-] Hp Ht Hv Hne.
  destruct Hne. by eapply Hempty.
Qed.

Lemma tiersA_empty i p t v :
  tiersA (Some [0; 0]) (Some [0; 0]) !! i = Some p →
  pool_ptrs p = Some t → v ∈ t → v = NULL.
Proof.
  intros Hp Ht Hv.
  destruct i as [|[|i]]; simpl in Hp; try discriminate;
    injection Hp as <-; simpl in Ht; injection Ht as <-;
    apply list_elem_of_In in Hv; simpl in Hv;
    destruct Hv as [<-|[<-|[]]]; reflexivity.
Qed.

Lemma get_records_block_witness :
  ∃ pools' j p',
    cnss_pools
      (mk_machine (Some (tiersA (Some [0; 0]) (Some [20480; 0])))
         [KMempoolAlloc 1 GFP_ZERO_KERNEL 20480] []) = Some pools' ∧
    pools' !! j = Some p' ∧ recorded 20480 p' ∧ 10000 <= size p' ∧
    (∀ j' q, pools' !! j' = Some q → recorded 20480 q → j' = j) ∧
    untracked 20480 (tiersA (Some [0; 0]) (Some [0; 0])).
Proof.
  apply (get_records_block (kernel_says only_16k_gives None) 10000 st_ready).
  - reflexivity.
  - solve_tables_ok.
  - apply tracked_on_loan_empty_tables, tiersA_empty.
  - intros i j Hm Hin. simpl in Hin. by apply elem_of_nil in Hin.
  - reflexivity.
  - unfold NULL. lia.
Defined.

(** C4 (amended).  Let every table have its capacity, let the non-null
    address [a] sit in exactly one slot, slot [k] of tier [j], let that
    tier have its mempool, and let no tier before [j] that has a mempool
    have lost its table.  Then the first
    [wcnss_prealloc_put a] returns 1, clears that slot, hands the block to
    the mempool of tier [j] and leaves [a] in no table; the second returns 0
    and leaves the tiers and the trace as they were. *)
Theorem put_once_then_fails a st pools j k p :
  cnss_pools st = Some pools → Forall table_sized pools → a ≠ NULL →
  only_slot a pools j k → pools !! j = Some p → mp p ≠ NULL →
  tables_present_before pools j →
  ∃ t st1 st2,
    pool_ptrs p = Some t ∧
    wcnss_prealloc_put a st = Done (1, st1) ∧
    cnss_pools st1 =
      Some (<[j:=set_pool_ptrs p (Some (<[k:=NULL]> t))]> pools) ∧
    ktrace st1 = ktrace st ++ [KMempoolFree j a] ∧
    (∀ pools1, cnss_pools st1 = Some pools1 → untracked a pools1) ∧
    wcnss_prealloc_put a st1 = Done (0, st2) ∧
    cnss_pools st2 = cnss_pools st1 ∧
    ktrace st2 = ktrace st1.
Proof. apply put_twice. Qed.

Lemma put_once_then_fails_witness :
  ∃ t st1 st2,
    pool_ptrs (tier16k (Some [20480; 0])) = Some t ∧
    wcnss_prealloc_put 20480 st_held = Done (1, st1) ∧
    cnss_pools st1 =
      Some (<[1%nat:=set_pool_ptrs
                (tier16k (Some [20480; 0]))
                (Some (<[0%nat:=NULL]> t))]>
              (tiersA (Some [0; 0]) (Some [20480; 0]))) ∧
    ktrace st1 = ktrace st_held ++ [KMempoolFree 1 20480] ∧
    (∀ pools1, cnss_pools st1 = Some pools1 → untracked 20480 pools1) ∧
    wcnss_prealloc_put 20480 st1 = Done (0, st2) ∧
    cnss_pools st2 = cnss_pools st1 ∧
    ktrace st2 = ktrace st1.
Proof.
  apply (put_once_then_fails 20480 st_held
           (tiersA (Some [0; 0]) (Some [20480; 0])) 1 0).
  - reflexivity.
  - solve_tables_ok.
  - unfold NULL; lia.
  - split.
    + eexists _, _. repeat split; reflexivity.
    + intros j' p' t' k' Hp' Ht' Hk'.
      destruct j' as [|[|j']]; simpl in Hp'; try discriminate;
        injection Hp' as <-; simpl in Ht'; injection Ht' as <-;
        destruct k' as [|[|k']]; simpl in Hk'; try discriminate; done.
  - reflexivity.
  - simpl. unfold NULL. lia.
  - intros i q Hi Hq Hmp.
    destruct i as [|i]; [|lia]. simpl in Hq. injection Hq as <-. done.
Defined.

(** C4, as stated, fails: block 20480 sits in exactly one slot, slot 0 of
    the 16k tier, yet the release reports failure, because the loop stops
    at the 8k tier, whose table is gone. *)
Lemma put_stops_at_lost_table :
  only_slot 20480 (tiersA None (Some [20480; 0])) 1 0 ∧
  wcnss_prealloc_put 20480 st_lost =
    Done (0, add_msgs st_lost [MsgTableNull "cnss-pool-8k"]).
Proof.
  split; [|reflexivity].
  split.
  - eexists _, _. repeat split; reflexivity.
  - intros j' p' t' k' Hp' Ht' Hk'.
    destruct j' as [|[|j']]; simpl in Hp'; try discriminate;
      injection Hp' as <-; simpl in Ht'; try discriminate;
      injection Ht' as <-;
      destruct k' as [|[|k']]; simpl in Hk'; try discriminate; done.
Qed.

(** [st_lost] arises from the built [profileA]: a 16k block is taken, the
    8k table fills up, and the growth of the 8k table fails. *)
Example st_lost_reachable :
  ∃ st1 st2 st3 st4,
    wcnss_prealloc_get (kernel_says only_16k_gives None) 16384 st_initA =
      Done (20480, st1) ∧
    wcnss_prealloc_get
      (kernel_says (λ i, match i with 0%nat => 4096 | _ => NULL end) None)
      8192 st1 = Done (4096, st2) ∧
    wcnss_prealloc_get
      (kernel_says (λ i, match i with 0%nat => 12288 | _ => NULL end) None)
      8192 st2 = Done (12288, st3) ∧
    wcnss_prealloc_get (kernel_says the_8k_gives None) 8192 st3 =
      Done (NULL, st4) ∧
    cnss_pools st4 = cnss_pools st_lost.
Proof. eexists _, _, _, _. repeat split; reflexivity. Qed.

(** C5.  Let the table of a tier hold [table_capacity] slots, none of them
    empty.  If [wcnss_find_pool_table_slot] succeeds, the capacity has
    grown by exactly one, the new table is the old one followed by one more
    slot, that slot (index: the old capacity) holds the new address, and
    every slot of the old table still is where it was. *)
Theorem find_slot_grows_by_one env st pools pool p t mem ret st' :
  cnss_pools st = Some pools → pools !! pool = Some p →
  pool_ptrs p = Some t → table_ok p → NULL ∉ t →
  wcnss_find_pool_table_slot env pool mem st = Done (ret, st') →
  0 <= ret →
  ∃ p' t',
    cnss_pools st' = Some (<[pool:=p']> pools) ∧
    table_capacity p' = table_capacity p + 1 ∧
    pool_ptrs p' = Some t' ∧
    t' = t ++ [mem] ∧
    Z.of_nat (length t') = table_capacity p + 1 ∧
    t' !! Z.to_nat (table_capacity p) = Some mem ∧
    (∀ k v, t !! k = Some v → t' !! k = Some v).
Proof.
  intros Hst Hp Ht Hok Hfull Hfind Hret.
  destruct (env_krealloc env) as [g|] eqn:Hg.
  - rewrite (find_slot_grow env st pools pool p t g mem) in Hfind by done.
    injection Hfind as <- <-.
    destruct Hok as [[Hr Hl] _]. rewrite Ht in Hl.
    eexists _, (t ++ [mem]). simpl.
    do 4 (split; [done|]). split; [rewrite length_app; simpl; lia|].
    split.
    + rewrite <- Hl, Nat2Z.id. by apply list_lookup_middle.
    + intros k v Hk. by apply lookup_app_l_Some.
  - rewrite (find_slot_grow_fails env st pools pool p t mem) in Hfind by done.
    injection Hfind as <- <-. unfold EPERM in Hret. lia.
Qed.

Lemma find_slot_grows_by_one_witness :
  ∃ p' t',
    cnss_pools
      (mk_machine
         (Some [ mk_cnss_pool 8192 2 "cnss-pool-8k" 512 256
                                (Some [4096; 12288; 28672]) 3;
                 tier16k (Some [0; 0]) ])
         (ktrace st_full8k ++ [KKrealloc 0 24]) []) =
      Some (<[0%nat:=p']> (tiersA (Some [4096; 12288]) (Some [0; 0]))) ∧
    table_capacity p' = table_capacity (tier8k (Some [4096; 12288])) + 1 ∧
    pool_ptrs p' = Some t' ∧
    t' = [4096; 12288] ++ [28672] ∧
    Z.of_nat (length t') = table_capacity (tier8k (Some [4096; 12288])) + 1 ∧
    t' !! Z.to_nat (table_capacity (tier8k (Some [4096; 12288]))) =
      Some 28672 ∧
    (∀ k v, [4096; 12288] !! k = Some v → t' !! k = Some v).
Proof.
  apply (find_slot_grows_by_one (kernel_says the_8k_gives (Some 99))
           st_full8k (tiersA (Some [4096; 12288]) (Some [0; 0])) 0
           (tier8k (Some [4096; 12288])) [4096; 12288] 28672 0).
  - reflexivity.
  - reflexivity.
  - reflexivity.
  - solve_tables_ok.
  - intros Hin. apply list_elem_of_In in Hin. simpl in Hin.
    unfold NULL in Hin. lia.
  - reflexivity.
  - lia.
Defined.

Lemma init_profileA alloc kr :
  cnss_pool_init (kernel_says alloc kr) (boot profileA) = Done (0, st_initA).
Proof. reflexivity. Qed.

Lemma candidate_mp sz p : candidate sz p = true → mp p ≠ NULL.
Proof.
  unfold candidate. intros [_ Hmp]%andb_true_iff.
  apply negb_true_iff, Z.eqb_neq in Hmp. done.
Qed.

Lemma tiersA_increasing t0 t1 : increasing (tiersA t0 t1).
Proof.
  intros a b pa pb Hab Ha Hb.
  destruct a as [|[|a]], b as [|[|b]]; simpl in Ha, Hb;
    try discriminate; try lia;
    injection Ha as <-; injection Hb as <-; simpl; lia.
Qed.

(** The tiers that [cnss_pool_init] builds from [profileA] with a kernel
    that creates both tiers and hands over zeroed table memory. *)
Lemma init_profileA_zeroed env0 :
  builds_profileA env0 →
  ∃ tr dm,
    cnss_pool_init env0 (boot profileA) =
    Done (0, mk_machine
               (Some [ mk_cnss_pool 8192 2 "cnss-pool-8k"
                         (env_mempool_create env0 0)
                         (env_kmem_cache_create env0 0) (Some [0; 0]) 2;
                       mk_cnss_pool 16384 2 "cnss-pool-16k"
                         (env_mempool_create env0 1)
                         (env_kmem_cache_create env0 1) (Some [0; 0]) 2 ])
               tr dm).
Proof.
  intros Hb.
  destruct (Hb 0%nat) as (Hc0%Z.eqb_neq & Hm0%Z.eqb_neq & g0 & Hg0 & Hz0);
    [lia|].
  destruct (Hb 1%nat) as (Hc1%Z.eqb_neq & Hm1%Z.eqb_neq & g1 & Hg1 & Hz1);
    [lia|].
  destruct (init_eq env0 profileA) as (tr & dm & Hrun).
  exists tr, dm. rewrite Hrun. do 3 f_equal.
  unfold profileA, row. cbn [init_tiers]. unfold init_tier.
  rewrite Hc0, Hm0, Hg0, Hc1, Hm1, Hg1.
  cbn [min set_cache set_mp set_table_capacity set_pool_ptrs fmap option_fmap
       option_map].
  replace (kmalloc_block (table_bytes 2) g0) with [g0 0%nat; g0 1%nat]
    by reflexivity.
  replace (kmalloc_block (table_bytes 2) g1) with [g1 0%nat; g1 1%nat]
    by reflexivity.
  by rewrite !Hz0, !Hz1.
Qed.

(** C7, as stated, fails in its first part: in the state [st_lost] the 8k
    tier is the first tier whose block size is at least the 8192 bytes
    asked for and whose mempool is present, and its mempool would give a
    block; but the tier has lost its table, and [wcnss_prealloc_get]
    returns [NULL] without calling any mempool. *)
Lemma get_leaves_first_fit_without_table :
  engaged 8192 (tiersA None (Some [20480; 0])) ∧
  first_candidate 8192 (tiersA None (Some [20480; 0])) 0 ∧
  env_mempool_alloc (kernel_says the_8k_gives None) 0 ≠ NULL ∧
  wcnss_prealloc_get (kernel_says the_8k_gives None) 8192 st_lost =
    Done (NULL,
          add_msgs st_lost [MsgTableNull "cnss-pool-8k";
                            MsgNotAvailable 8192 GFP_ZERO_KERNEL]).
Proof.
  split.
  { exists (tier8k None). split; [reflexivity|simpl; lia]. }
  split.
  { split; [by exists (tier8k None)|]. intros k q Hk. lia. }
  split; [simpl; unfold NULL; lia|reflexivity].
Qed.

(** C7 (amended).  Let the request reach the threshold, let every table
    have its capacity, and let tier [i] be the first tier, in the order of
    the table, whose block size is at least the request and whose mempool
    is present.  Then
    - with the table in increasing order of block size, tier [i] has the
      smallest block size among the tiers that could serve the request;
    - if tier [i] has its table, the first kernel call of
      [wcnss_prealloc_get] is [mempool_alloc] on tier [i];
    - if tier [i] has lost its table, [wcnss_prealloc_get] returns [NULL]
      and calls no mempool.
    In particular, let [cnss_pool_init] build the 8k and 16k tiers of
    [profileA] with table memory that is zero, and let the mempool of the
    16k tier give a block for a request of 10000 bytes.  Then the block is
    returned, it is recorded in the table of the 16k tier and not in that
    of the 8k tier, [wcnss_prealloc_put] of it returns 1 and a second
    [wcnss_prealloc_put] returns 0. *)
Theorem get_first_fit_then_put_twice :
  (∀ env sz st (pools : list cnss_pool) i p,
     cnss_pools st = Some pools → engaged sz pools → Forall table_ok pools →
     first_candidate sz pools i → pools !! i = Some p →
     (increasing pools →
      ∀ j q, pools !! j = Some q → candidate sz q = true →
             size p <= size q) ∧
     (pool_ptrs p ≠ None →
      ∃ r st',
        wcnss_prealloc_get env sz st = Done (r, st') ∧
        (ktrace st ++
           [KMempoolAlloc i (gfp_of env) (env_mempool_alloc env i)])
          `prefix_of` ktrace st') ∧
     (pool_ptrs p = None →
      wcnss_prealloc_get env sz st =
      Done (NULL, add_msgs st [MsgTableNull (name p);
                               MsgNotAvailable sz (gfp_of env)]))) ∧
  (∀ env0 env,
     builds_profileA env0 → env_mempool_alloc env 1 ≠ NULL →
     ∃ st0 st1 st2 st3 p0 p1,
       cnss_pool_init env0 (boot profileA) = Done (0, st0) ∧
       wcnss_prealloc_get env 10000 st0 =
         Done (env_mempool_alloc env 1, st1) ∧
       cnss_pools st1 = Some [p0; p1] ∧
       size p0 = 8192 ∧ size p1 = 16384 ∧
       recorded (env_mempool_alloc env 1) p1 ∧
       ¬ recorded (env_mempool_alloc env 1) p0 ∧
       wcnss_prealloc_put (env_mempool_alloc env 1) st1 = Done (1, st2) ∧
       wcnss_prealloc_put (env_mempool_alloc env 1) st2 = Done (0, st3) ∧
       cnss_pools st3 = cnss_pools st2).
Proof.
  split.
  - intros env sz st pools i p Hst Heng Hok Hfirst Hp.
    destruct st as [ps tr dm]. simpl in Hst. subst ps.
    split; [|split].
    + intros Hinc. by eapply first_fit_is_smallest.
    + intros Ht. by apply (get_first_call env sz pools tr dm i p).
    + intros Ht. pose proof Hfirst as [(p0 & Hp0 & Hc) Hbefore].
      assert (p0 = p) as -> by congruence.
      rewrite (get_lost_table env sz pools tr dm i p);
        [|done|by apply first_candidate_reaches|done..].
      rewrite failed_allocs_none, app_nil_r; [done|].
      intros k q Hk. apply Hbefore. lia.
  - intros env0 env Hb Hm.
    destruct (init_profileA_zeroed env0 Hb) as (tr & dm & Hinit).
    destruct (Hb 0%nat) as (_ & Hm0 & _); [lia|].
    destruct (Hb 1%nat) as (_ & Hm1 & _); [lia|].
    set (m := env_mempool_alloc env 1) in *.
    set (P0 := mk_cnss_pool 8192 2 "cnss-pool-8k" (env_mempool_create env0 0)
                 (env_kmem_cache_create env0 0) (Some [0; 0]) 2) in *.
    set (P1 := mk_cnss_pool 16384 2 "cnss-pool-16k"
                 (env_mempool_create env0 1)
                 (env_kmem_cache_create env0 1) (Some [0; 0]) 2) in *.
    assert (first_hit is_null [0; 0] 0) as Hslot.
    { split; [by exists 0|]. intros j w Hj. lia. }
    assert (candidate 10000 P1 = true) as Hc1.
    { unfold candidate. simpl. by apply negb_true_iff, Z.eqb_neq. }
    destruct (get_served env 10000 [P0; P1] tr dm 1 P1 [0; 0])
      as [(k & Hk & Hget)|[(_ & Hfull & _)|(_ & Hfull & _)]].
    { exists P0. split; [done|]. simpl. lia. }
    { intros k q Hk Hq. destruct k as [|k]; [|lia].
      injection Hq as <-. by left. }
    { done. }
    { done. }
    { done. }
    { unfold P1, table_ok, table_sized, INT_MAX. simpl. lia. }
    { done. }
    2,3: exfalso; apply Hfull; by left.
    assert (k = 0%nat) as -> by (by eapply first_hit_unique).
    fold m in Hget. simpl in Hget.
    set (P1' := set_pool_ptrs P1 (Some [m; 0])) in *.
    assert (only_slot m [P0; P1'] 1 0) as Honly.
    { split; [by eexists _, _|].
      intros j' p' t' k' Hp' Ht' Hk'.
      destruct j' as [|[|j']]; simpl in Hp'; try done;
        injection Hp' as <-; simpl in Ht'; injection Ht' as <-;
        destruct k' as [|[|k']]; simpl in Hk'; try done;
        injection Hk' as Hk'; by subst. }
    destruct (put_twice m
                (mk_machine (Some [P0; P1'])
                   (tr ++ [KMempoolAlloc 1 (gfp_of env) m]) dm)
                [P0; P1'] 1 0 P1' eq_refl)
      as (t' & st2 & st3 & _ & Hput1 & _ & _ & _ & Hput2 & Hpools3 & _).
    { unfold P0, P1', P1, table_sized, INT_MAX.
      repeat constructor; simpl; lia. }
    { done. }
    { done. }
    { done. }
    { done. }
    { intros k0 q Hk0 Hq _. destruct k0 as [|k0]; [|lia].
      by injection Hq as <-. }
    eexists _, _, st2, st3, P0, P1'. split; [exact Hinit|].
    split; [exact Hget|]. simpl. do 3 (split; [done|]).
    split; [eexists; split; [done|by left]|].
    split.
    { intros (t & [= <-] & Hin). apply list_elem_of_In in Hin. simpl in Hin.
      destruct Hin as [H|[H|[]]]; by subst. }
    done.
Qed.

Lemma get_first_fit_then_put_twice_witness :
  let env := kernel_says only_16k_gives None in
  (∃ r st',
     wcnss_prealloc_get env 10000 st_initA = Done (r, st') ∧
     (ktrace st_initA ++
        [KMempoolAlloc 1 (gfp_of env) (env_mempool_alloc env 1)])
       `prefix_of` ktrace st') ∧
  wcnss_prealloc_get (kernel_says the_8k_gives None) 8192 st_lost =
    Done (NULL, add_msgs st_lost [MsgTableNull "cnss-pool-8k";
                                  MsgNotAvailable 8192 GFP_ZERO_KERNEL]) ∧
  (∃ st0 st1 st2 st3,
     cnss_pool_init env (boot profileA) = Done (0, st0) ∧
     wcnss_prealloc_get env 10000 st0 = Done (20480, st1) ∧
     wcnss_prealloc_put 20480 st1 = Done (1, st2) ∧
     wcnss_prealloc_put 20480 st2 = Done (0, st3)).
Proof.
  intros env. split; [|split].
  - destruct (proj1 get_first_fit_then_put_twice env 10000 st_initA
                (tiersA (Some [0; 0]) (Some [0; 0])) 1%nat
                (tier16k (Some [0; 0]))) as (_ & Hfirst & _).
    + reflexivity.
    + exists (tier8k (Some [0; 0])). split; [reflexivity|simpl; lia].
    + solve_tables_ok.
    + split.
      * exists (tier16k (Some [0; 0])). split; reflexivity.
      * intros k q Hk Hq. destruct k as [|k]; [|lia].
        simpl in Hq. injection Hq as <-. reflexivity.
    + reflexivity.
    + apply Hfirst. discriminate.
  - destruct (proj1 get_first_fit_then_put_twice
                (kernel_says the_8k_gives None) 8192 st_lost
                (tiersA None (Some [20480; 0])) 0%nat (tier8k None))
      as (_ & _ & Hlost).
    + reflexivity.
    + exists (tier8k None). split; [reflexivity|simpl; lia].
    + solve_tables_ok.
    + split; [by exists (tier8k None)|]. intros k q Hk. lia.
    + reflexivity.
    + apply Hlost. reflexivity.
  - destruct (proj2 get_first_fit_then_put_twice env env)
      as (st0 & st1 & st2 & st3 & p0 & p1 & H0 & H1 & _ & _ & _ & _ & _ &
          H2 & H3 & _).
    + intros i Hi. simpl. split; [unfold NULL; lia|].
      split; [unfold NULL; lia|]. by eexists.
    + simpl. unfold NULL. lia.
    + by exists st0, st1, st2, st3.
Defined.

(** The scenario, run: the tiers of [profileA] are built, 10000 bytes are
    served from the 16k tier, the first release succeeds, the second does
    not. *)
Example scenario_8k_16k :
  let env := kernel_says only_16k_gives None in
  ∃ st1 st2 st3,
    cnss_pool_init env (boot profileA) = Done (0, st_initA) ∧
    wcnss_prealloc_get env 10000 st_initA = Done (20480, st1) ∧
    cnss_pools st1 = Some (tiersA (Some [0; 0]) (Some [20480; 0])) ∧
    wcnss_prealloc_put 20480 st1 = Done (1, st2) ∧
    cnss_pools st2 = Some (tiersA (Some [0; 0]) (Some [0; 0])) ∧
    wcnss_prealloc_put 20480 st2 = Done (0, st3) ∧
    cnss_pools st3 = cnss_pools st2.
Proof. eexists _, _, _. repeat split; reflexivity. Qed.




(** What the audit prints for [st_leaky]. *)
Example leak_reports_leaky :
  leak_reports (tiersA (Some [4096; 0]) (Some [0; 20480])) =
  [MsgNotFreed 4096 "cnss-pool-8k" 0; MsgWarnOn;
   MsgNotFreed 20480 "cnss-pool-16k" 1; MsgWarnOn].
Proof. reflexivity. Qed.

(** ** The audit and a missing table *)

Lemma check_faults pools tr dm j p :
  Forall table_sized pools → pools !! j = Some p →
  pool_ptrs p = None → 0 < table_capacity p →
  wcnss_check_pool_lists (mk_machine (Some pools) tr dm) = Fault.
Proof.
  intros Hsized Hp Hnone Hpos. rewrite check_eq.
  apply (check_loop_faults pools _ _ (length pools) 0 j p); [done|done|lia|done..].
Qed.

Lemma check_safe pools tr dm :
  Forall table_sized pools → (∀ p, p ∈ pools → pool_ptrs p ≠ None) →
  ∃ st', wcnss_check_pool_lists (mk_machine (Some pools) tr dm) =
         Done (tt, st').
Proof.
  intros Hsized Hpresent. eexists. rewrite check_eq.
  apply (check_loop_run pools); [done|]. rewrite drop_0.
  apply Forall_forall. intros p Hp. split.
  - by apply (proj1 (Forall_forall _ _) Hsized).
  - intros Hnone. by destruct (Hpresent p Hp).
Qed.

(** C10.  [wcnss_check_pool_lists] reads [table_capacity] slots through
    [pool_ptrs] without testing the pointer:
    - with every table present (and of its capacity) the audit ends
      normally;
    - with a tier whose table is null and whose capacity is positive, it
      reads through the null pointer;
    - [cnss_pool_init] produces such a tier when [kmalloc] of the table
      fails for a tier with a positive reserve: [table_capacity] has been
      set to [min] before;
    - so does [wcnss_prealloc_get] when a non-empty full table cannot
      grow. *)
Theorem check_pool_lists_null_table :
  (∀ st pools,
     cnss_pools st = Some pools → Forall table_sized pools →
     (∀ p, p ∈ pools → pool_ptrs p ≠ None) →
     ∃ st', wcnss_check_pool_lists st = Done (tt, st')) ∧
  (∀ st pools p,
     cnss_pools st = Some pools → Forall table_sized pools →
     p ∈ pools → pool_ptrs p = None → 0 < table_capacity p →
     wcnss_check_pool_lists st = Fault) ∧
  (∀ env pools i p,
     Forall static_row pools → pools !! i = Some p → 0 < min p →
     env_kmem_cache_create env i ≠ NULL → env_mempool_create env i ≠ NULL →
     env_kmalloc env i = None →
     ∃ st1 pools1 p1,
       cnss_pool_init env (boot pools) = Done (0, st1) ∧
       cnss_pools st1 = Some pools1 ∧ pools1 !! i = Some p1 ∧
       pool_ptrs p1 = None ∧ table_capacity p1 = min p ∧
       wcnss_check_pool_lists st1 = Fault) ∧
  (∀ env sz st pools i p t,
     cnss_pools st = Some pools → Forall table_ok pools →
     engaged sz pools → get_reaches env sz pools i →
     pools !! i = Some p → candidate sz p = true →
     pool_ptrs p = Some t → NULL ∉ t → t ≠ [] →
     env_mempool_alloc env i ≠ NULL → env_krealloc env = None →
     ∃ st1 pools1 p1,
       wcnss_prealloc_get env sz st = Done (NULL, st1) ∧
       cnss_pools st1 = Some pools1 ∧ pools1 !! i = Some p1 ∧
       pool_ptrs p1 = None ∧ 0 < table_capacity p1 ∧
       wcnss_check_pool_lists st1 = Fault).
Proof.
  split; [|split; [|split]].
  - intros [ps tr dm] pools Hst Hsized Hpresent. simpl in Hst. subst ps.
    by apply check_safe.
  - intros [ps tr dm] pools p Hst Hsized Hp Hnone Hpos. simpl in Hst. subst ps.
    apply list_elem_of_lookup in Hp as [j Hp].
    by eapply check_faults.
  - intros env pools i p Hrows Hp Hmin Hc Hm Hk.
    destruct (init_eq env pools) as (tr & dm & Hinit).
    destruct (init_tier_no_table env i p Hc Hm Hk) as (Hnone & Hcap & _).
    assert (init_tiers env 0 pools !! i = Some (init_tier env i p)) as Hi
      by (by rewrite init_tiers_lookup, Hp).
    eexists _, _, _. split; [exact Hinit|]. simpl.
    do 4 (split; [done|]).
    eapply check_faults; [by apply init_tiers_sized|done|done|lia].
  - intros env sz [ps tr dm] pools i p t Hst Hok Heng Hreach Hp Hc Ht
           Hfull Hne Hm Hk.
    simpl in Hst. subst ps.
    pose proof (Forall_lookup_1 _ _ _ _ Hok Hp) as Hokp.
    pose proof (lookup_lt_Some _ _ _ Hp) as Hi.
    destruct (get_served env sz pools tr dm i p t Heng Hreach Hp Hc Ht Hokp Hm)
      as [(k & Hk' & _)|[([g Hg] & _)|(_ & _ & Hget)]].
    { apply no_hit_is_null in Hfull. destruct (first_hit_no_hit _ _ _ Hk' Hfull). }
    { congruence. }
    assert (0 < table_capacity p) as Hpos.
    { destruct Hokp as [[_ Hl] _]. rewrite Ht in Hl.
      destruct t; [done|]. simpl in Hl. lia. }
    eexists _, _, (set_pool_ptrs p None). split; [exact Hget|]. simpl.
    split; [done|]. split; [by apply list_lookup_insert_eq|].
    do 2 (split; [done|]).
    eapply (check_faults _ _ _ i (set_pool_ptrs p None)); [|by apply list_lookup_insert_eq|done|done].
    apply Forall_insert; [by apply table_ok_sized|].
    destruct Hokp as [[Hr _] _]. split; done.
Qed.

Lemma check_pool_lists_null_table_witness :
  (∃ st', wcnss_check_pool_lists st_leaky = Done (tt, st')) ∧
  wcnss_check_pool_lists st_lost = Fault ∧
  (∃ st1 pools1 p1,
     cnss_pool_init kernel_without_16k_table (boot profileA) = Done (0, st1) ∧
     cnss_pools st1 = Some pools1 ∧ pools1 !! 1%nat = Some p1 ∧
     pool_ptrs p1 = None ∧ table_capacity p1 = 2 ∧
     wcnss_check_pool_lists st1 = Fault) ∧
  (∃ st1 pools1 p1,
     wcnss_prealloc_get (kernel_says the_8k_gives None) 8192 st_full8k =
       Done (NULL, st1) ∧
     cnss_pools st1 = Some pools1 ∧ pools1 !! 0%nat = Some p1 ∧
     pool_ptrs p1 = None ∧ 0 < table_capacity p1 ∧
     wcnss_check_pool_lists st1 = Fault).
Proof.
  destruct check_pool_lists_null_table as (Hsafe & Hfault & Hinit & Hgrow).
  split; [|split; [|split]].
  - apply (Hsafe st_leaky (tiersA (Some [4096; 0]) (Some [0; 20480]))).
    + reflexivity.
    + solve_tables_ok.
    + intros p Hp. apply list_elem_of_In in Hp. simpl in Hp.
      destruct Hp as [<-|[<-|[]]]; discriminate.
  - apply (Hfault st_lost (tiersA None (Some [20480; 0])) (tier8k None)).
    + reflexivity.
    + solve_tables_ok.
    + by left.
    + reflexivity.
    + simpl. lia.
  - apply (Hinit kernel_without_16k_table profileA 1%nat
             (row (16 * 1024) 2 "cnss-pool-16k")).
    + repeat constructor; unfold INT_MAX; simpl; lia.
    + reflexivity.
    + simpl. lia.
    + simpl. unfold NULL. lia.
    + simpl. unfold NULL. lia.
    + reflexivity.
  - apply (Hgrow (kernel_says the_8k_gives None) 8192 st_full8k
             (tiersA (Some [4096; 12288]) (Some [0; 0])) 0%nat
             (tier8k (Some [4096; 12288])) [4096; 12288]).
    + reflexivity.
    + solve_tables_ok.
    + exists (tier8k (Some [4096; 12288])). split; [reflexivity|simpl; lia].
    + intros k q Hk. lia.
    + reflexivity.
    + reflexivity.
    + reflexivity.
    + intros Hin. apply list_elem_of_In in Hin. simpl in Hin.
      unfold NULL in Hin. lia.
    + discriminate.
    + simpl. unfold NULL. lia.
    + reflexivity.
Defined.

(** ** A tier that has lost its table *)

Lemma put_loop_stops a pools tr dm i p todo k :
  Forall table_sized pools →
  pools !! i = Some p → mp p ≠ NULL → pool_ptrs p = None →
  (∀ j q, (j < i)%nat → pools !! j = Some q → ¬ recorded a q) →
  (k ≤ i)%nat → (k + todo = length pools)%nat →
  ∃ dm', put_loop a todo k (mk_machine (Some pools) tr dm) =
         Done (0, mk_machine (Some pools) tr dm').
Proof.
  intros Hsized Hp Hmp Hnone Hbefore.
  pose proof (lookup_lt_Some _ _ _ Hp) as Hi.
  induction todo as [|n IH] in k |- *; intros Hk Hlen; [lia|].
  destruct (lookup_lt_is_Some_2 pools k) as [q Hq]; [lia|].
  pose proof (Forall_lookup_1 _ _ _ _ Hsized Hq) as Hsq.
  destruct (decide (mp q ≠ NULL ∧ pool_ptrs q = None)) as [[Hmq Hnq]|Hgood].
  { simpl. rewrite (kbind_read _ _ _ _ _ _ Hq).
    apply Z.eqb_neq in Hmq. rewrite Hmq, Hnq. by eexists. }
  assert (k ≠ i) as Hne.
  { intros ->. assert (q = p) as -> by congruence. by destruct Hgood. }
  rewrite (put_loop_pass _ _ _ _ _ _ q); [apply IH; lia|done|done|].
  destruct (decide (mp q = NULL)) as [|Hmq]; [by left|right].
  destruct (pool_ptrs q) as [t|] eqn:Ht.
  - exists t. split; [done|]. intros Hin.
    apply (Hbefore k q); [lia|done|]. by exists t.
  - by destruct Hgood.
Qed.

Lemma put_stops_at a pools tr dm i p :
  a ≠ NULL → Forall table_sized pools →
  pools !! i = Some p → mp p ≠ NULL → pool_ptrs p = None →
  (∀ j q, (j < i)%nat → pools !! j = Some q → ¬ recorded a q) →
  ∃ dm', wcnss_prealloc_put a (mk_machine (Some pools) tr dm) =
         Done (0, mk_machine (Some pools) tr dm').
Proof.
  intros Ha Hsized Hp Hmp Hnone Hbefore.
  rewrite put_eq, Nat.sub_0_r by done.
  by apply (put_loop_stops a pools tr dm i p); [..|lia|lia].
Qed.

(** C6, as stated, fails in its last part: the growth of the 16k table
    fails and the table is lost, but block 4096, recorded in the 8k tier,
    is still released with success, because the loop finds it before it
    comes to the 16k tier. *)
Lemma put_succeeds_before_lost_table :
  ∃ st1 st2,
    wcnss_prealloc_get (kernel_says the_16k_gives None) 16384 st_full16k =
      Done (NULL, st1) ∧
    cnss_pools st1 = Some (tiersA (Some [4096; 0]) None) ∧
    wcnss_prealloc_put 4096 st1 = Done (1, st2) ∧
    cnss_pools st2 = Some (tiersA (Some [0; 0]) None).
Proof. eexists _, _. repeat split; reflexivity. Qed.

(** C6 (amended).  Let the table of tier [i] be full and let its growth
    fail.  Then [wcnss_find_pool_table_slot] returns [-EPERM] and leaves
    the tier with a null table, so that no address is recorded for it any
    more.  In every state reached from there by calls of
    [wcnss_prealloc_get] and [wcnss_prealloc_put], tier [i] still has its
    mempool and no table, and
    - a [wcnss_prealloc_get] whose loop arrives at tier [i] with tier [i]
      a candidate returns [NULL] and calls no mempool of tier [i] or of a
      larger tier;
    - a [wcnss_prealloc_put] of an address that is recorded in no earlier
      tier returns 0 and changes no table, even if the address is recorded
      in a later tier. *)
Theorem growth_failure_loses_table env st pools i p t mem :
  cnss_pools st = Some pools → pools !! i = Some p → table_ok p →
  mp p ≠ NULL → pool_ptrs p = Some t → NULL ∉ t →
  env_krealloc env = None →
  ∃ st1,
    wcnss_find_pool_table_slot env i mem st = Done (- EPERM, st1) ∧
    cnss_pools st1 = Some (<[i:=set_pool_ptrs p None]> pools) ∧
    ∀ st1' rs st2,
      cnss_pools st1' = cnss_pools st1 → serve_all rs st1' = Done st2 →
      ∃ pools2 p2,
        cnss_pools st2 = Some pools2 ∧ pools2 !! i = Some p2 ∧
        mp p2 = mp p ∧ pool_ptrs p2 = None ∧
        (∀ a, ¬ recorded a p2) ∧
        (∀ env' sz,
           engaged sz pools2 → candidate sz p2 = true →
           get_reaches env' sz pools2 i →
           ∃ st3,
             wcnss_prealloc_get env' sz st2 = Done (NULL, st3) ∧
             cnss_pools st3 = Some pools2 ∧
             ktrace st3 = ktrace st2 ++ failed_allocs env' sz pools2 0 i) ∧
        (∀ a,
           a ≠ NULL → Forall table_sized pools2 →
           (∀ k q, (k < i)%nat → pools2 !! k = Some q → ¬ recorded a q) →
           ∃ st3,
             wcnss_prealloc_put a st2 = Done (0, st3) ∧
             cnss_pools st3 = Some pools2 ∧
             ktrace st3 = ktrace st2).
Proof.
  intros Hst Hp Hok Hmp Ht Hfull Hk.
  pose proof (lookup_lt_Some _ _ _ Hp) as Hi.
  eexists. split; [by eapply find_slot_grow_fails|]. split; [done|].
  intros st1' rs st2 Hst1' Hrun. simpl in Hst1'.
  assert (lost_table i (mp p) st1') as Hlost.
  { eexists _, (set_pool_ptrs p None). split; [done|].
    split; [by apply list_lookup_insert_eq|]. done. }
  destruct (lost_table_serve_all i (mp p) rs st1' st2 Hlost Hrun)
    as (pools2 & p2 & Hst2 & Hp2 & Hmp2 & Hnone2).
  destruct st2 as [ps2 tr2 dm2]. simpl in Hst2. subst ps2.
  exists pools2, p2. do 4 (split; [done|]). split; [|split].
  - intros a (t2 & Ht2 & _). congruence.
  - intros env' sz Heng Hc Hreach. eexists. split; [by eapply get_lost_table|].
    done.
  - intros a Ha Hsized Hbefore.
    destruct (put_stops_at a pools2 tr2 dm2 i p2) as [dm' Hput];
      [done|done|done|congruence|done|done|].
    eexists. split; [exact Hput|]. done.
Qed.

Lemma growth_failure_loses_table_witness :
  let p := tier16k (Some [20480; 24576]) in
  let pools := tiersA (Some [4096; 0]) (Some [20480; 24576]) in
  ∃ st1,
    wcnss_find_pool_table_slot (kernel_says the_16k_gives None) 1 32768
      st_full16k = Done (- EPERM, st1) ∧
    cnss_pools st1 = Some (<[1%nat:=set_pool_ptrs p None]> pools) ∧
    ∀ st1' rs st2,
      cnss_pools st1' = cnss_pools st1 → serve_all rs st1' = Done st2 →
      ∃ pools2 p2,
        cnss_pools st2 = Some pools2 ∧ pools2 !! 1%nat = Some p2 ∧
        mp p2 = mp p ∧ pool_ptrs p2 = None ∧
        (∀ a, ¬ recorded a p2) ∧
        (∀ env' sz,
           engaged sz pools2 → candidate sz p2 = true →
           get_reaches env' sz pools2 1 →
           ∃ st3,
             wcnss_prealloc_get env' sz st2 = Done (NULL, st3) ∧
             cnss_pools st3 = Some pools2 ∧
             ktrace st3 = ktrace st2 ++ failed_allocs env' sz pools2 0 1) ∧
        (∀ a,
           a ≠ NULL → Forall table_sized pools2 →
           (∀ k q, (k < 1)%nat → pools2 !! k = Some q → ¬ recorded a q) →
           ∃ st3,
             wcnss_prealloc_put a st2 = Done (0, st3) ∧
             cnss_pools st3 = Some pools2 ∧
             ktrace st3 = ktrace st2).
Proof.
  apply (growth_failure_loses_table (kernel_says the_16k_gives None)
           st_full16k (tiersA (Some [4096; 0]) (Some [20480; 24576])) 1
           (tier16k (Some [20480; 24576])) [20480; 24576] 32768).
  - reflexivity.
  - reflexivity.
  - solve_tables_ok.
  - simpl. unfold NULL. lia.
  - reflexivity.
  - intros Hin. apply list_elem_of_In in Hin. simpl in Hin.
    unfold NULL in Hin. lia.
  - reflexivity.
Defined.

(** After the 16k tier has lost its table: a request for 16384 bytes gets
    [NULL] without any mempool call, and block 20480, which was recorded in
    the 16k tier, cannot be released any more. *)
Example lost_16k_table_run :
  ∃ st1 st2 st3,
    wcnss_prealloc_get (kernel_says the_16k_gives None) 16384 st_full16k =
      Done (NULL, st1) ∧
    wcnss_prealloc_get (kernel_says the_16k_gives (Some 0)) 16384 st1 =
      Done (NULL, st2) ∧
    ktrace st2 = ktrace st1 ∧
    wcnss_prealloc_put 20480 st2 = Done (0, st3) ∧
    cnss_pools st3 = Some (tiersA (Some [4096; 0]) None).
Proof. eexists _, _, _. repeat split; reflexivity. Qed.

(** * Further properties of the allocator *)

(** X1. When the tracking table of a tier has an empty slot,
    [wcnss_find_pool_table_slot] stores the address in the first empty
    slot and returns 0: it calls no kernel service and writes no log line,
    the table keeps its length and its capacity, and every other slot and
    every other tier is left as it was. *)
Theorem insert_takes_first_empty_slot env st (pools : list cnss_pool)
    i p t k mem :
  cnss_pools st = Some pools → pools !! i = Some p →
  pool_ptrs p = Some t → table_ok p → first_hit is_null t k →
  ∃ st' (pools' : list cnss_pool) p' (t' : list Z),
    wcnss_find_pool_table_slot env i mem st = Done (0, st') ∧
    ktrace st' = ktrace st ∧ dmesg st' = dmesg st ∧
    cnss_pools st' = Some pools' ∧ length pools' = length pools ∧
    pools' !! i = Some p' ∧ (∀ j, j ≠ i → pools' !! j = pools !! j) ∧
    same_config p p' ∧ table_capacity p' = table_capacity p ∧
    pool_ptrs p' = Some t' ∧ length t' = length t ∧
    t' !! k = Some mem ∧ (∀ l, l ≠ k → t' !! l = t !! l).
Proof.
  intros Hst Hi Ht Hok Hk.
  pose proof Hk as [[v [Hv _]] _].
  exists (with_pools st (<[i:=set_pool_ptrs p (Some (<[k:=mem]> t))]> pools)),
    (<[i:=set_pool_ptrs p (Some (<[k:=mem]> t))]> pools),
    (set_pool_ptrs p (Some (<[k:=mem]> t))), (<[k:=mem]> t).
  split; [by apply find_slot_reuse|].
  do 3 (split; [done|]).
  split; [by rewrite length_insert|].
  split; [apply list_lookup_insert_eq; by eapply lookup_lt_Some|].
  split; [intros j Hj; by apply list_lookup_insert_ne|].
  split; [by destruct p|].
  split; [by destruct p|].
  split; [by destruct p|].
  split; [by rewrite length_insert|].
  split; [apply list_lookup_insert_eq; by eapply lookup_lt_Some|].
  intros l Hl. by apply list_lookup_insert_ne.
Qed.

Lemma insert_takes_first_empty_slot_witness :
  ∃ st',
    wcnss_find_pool_table_slot (kernel_says (λ _, 0) None) 0 4096 st_ready
      = Done (0, st') ∧ ktrace st' = ktrace st_ready.
Proof.
  destruct (insert_takes_first_empty_slot (kernel_says (λ _, 0) None)
              st_ready (tiersA (Some [0; 0]) (Some [0; 0])) 0
              (tier8k (Some [0; 0])) [0; 0] 0 4096)
    as (st' & _ & _ & _ & H & Htr & _).
  - reflexivity.
  - reflexivity.
  - reflexivity.
  - unfold table_ok, table_sized, INT_MAX. simpl. lia.
  - split; [by exists 0|]. intros j w Hj. lia.
  - by exists st'.
Defined.

Lemma first_hit_after_store (t : list Z) k mem :
  first_hit is_null t k → mem ∉ t →
  first_hit (Z.eqb mem) (<[k:=mem]> t) k ∧ <[k:=NULL]> (<[k:=mem]> t) = t.
Proof.
  intros [[v [Hv Hnull]] _] Hnot. split.
  - split.
    + exists mem. split; [|apply Z.eqb_refl].
      apply list_lookup_insert_eq. by eapply lookup_lt_Some.
    + intros j w Hj Hw. rewrite list_lookup_insert_ne in Hw by lia.
      apply Z.eqb_neq. intros ->. apply Hnot.
      by eapply list_elem_of_lookup_2.
  - rewrite list_insert_insert_eq. apply list_insert_id.
    unfold is_null in Hnull. apply Z.eqb_eq in Hnull. by subst v.
Qed.

(** X2. Recording an address that the table does not hold yet in the
    first empty slot of the table and then removing it gives the table
    back: [wcnss_free_pool_table_slot] finds the address in the slot that
    [wcnss_find_pool_table_slot] chose, returns the index of that slot and
    leaves the table as it was before the address was recorded. *)
Theorem insert_then_remove_restores_table env st (pools : list cnss_pool)
    i p t k mem :
  cnss_pools st = Some pools → pools !! i = Some p →
  pool_ptrs p = Some t → table_ok p → first_hit is_null t k → mem ∉ t →
  ∃ st1 p1,
    wcnss_find_pool_table_slot env i mem st = Done (0, st1) ∧
    cnss_pools st1 ≫= (.!! i) = Some p1 ∧
    wcnss_free_pool_table_slot p1 mem = Done (Z.of_nat k, Some t).
Proof.
  intros Hst Hi Ht Hok Hk Hnot.
  destruct (first_hit_after_store t k mem Hk Hnot) as [Hhit Hback].
  exists (with_pools st (<[i:=set_pool_ptrs p (Some (<[k:=mem]> t))]> pools)),
    (set_pool_ptrs p (Some (<[k:=mem]> t))).
  split; [by apply find_slot_reuse|].
  split.
  { simpl. apply list_lookup_insert_eq. by eapply lookup_lt_Some. }
  erewrite free_slot_found; [by rewrite Hback| | |exact Hhit].
  - by destruct p.
  - destruct Hok as [[Hcap Hlen] _]. rewrite Ht in Hlen.
    split; [by destruct p|]. destruct p; simpl in *.
    by rewrite length_insert.
Qed.

Lemma insert_then_remove_restores_table_witness :
  ∃ st1 p1,
    wcnss_find_pool_table_slot (kernel_says (λ _, 0) None) 1 4096 st_held
      = Done (0, st1) ∧
    cnss_pools st1 ≫= (.!! 1%nat) = Some p1 ∧
    wcnss_free_pool_table_slot p1 4096 = Done (1, Some [20480; 0]).
Proof.
  apply (insert_then_remove_restores_table (kernel_says (λ _, 0) None)
           st_held (tiersA (Some [0; 0]) (Some [20480; 0])) 1
           (tier16k (Some [20480; 0])) [20480; 0] 1 4096).
  - reflexivity.
  - reflexivity.
  - reflexivity.
  - unfold table_ok, table_sized, INT_MAX. simpl. lia.
  - split; [by exists 0|]. intros j w Hj Hw.
    destruct j as [|[|j]]; [by inversion Hw|lia|lia].
  - intros Hin. apply list_elem_of_In in Hin. simpl in Hin.
    destruct Hin as [H|[H|[]]]; discriminate H.
Defined.

(** X3. Acquire and release are inverse on the tier tables when an empty
    slot is reused.  Let the request reach the threshold and the tables
    have their capacity, let [wcnss_prealloc_get] be served by tier [j],
    whose table has an empty slot, with a block that no table records yet,
    and let every tier before [j] that has a mempool still have its table.
    Then releasing the returned block with [wcnss_prealloc_put] succeeds
    and leaves every tier exactly as it was before the request.  The two
    calls add to the kernel trace the failed allocations of the tiers
    before [j], the allocation from tier [j] and the matching
    [mempool_free]; they write no log line. *)
Theorem get_then_put_restores_tiers env sz st (pools : list cnss_pool)
    j pj t k :
  cnss_pools st = Some pools → engaged sz pools → Forall table_ok pools →
  get_reaches env sz pools j → pools !! j = Some pj →
  candidate sz pj = true → pool_ptrs pj = Some t →
  first_hit is_null t k →
  env_mempool_alloc env j ≠ NULL →
  untracked (env_mempool_alloc env j) pools →
  tables_present_before pools j →
  ∃ st1 st2,
    wcnss_prealloc_get env sz st = Done (env_mempool_alloc env j, st1) ∧
    wcnss_prealloc_put (env_mempool_alloc env j) st1 = Done (1, st2) ∧
    cnss_pools st2 = Some pools ∧
    ktrace st2 =
      ktrace st ++ failed_allocs env sz pools 0 j ++
        [KMempoolAlloc j (gfp_of env) (env_mempool_alloc env j);
         KMempoolFree j (env_mempool_alloc env j)] ∧
    dmesg st2 = dmesg st.
Proof.
  destruct st as [ps tr dm]. simpl.
  intros -> Heng Hok Hreach Hj Hc Ht Hk Hm Hun Hbefore.
  set (m := env_mempool_alloc env j) in *.
  pose proof (Forall_lookup_1 _ _ _ _ Hok Hj) as Hokj.
  pose proof (lookup_lt_Some _ _ _ Hj) as Hlt.
  assert (m ∉ t) as Hnot by (by eapply untracked_not_in).
  destruct (first_hit_after_store t k m Hk Hnot) as [Hhit Hback].
  destruct (get_served env sz pools tr dm j pj t Heng Hreach Hj Hc Ht Hokj Hm)
    as [(k' & Hk' & Hget)|[(_ & Hfull & _)|(_ & Hfull & _)]].
  2,3: exfalso; destruct Hk as [[v [Hv Hnull]] _];
       apply Z.eqb_eq in Hnull; subst v; apply Hfull;
       by eapply list_elem_of_lookup_2.
  assert (k' = k) as -> by (by eapply first_hit_unique).
  fold m in Hget.
  set (p1 := set_pool_ptrs pj (Some (<[k:=m]> t))) in *.
  set (pools1 := <[j:=p1]> pools) in *.
  assert (Forall table_sized pools1) as Hok1.
  { apply table_sized_after_store; [by apply table_ok_sized|done..]. }
  assert (pools1 !! j = Some p1) as Hj1 by (by apply list_lookup_insert_eq).
  assert (pool_ptrs p1 = Some (<[k:=m]> t)) as Ht1 by (by destruct pj).
  assert (only_slot m pools1 j k) as Hslot.
  { eapply only_slot_insert; [done|done|exact Ht1| |].
    - by destruct Hhit as [[v [Hv Hv']] _]; apply Z.eqb_eq in Hv'; subst v.
    - intros k0 Hk0. destruct (decide (k0 = k)) as [|Hne]; [done|].
      rewrite list_lookup_insert_ne in Hk0 by done.
      exfalso. apply Hnot. by eapply list_elem_of_lookup_2. }
  eexists _, _. split; [exact Hget|]. split.
  { rewrite put_eq by done.
    rewrite (put_loop_run m pools1 _ dm j 0 Hok1).
    - simpl.
      replace (length pools1 - j)%nat with (S (length pools1 - S j))
        by (unfold pools1; rewrite length_insert; lia).
      eapply put_loop_found; [exact Hj1| | |exact Ht1|exact Hhit].
      + exact (Forall_lookup_1 _ _ _ _ Hok1 Hj1).
      + apply candidate_mp in Hc. by destruct pj.
    - unfold pools1. rewrite length_insert. lia.
    - intros i q Hi Hq. eapply only_slot_passes; [exact Hslot| | |exact Hq].
      + by apply tables_present_before_insert.
      + lia. }
  simpl. split; [|split; [|done]].
  - f_equal. unfold pools1. rewrite list_insert_insert_eq, Hback.
    unfold p1. replace (set_pool_ptrs (set_pool_ptrs pj (Some (<[k:=m]> t)))
                          (Some t)) with pj
      by (destruct pj; simpl in *; by subst).
    by apply list_insert_id.
  - by rewrite <- !app_assoc.
Qed.

Lemma get_then_put_restores_tiers_witness :
  ∃ st1 st2,
    wcnss_prealloc_get (kernel_says (λ _, 4096) None) 8192 st_ready
      = Done (4096, st1) ∧
    wcnss_prealloc_put 4096 st1 = Done (1, st2) ∧
    cnss_pools st2 = cnss_pools st_ready.
Proof.
  destruct (get_then_put_restores_tiers (kernel_says (λ _, 4096) None) 8192
              st_ready (tiersA (Some [0; 0]) (Some [0; 0])) 0
              (tier8k (Some [0; 0])) [0; 0] 0)
    as (st1 & st2 & Hget & Hput & Hpools & _).
  - reflexivity.
  - exists (tier8k (Some [0; 0])). split; [reflexivity|simpl; lia].
  - unfold tiersA. solve_tables_ok.
  - intros k q Hk. lia.
  - reflexivity.
  - reflexivity.
  - reflexivity.
  - split; [by exists 0|]. intros j w Hj. lia.
  - simpl. unfold NULL. lia.
  - intros i p Hp [t [Ht Hin]].
    destruct i as [|[|i]]; simpl in Hp; inversion Hp; subst p;
      simpl in Ht; inversion Ht; subst t;
      apply list_elem_of_In in Hin; simpl in Hin;
      destruct Hin as [H|[H|[]]]; discriminate H.
  - intros i q Hi. lia.
  - exists st1, st2. by rewrite Hpools.
Defined.

(** ** Every outcome of a request *)

Lemma get_outcomes env sz (pools : list cnss_pool) tr dm :
  pools ≠ [] → Forall table_ok pools →
  ∃ r tr' dm',
    tr `prefix_of` tr' ∧
    ((r = NULL ∧
      wcnss_prealloc_get env sz (mk_machine (Some pools) tr dm) =
        Done (r, mk_machine (Some pools) tr' dm')) ∨
     ∃ j pj p',
       pools !! j = Some pj ∧ get_changes (env_mempool_alloc env j) pj p' ∧
       wcnss_prealloc_get env sz (mk_machine (Some pools) tr dm) =
         Done (r, mk_machine (Some (<[j:=p']> pools)) tr' dm')).
Proof.
  intros Hne Hok.
  destruct (pools !! 0%nat) as [p0|] eqn:Hp0; [|by destruct pools].
  destruct (Z_lt_le_dec sz (size p0)) as [Hlt|Hle].
  { exists NULL, tr, dm. split; [done|]. left. split; [done|].
    by apply (get_below _ _ _ _ _ p0). }
  assert (engaged sz pools) as Heng by (by exists p0).
  destruct (first_stop env sz pools (length pools))
    as [Hall|(j & pj & Hj & Hreach & Hpj & Hc & Hstop)]; [lia| |].
  { eexists NULL, _, _. split; [|left; split; [done|by apply get_exhausted]].
    by apply prefix_app_r. }
  destruct Hstop as [Hnone|[Hsome Hm]].
  { eexists NULL, _, _.
    split; [|left; split; [done|by eapply get_lost_table]].
    by apply prefix_app_r. }
  destruct (pool_ptrs pj) as [t|] eqn:Ht; [|done].
  pose proof (Forall_lookup_1 _ _ _ _ Hok Hpj) as Hokj.
  destruct (get_served env sz pools tr dm j pj t Heng Hreach Hpj Hc Ht Hokj Hm)
    as [(k & Hk & Hres)|[(Hg & Hfull & Hres)|(Hg & Hfull & Hres)]].
  - eexists _, _, _. split; [|right; exists j, pj; eexists; split; [done|]].
    2:{ split; [|exact Hres]. exists t. split; [done|]. left. by exists k. }
    simpl. by apply prefix_app_r.
  - eexists _, _, _. split; [|right; exists j, pj; eexists; split; [done|]].
    2:{ split; [|exact Hres]. exists t. split; [done|]. right. by left. }
    simpl. rewrite <- app_assoc. by apply prefix_app_r.
  - eexists _, _, _. split; [|right; exists j, pj; eexists; split; [done|]].
    2:{ split; [|exact Hres]. exists t. split; [done|]. right. by right. }
    simpl. rewrite <- !app_assoc. by apply prefix_app_r.
Qed.

Lemma tier_after_refl n p : table_sized p → tier_after n p p.
Proof.
  intros Hs. split; [done|]. split; [done|]. split; [lia|done].
Qed.

Lemma tier_after_insert n (pools : list cnss_pool) j pj p' :
  Forall table_sized pools → pools !! j = Some pj → tier_after n pj p' →
  Forall2 (tier_after n) pools (<[j:=p']> pools).
Proof.
  intros Hs Hj Hp. apply Forall2_same_length_lookup.
  split; [by rewrite length_insert|].
  intros i x y Hx Hy. destruct (decide (i = j)) as [->|Hne].
  - rewrite list_lookup_insert_eq in Hy by (by eapply lookup_lt_Some).
    congruence.
  - rewrite list_lookup_insert_ne in Hy by done.
    assert (y = x) as -> by congruence.
    apply tier_after_refl. by eapply Forall_lookup_1.
Qed.

Lemma get_changes_tier_after m pj p' :
  table_ok pj → get_changes m pj p' → tier_after 1 pj p'.
Proof.
  intros [[Hcap Hlen] Hlt] (t & Ht & H). rewrite Ht in Hlen.
  unfold tier_after, same_config, table_sized.
  destruct H as [(k & _ & ->)|[[_ ->]|[_ ->]]]; destruct pj; simpl in *;
    subst; rewrite ?length_insert, ?length_app; simpl;
    repeat split; try done; lia.
Qed.

Lemma put_outcomes a (pools : list cnss_pool) tr dm :
  Forall table_sized pools →
  (∃ dm', wcnss_prealloc_put a (mk_machine (Some pools) tr dm) =
          Done (0, mk_machine (Some pools) tr dm')) ∨
  (a ≠ NULL ∧
   ∃ j p t idx,
     pools !! j = Some p ∧ pool_ptrs p = Some t ∧ t !! idx = Some a ∧
     wcnss_prealloc_put a (mk_machine (Some pools) tr dm) =
     Done (1, mk_machine
                (Some (<[j:=set_pool_ptrs p (Some (<[idx:=NULL]> t))]> pools))
                (tr ++ [KMempoolFree j a]) dm)).
Proof.
  intros Hs. destruct (decide (a = NULL)) as [->|Ha].
  { left. by exists dm. }
  rewrite put_eq by done. rewrite Nat.sub_0_r.
  destruct (put_loop_outcomes a pools tr dm (length pools) 0 Hs)
    as [H|H]; [lia|by left|by right].
Qed.

Lemma serve_step r st (pools : list cnss_pool) :
  cnss_pools st = Some pools → pools ≠ [] → Forall (headroom 1) pools →
  ∃ st' pools',
    serve r st = Done st' ∧ cnss_pools st' = Some pools' ∧
    Forall2 (tier_after 1) pools pools' ∧
    ktrace st `prefix_of` ktrace st'.
Proof.
  destruct st as [ps tr dm]. simpl. intros -> Hne Hroom.
  assert (Forall table_ok pools) as Hok.
  { eapply Forall_impl; [exact Hroom|]. intros p [Hs Hcap].
    split; [done|]. unfold INT_MAX in *. lia. }
  pose proof (table_ok_sized _ Hok) as Hs.
  assert (Forall2 (tier_after 1) pools pools) as Hsame.
  { apply Forall2_same_length_lookup. split; [done|].
    intros i x y Hx Hy. assert (y = x) as -> by congruence.
    apply tier_after_refl. by eapply Forall_lookup_1. }
  destruct r as [env sz|a]; simpl.
  - destruct (get_outcomes env sz pools tr dm Hne Hok)
      as (r & tr' & dm' & Hpre & [[_ ->]|(j & pj & p' & Hj & Hch & ->)]).
    + by eexists _, _.
    + eexists _, _. split; [done|]. split; [done|]. split; [|done].
      eapply tier_after_insert; [done|done|].
      eapply get_changes_tier_after; [|done].
      by eapply Forall_lookup_1.
  - destruct (put_outcomes a pools tr dm Hs)
      as [[dm' ->]|(_ & j & p & t & idx & Hj & Ht & Hidx & ->)].
    + by eexists _, _.
    + eexists _, _. split; [done|]. split; [done|].
      split; [|by apply prefix_app_r].
      eapply tier_after_insert; [done|done|].
      pose proof (Forall_lookup_1 _ _ _ _ Hs Hj) as [Hcap Hlen].
      rewrite Ht in Hlen. unfold tier_after, same_config, table_sized.
      destruct p; simpl in *; subst. rewrite length_insert.
      repeat split; try done; lia.
Qed.

Lemma tier_after_trans n m p q r :
  tier_after n p q → tier_after m q r → tier_after (n + m) p r.
Proof.
  intros ((H1 & H2 & H3 & H4 & H5) & _ & Hc & Hn)
         ((G1 & G2 & G3 & G4 & G5) & Gs & Gc & Gn).
  unfold tier_after, same_config.
  repeat split; try congruence; try apply Gs; try lia. auto.
Qed.

Lemma serve_all_steps rs st (pools : list cnss_pool) :
  cnss_pools st = Some pools → pools ≠ [] →
  Forall (headroom (length rs)) pools →
  ∃ st' pools',
    serve_all rs st = Done st' ∧ cnss_pools st' = Some pools' ∧
    Forall2 (tier_after (length rs)) pools pools' ∧
    ktrace st `prefix_of` ktrace st'.
Proof.
  induction rs as [|r rs IH] in st, pools |- *; intros Hst Hne Hroom.
  { exists st, pools. split; [done|]. split; [done|]. split; [|done].
    apply Forall2_same_length_lookup. split; [done|].
    intros i x y Hx Hy. assert (y = x) as -> by congruence.
    apply tier_after_refl.
    by destruct (Forall_lookup_1 _ _ _ _ Hroom Hx). }
  destruct (serve_step r st pools Hst Hne) as (st1 & pools1 & Hr & Hst1 & H1 & Hp1).
  { eapply Forall_impl; [exact Hroom|]. intros p [Hs Hcap].
    split; [done|]. simpl in Hcap. lia. }
  destruct (IH st1 pools1 Hst1) as (st' & pools' & Hrs & Hst' & H2 & Hp2).
  { apply Forall2_length in H1. destruct pools, pools1; done. }
  { apply Forall_lookup. intros i q Hq.
    destruct (Forall2_lookup_r _ _ _ _ _ H1 Hq) as (p & Hp & Hpq).
    destruct (Forall_lookup_1 _ _ _ _ Hroom Hp) as [_ Hcap].
    destruct Hpq as (_ & Hs & Hc & _). split; [done|].
    simpl in Hcap. lia. }
  exists st', pools'. simpl. rewrite Hr. split; [done|]. split; [done|].
  split; [|by etrans].
  apply Forall2_same_length_lookup. split.
  { apply Forall2_length in H1, H2. congruence. }
  intros i x z Hx Hz.
  destruct (Forall2_lookup_l _ _ _ _ _ H1 Hx) as (y & Hy & Hxy).
  pose proof (Forall2_lookup_lr _ _ _ _ _ _ H2 Hy Hz) as Hyz.
  exact (tier_after_trans 1 (length rs) x y z Hxy Hyz).
Qed.

(** X4. [wcnss_prealloc_put] releases only what it finds in a table.  On
    well-sized tables it never faults and has two outcomes.  Either it
    returns 0, and then no tier is changed and no kernel service is called;
    or it returns 1, and then the address was recorded in a slot of some
    tier [j], exactly that slot is cleared, and the only kernel call is one
    [mempool_free] of that address to tier [j]. *)
Theorem put_frees_only_what_it_finds a st (pools : list cnss_pool) :
  cnss_pools st = Some pools → Forall table_sized pools →
  ∃ r st',
    wcnss_prealloc_put a st = Done (r, st') ∧
    ((r = 0 ∧ cnss_pools st' = Some pools ∧ ktrace st' = ktrace st) ∨
     (r = 1 ∧ a ≠ NULL ∧
      ∃ j p (t : list Z) idx,
        pools !! j = Some p ∧ pool_ptrs p = Some t ∧ t !! idx = Some a ∧
        cnss_pools st' =
          Some (<[j:=set_pool_ptrs p (Some (<[idx:=NULL]> t))]> pools) ∧
        ktrace st' = ktrace st ++ [KMempoolFree j a] ∧
        dmesg st' = dmesg st)).
Proof.
  destruct st as [ps tr dm]. simpl. intros -> Hs.
  destruct (put_outcomes a pools tr dm Hs)
    as [[dm' ->]|(Ha & j & p & t & idx & Hj & Ht & Hidx & ->)].
  - eexists 0, _. split; [done|]. by left.
  - eexists 1, _. split; [done|]. right. do 2 (split; [done|]).
    by exists j, p, t, idx.
Qed.

Lemma put_frees_only_what_it_finds_witness :
  ∃ r st', wcnss_prealloc_put 20480 st_held = Done (r, st').
Proof.
  destruct (put_frees_only_what_it_finds 20480 st_held
              (tiersA (Some [0; 0]) (Some [20480; 0])))
    as (r & st' & H & _).
  - reflexivity.
  - apply table_ok_sized. unfold tiersA. solve_tables_ok.
  - by exists r, st'.
Defined.

(** X5. No sequence of acquire and release requests faults: starting from
    a bound, non-empty tier array whose tables are well sized and can grow
    once per request without their capacity passing [INT_MAX], every
    request of the sequence returns, the number of tiers stays the same,
    every table is still well sized at the end (its capacity is the length
    of the table, when there is one), and the kernel trace is only
    extended. *)
Theorem requests_never_fault rs st (pools : list cnss_pool) :
  cnss_pools st = Some pools → pools ≠ [] →
  Forall (headroom (length rs)) pools →
  ∃ st' (pools' : list cnss_pool),
    serve_all rs st = Done st' ∧ cnss_pools st' = Some pools' ∧
    length pools' = length pools ∧ Forall table_sized pools' ∧
    ktrace st `prefix_of` ktrace st'.
Proof.
  intros Hst Hne Hroom.
  destruct (serve_all_steps rs st pools Hst Hne Hroom)
    as (st' & pools' & Hrun & Hst' & Hall & Hpre).
  exists st', pools'. do 2 (split; [done|]).
  split; [symmetry; by eapply Forall2_length|]. split; [|done].
  apply Forall_lookup. intros i q Hq.
  destruct (Forall2_lookup_r _ _ _ _ _ Hall Hq) as (p & _ & _ & Hs & _).
  done.
Qed.

Lemma requests_never_fault_witness :
  ∃ st',
    serve_all [ReqGet (kernel_says (λ _, 4096) None) 8192; ReqPut 4096;
               ReqPut 4096] st_ready = Done st'.
Proof.
  destruct (requests_never_fault
              [ReqGet (kernel_says (λ _, 4096) None) 8192; ReqPut 4096;
               ReqPut 4096] st_ready (tiersA (Some [0; 0]) (Some [0; 0])))
    as (st' & pools' & H & _).
  - reflexivity.
  - discriminate.
  - unfold tiersA, headroom, table_sized, INT_MAX.
    repeat constructor; simpl; lia.
  - by exists st'.
Defined.

(** X6. Requests never change how a tier is configured: after any sequence
    of acquire and release requests (under the conditions of X5) every tier
    has the block size, the reserve minimum, the name, the mempool and the
    cache it had before, and a tier whose table was lost still has none. *)
Theorem requests_keep_configuration rs st (pools : list cnss_pool) :
  cnss_pools st = Some pools → pools ≠ [] →
  Forall (headroom (length rs)) pools →
  ∃ st' (pools' : list cnss_pool),
    serve_all rs st = Done st' ∧ cnss_pools st' = Some pools' ∧
    ∀ i p, pools !! i = Some p →
      ∃ p', pools' !! i = Some p' ∧ same_config p p' ∧
            (pool_ptrs p = None → pool_ptrs p' = None).
Proof.
  intros Hst Hne Hroom.
  destruct (serve_all_steps rs st pools Hst Hne Hroom)
    as (st' & pools' & Hrun & Hst' & Hall & Hpre).
  exists st', pools'. do 2 (split; [done|]). intros i p Hp.
  destruct (Forall2_lookup_l _ _ _ _ _ Hall Hp) as (p' & Hp' & Hc & _ & _ & Hn).
  by exists p'.
Qed.

Lemma requests_keep_configuration_witness :
  ∃ st' (pools' : list cnss_pool),
    serve_all [ReqGet (kernel_says (λ _, 4096) None) 8192] st_full8k
      = Done st' ∧
    cnss_pools st' = Some pools' ∧
    ∃ p', pools' !! 0%nat = Some p' ∧ size p' = 8192.
Proof.
  destruct (requests_keep_configuration
              [ReqGet (kernel_says (λ _, 4096) None) 8192] st_full8k
              (tiersA (Some [4096; 12288]) (Some [0; 0])))
    as (st' & pools' & H & Hst' & Hall).
  - reflexivity.
  - discriminate.
  - unfold tiersA, headroom, table_sized, INT_MAX.
    repeat constructor; simpl; lia.
  - destruct (Hall 0%nat (tier8k (Some [4096; 12288])) eq_refl)
      as (p' & Hp' & (Hsz & _) & _).
    exists st', pools'. do 2 (split; [done|]). by exists p'.
Defined.

(** X7. The capacity of a tracking table never shrinks and grows by at
    most one per request; so a tier that has a table with room for its
    reserve, as [cnss_pool_init] builds it, still has room for its reserve
    after any sequence of requests (under the conditions of X5). *)
Theorem capacity_only_grows rs st (pools : list cnss_pool) :
  cnss_pools st = Some pools → pools ≠ [] →
  Forall (headroom (length rs)) pools →
  ∃ st' (pools' : list cnss_pool),
    serve_all rs st = Done st' ∧ cnss_pools st' = Some pools' ∧
    ∀ i p p', pools !! i = Some p → pools' !! i = Some p' →
      table_capacity p <= table_capacity p'
        <= table_capacity p + Z.of_nat (length rs) ∧
      (reserve_covered p → reserve_covered p').
Proof.
  intros Hst Hne Hroom.
  destruct (serve_all_steps rs st pools Hst Hne Hroom)
    as (st' & pools' & Hrun & Hst' & Hall & Hpre).
  exists st', pools'. do 2 (split; [done|]). intros i p p' Hp Hp'.
  destruct (Forall2_lookup_lr _ _ _ _ _ _ Hall Hp Hp')
    as ((_ & Hmin & _) & _ & Hc & Hn).
  split; [done|]. intros Hcov Hsome. rewrite Hmin.
  assert (pool_ptrs p ≠ None) as Hp0 by (intros H; by apply Hsome, Hn).
  specialize (Hcov Hp0). lia.
Qed.

Lemma capacity_only_grows_witness :
  ∃ st' (pools' : list cnss_pool),
    serve_all [ReqGet (kernel_says (λ _, 4096) (Some 1024)) 8192] st_full8k
      = Done st' ∧
    cnss_pools st' = Some pools' ∧
    ∀ p', pools' !! 0%nat = Some p' → 2 <= table_capacity p' <= 3.
Proof.
  destruct (capacity_only_grows
              [ReqGet (kernel_says (λ _, 4096) (Some 1024)) 8192] st_full8k
              (tiersA (Some [4096; 12288]) (Some [0; 0])))
    as (st' & pools' & H & Hst' & Hall).
  - reflexivity.
  - discriminate.
  - unfold tiersA, headroom, table_sized, INT_MAX.
    repeat constructor; simpl; lia.
  - exists st', pools'. do 2 (split; [done|]). intros p' Hp'.
    destruct (Hall 0%nat (tier8k (Some [4096; 12288])) p' eq_refl Hp')
      as [Hc _]. simpl in Hc. lia.
Defined.

(** ** cnss_pool_init: the calls it makes *)

Lemma init_loop_trace env rest done tr dm :
  ∃ dm',
    init_loop env (length rest) (length done)
      (mk_machine (Some (done ++ rest)) tr dm) =
    Done (tt, mk_machine (Some (done ++ init_tiers env (length done) rest))
                (tr ++ init_trace env (length done) rest) dm').
Proof.
  induction rest as [|p rest IH] in done, tr, dm |- *.
  { exists dm. simpl. by rewrite !app_nil_r. }
  assert (∀ q tr1 dm1, ∃ dm',
            init_loop env (length rest) (S (length done))
              (mk_machine (Some (done ++ q :: rest)) tr1 dm1) =
            Done (tt, mk_machine
                        (Some (done ++ q ::
                                 init_tiers env (S (length done)) rest))
                        (tr1 ++ init_trace env (S (length done)) rest)
                        dm')) as Hstep.
  { intros q tr1 dm1. specialize (IH (done ++ [q]) tr1 dm1).
    rewrite length_app, Nat.add_1_r, <- !app_assoc in IH. exact IH. }
  cbn [length init_loop init_tiers init_trace]. unfold init_tier, init_calls.
  rewrite kbind_read_middle, kbind_call, kbind_write_middle.
  destruct (env_kmem_cache_create env (length done) =? NULL).
  { rewrite kbind_pr. edestruct Hstep as [dm' ->]. exists dm'.
    by rewrite <- !app_assoc. }
  rewrite kbind_call, kbind_write_middle.
  destruct (env_mempool_create env (length done) =? NULL).
  { rewrite kbind_pr, kbind_call, kbind_write_middle.
    edestruct Hstep as [dm' ->]. exists dm'. by rewrite <- !app_assoc. }
  rewrite kbind_write_middle, kbind_call, kbind_write_middle.
  cbn [min name size set_table_capacity set_mp set_cache set_pool_ptrs].
  destruct (env_kmalloc env (length done)) as [g|];
    cbn [fmap option_fmap option_map].
  - rewrite kbind_kret, kbind_pr. edestruct Hstep as [dm' ->]. exists dm'.
    by rewrite <- !app_assoc.
  - rewrite kbind_assoc, !kbind_pr. edestruct Hstep as [dm' ->]. exists dm'.
    by rewrite <- !app_assoc.
Qed.

Lemma init_run env (pools : list cnss_pool) tr dm :
  ∃ dm',
    cnss_pool_init env (mk_machine (Some pools) tr dm) =
    Done (0, mk_machine (Some (init_tiers env 0 pools))
               (tr ++ init_trace env 0 pools) dm').
Proof.
  destruct (init_loop_trace env pools [] tr dm) as (dm' & Hloop).
  exists dm'. unfold cnss_pool_init, kbind. simpl in *.
  unfold cnss_prealloc_pool_size. by rewrite Hloop.
Qed.

Lemma init_trace_no_loan env i l acc :
  foldl loan_step acc (init_trace env i l) = acc.
Proof.
  induction l as [|p l IH] in i, acc |- *; [done|].
  simpl. rewrite foldl_app, IH. unfold init_calls.
  destruct (_ =? NULL); [done|]. by destruct (_ =? NULL).
Qed.


Lemma init_tier_config env i p :
  size (init_tier env i p) = size p ∧ min (init_tier env i p) = min p ∧
  name (init_tier env i p) = name p.
Proof.
  unfold init_tier. destruct (_ =? NULL); [by destruct p|].
  destruct (_ =? NULL); by destruct p.
Qed.



Lemma kmalloc_block_lookup n g k :
  0 <= n <= INT_MAX → (k < Z.to_nat n)%nat →
  kmalloc_block (table_bytes n) g !! k = Some (g k).
Proof.
  intros Hn Hk. unfold kmalloc_block.
  rewrite slots_of_table_bytes by (unfold INT_MAX in Hn; lia).
  rewrite list_lookup_fmap, lookup_seq_lt by done. done.
Qed.

Lemma init_tier_built env i p g :
  env_kmem_cache_create env i ≠ NULL → env_mempool_create env i ≠ NULL →
  env_kmalloc env i = Some g →
  pool_ptrs (init_tier env i p) =
    Some (kmalloc_block (table_bytes (min p)) g) ∧
  name (init_tier env i p) = name p.
Proof.
  intros Hc%Z.eqb_neq Hm%Z.eqb_neq Hg. unfold init_tier.
  rewrite Hc, Hm, Hg. by destruct p.
Qed.

Lemma init_tiers_audit_safe env (pools : list cnss_pool) :
  Forall static_row pools → (∀ i, is_Some (env_kmalloc env i)) →
  Forall audit_safe (init_tiers env 0 pools).
Proof.
  intros Hrows Hk. apply Forall_lookup. intros i q Hq.
  rewrite init_tiers_lookup in Hq.
  destruct (pools !! i) as [p|] eqn:Hp; [|done]. injection Hq as <-.
  pose proof (Forall_lookup_1 _ _ _ _ Hrows Hp) as Hrow.
  split; [by apply init_tier_sized|].
  destruct Hrow as (Hnone & Hcap & _). simpl. unfold init_tier.
  destruct (_ =? NULL); [by destruct p|].
  destruct (_ =? NULL); [by destruct p|].
  destruct (Hk i) as [g ->]. by destruct p.
Qed.

(** X9. With table memory that is zero, [cnss_pool_init] on static rows
    gives a consistent empty allocator: it returns 0, every slot of every
    table is empty, the tables are well sized, no address is recorded
    twice, every recorded address is on loan, and nothing is on loan. *)
Theorem init_gives_empty_tables env (pools : list cnss_pool) :
  Forall static_row pools →
  (∀ i g k, env_kmalloc env i = Some g → g k = NULL) →
  ∃ st pools',
    cnss_pool_init env (boot pools) = Done (0, st) ∧
    cnss_pools st = Some pools' ∧ all_slots_empty pools' ∧
    pool_inv st ∧ on_loan (ktrace st) = [].
Proof.
  intros Hrows Hzero.
  destruct (init_establishes_inv env pools Hrows Hzero) as (st & Hinit & Hinv).
  destruct (init_run env pools [] []) as [dm' Hrun].
  unfold boot in Hinit. rewrite Hrun in Hinit. injection Hinit as <-.
  eexists _, _. split; [exact Hrun|]. simpl. split; [done|].
  split; [|split; [done|]].
  - intros i p t l v Hp Ht Hl. rewrite init_tiers_lookup in Hp.
    destruct (pools !! i) as [p0|] eqn:Hp0; [|done]. injection Hp as <-.
    destruct (Forall_lookup_1 _ _ _ _ Hrows Hp0) as (Hnone & _).
    revert Ht. unfold init_tier.
    destruct (_ =? NULL); [simpl; congruence|].
    destruct (_ =? NULL); [simpl; congruence|]. simpl.
    destruct (env_kmalloc env i) as [g|] eqn:Hg; [|done].
    intros [= <-]. unfold kmalloc_block in Hl.
    apply list_lookup_fmap_Some in Hl as (n & -> & _). by eapply Hzero.
  - unfold on_loan. apply init_trace_no_loan.
Qed.

Lemma init_gives_empty_tables_witness :
  ∃ st, cnss_pool_init (kernel_says (λ _, 0) None) (boot profileA)
        = Done (0, st) ∧ pool_inv st.
Proof.
  destruct (init_gives_empty_tables (kernel_says (λ _, 0) None) profileA)
    as (st & pools' & H & _ & _ & Hinv & _).
  - unfold profileA, row, static_row, INT_MAX. repeat constructor; simpl; lia.
  - intros i g k [= <-]. reflexivity.
  - by exists st.
Defined.

(** X10. The tracking table comes from [kmalloc] and is never cleared: a
    slot that holds a non-null word when the block is handed over counts
    as a recorded address.  Let [cnss_pool_init] run on static rows with a
    kernel that refuses no table, let tier [i] be built, and let slot [k]
    of its fresh table, below the reserve minimum, hold a non-null word.
    Then, with no block ever taken from a mempool,
    [wcnss_check_pool_lists] ends normally and reports that word as a
    block of tier [i] that has not been freed. *)
Theorem uninitialised_table_reports_leaks env (pools : list cnss_pool)
    i p g k :
  Forall static_row pools → (∀ j, is_Some (env_kmalloc env j)) →
  pools !! i = Some p →
  env_kmem_cache_create env i ≠ NULL → env_mempool_create env i ≠ NULL →
  env_kmalloc env i = Some g → (k < Z.to_nat (min p))%nat → g k ≠ NULL →
  ∃ st1 st2,
    cnss_pool_init env (boot pools) = Done (0, st1) ∧
    on_loan (ktrace st1) = [] ∧
    wcnss_check_pool_lists st1 = Done (tt, st2) ∧
    MsgNotFreed (g k) (name p) k ∈ dmesg st2.
Proof.
  intros Hrows Hk Hp Hc Hm Hg Hlt Hv.
  destruct (init_run env pools [] []) as [dm' Hrun].
  eexists _, _. split; [exact Hrun|]. simpl.
  split; [unfold on_loan; apply init_trace_no_loan|].
  rewrite check_eq.
  rewrite (check_loop_run _ _ _ _ 0);
    [|done|rewrite drop_0; by apply init_tiers_audit_safe].
  split; [done|]. simpl. rewrite drop_0.
  apply elem_of_app. right.
  destruct (init_tier_built env i p g Hc Hm Hg) as [Ht Hn].
  destruct (Forall_lookup_1 _ _ _ _ Hrows Hp) as (_ & _ & Hmin).
  rewrite <- Hn.
  eapply (leak_reports_complete _ i); [|exact Ht| |done].
  - by rewrite init_tiers_lookup, Hp.
  - by apply kmalloc_block_lookup.
Qed.

Lemma uninitialised_table_reports_leaks_witness :
  ∃ st1 st2,
    cnss_pool_init
      (mk_kernel false (λ _, 0) None (λ i, 256 + Z.of_nat i)
         (λ i, 512 + Z.of_nat i) (λ _, Some (λ _, 3735928559)))
      (boot profileA) = Done (0, st1) ∧
    wcnss_check_pool_lists st1 = Done (tt, st2) ∧
    MsgNotFreed 3735928559 "cnss-pool-8k" 1 ∈ dmesg st2.
Proof.
  destruct (uninitialised_table_reports_leaks
              (mk_kernel false (λ _, 0) None (λ i, 256 + Z.of_nat i)
                 (λ i, 512 + Z.of_nat i) (λ _, Some (λ _, 3735928559)))
              profileA 0 (row (8 * 1024) 2 "cnss-pool-8k")
              (λ _, 3735928559) 1)
    as (st1 & st2 & Hinit & _ & Hcheck & Hin).
  - unfold profileA, row, static_row, INT_MAX. repeat constructor; simpl; lia.
  - intros j. by eexists.
  - reflexivity.
  - simpl. unfold NULL. lia.
  - simpl. unfold NULL. lia.
  - reflexivity.
  - simpl. lia.
  - unfold NULL. lia.
  - by exists st1, st2.
Defined.

(** X11. The bookkeeping invariant is kept by every request: on a
    non-empty tier array whose capacities are below [INT_MAX], if the
    tables are well sized, no address is recorded in two slots and every
    recorded address is on loan, then the same holds after an acquire,
    provided the mempools hand out no address that is still on loan, and
    after a release of any address whatever. *)
Theorem request_keeps_pool_invariant r st (pools : list cnss_pool) :
  cnss_pools st = Some pools → pools ≠ [] → Forall table_ok pools →
  pool_inv st →
  (∀ env sz, r = ReqGet env sz → hands_out_fresh env st) →
  ∃ st', serve r st = Done st' ∧ pool_inv st'.
Proof.
  intros Hst Hne Hok Hinv Hfresh.
  destruct (serve_step r st pools Hst Hne) as (st' & _ & Hrun & _).
  { eapply Forall_impl; [exact Hok|]. intros p [Hs Hcap].
    split; [done|]. lia. }
  exists st'. split; [done|]. destruct r as [env sz|a]; simpl in Hrun.
  - destruct (wcnss_prealloc_get env sz st) as [[r st1]|] eqn:Hget; [|done].
    injection Hrun as ->.
    eapply get_keeps_inv; [done| |by eapply Hfresh|exact Hget].
    intros ps Hps. congruence.
  - destruct (wcnss_prealloc_put a st) as [[r st1]|] eqn:Hput; [|done].
    injection Hrun as ->. by eapply put_keeps_inv.
Qed.

Lemma request_keeps_pool_invariant_witness :
  ∃ st',
    serve (ReqGet (kernel_says (λ _, 20480) (Some 1024)) 8192) st_full8k
      = Done st' ∧
    pool_inv st'.
Proof.
  apply (request_keeps_pool_invariant
           (ReqGet (kernel_says (λ _, 20480) (Some 1024)) 8192) st_full8k
           (tiersA (Some [4096; 12288]) (Some [0; 0]))).
  - reflexivity.
  - discriminate.
  - unfold tiersA. solve_tables_ok.
  - exists (tiersA (Some [4096; 12288]) (Some [0; 0])).
    split; [reflexivity|].
    split; [apply table_ok_sized; unfold tiersA; solve_tables_ok|].
    split.
    + intros i p t k j q u l v Hp Ht Hk Hq Hu Hl Hv.
      destruct i as [|[|i]], j as [|[|j]]; simpl in Hp, Hq; try done;
        injection Hp as <-; injection Hq as <-;
        simpl in Ht, Hu; injection Ht as <-; injection Hu as <-;
        destruct k as [|[|k]], l as [|[|l]]; simpl in Hk, Hl; try done;
        injection Hk as <-; try done; injection Hl as Hl; done.
    + intros ps i p t v [= <-] Hp Ht Hin Hv.
      destruct i as [|[|i]]; simpl in Hp; try done; injection Hp as <-;
        simpl in Ht; injection Ht as <-;
        apply list_elem_of_In in Hin; simpl in Hin;
        destruct Hin as [<-|[<-|[]]]; try done;
        apply list_elem_of_In; vm_compute; auto.
  - intros env sz [= <- <-] i j _ Hin.
    apply list_elem_of_In in Hin. vm_compute in Hin.
    destruct Hin as [H|[H|[]]]; discriminate H.
Defined.

(** ** cnss_pool_deinit *)

Lemma deinit_loop_spec rest done tr dm :
  deinit_loop (length rest) (length done)
    (mk_machine (Some (done ++ rest)) tr dm) =
  Done (deinit_calls (length done) rest,
        mk_machine (Some (done ++ (torn_down <$> rest)))
          (tr ++ (KKmemCacheDestroy <$> seq (length done) (length rest)))
          dm).
Proof.
  induction rest as [|p rest IH] in done, tr |- *.
  { simpl. unfold kret. by rewrite !app_nil_r. }
  cbn [length deinit_loop deinit_calls].
  rewrite kbind_read_middle, kbind_call.
  rewrite !kbind_write_middle. unfold kbind at 1.
  specialize (IH (done ++ [torn_down p]) (tr ++ [KKmemCacheDestroy (length done)])).
  rewrite length_app, Nat.add_1_r, <- !app_assoc in IH.
  unfold torn_down in IH at 1. simpl in IH. simpl. rewrite IH.
  done.
Qed.

Lemma deinit_run (pools : list cnss_pool) tr dm :
  cnss_pool_deinit (mk_machine (Some pools) tr dm) =
  Done (deinit_calls 0 pools,
        mk_machine (Some (torn_down <$> pools))
          (tr ++ (KKmemCacheDestroy <$> seq 0 (length pools))) dm).
Proof.
  unfold cnss_pool_deinit, cnss_prealloc_pool_size. simpl.
  exact (deinit_loop_spec pools [] tr dm).
Qed.

Lemma torn_down_fields p :
  mp (torn_down p) = NULL ∧ cache (torn_down p) = NULL ∧
  pool_ptrs (torn_down p) = None ∧ size (torn_down p) = size p ∧
  min (torn_down p) = min p ∧ name (torn_down p) = name p ∧
  table_capacity (torn_down p) = table_capacity p.
Proof. by destruct p. Qed.

Lemma deinit_calls_elem i (l : list cnss_pool) j p :
  l !! j = Some p →
  InfoDestroy (name p) ∈ deinit_calls i l ∧
  MempoolDestroy (i + j) (mp p) ∈ deinit_calls i l ∧
  Kfree (i + j) (pool_ptrs p) ∈ deinit_calls i l.
Proof.
  induction l as [|q l IH] in i, j |- *; [done|].
  destruct j as [|j]; simpl.
  - intros [= ->]. rewrite Nat.add_0_r.
    repeat split; apply list_elem_of_In; simpl; auto.
  - intros Hp. destruct (IH (S i) j Hp) as (H1 & H2 & H3).
    rewrite Nat.add_succ_r.
    repeat split; rewrite !elem_of_cons; auto.
Qed.

(** X12. [cnss_deinitialize_prealloc_pool] never faults.  With no table
    bound it does nothing.  Otherwise the table stays bound and every tier
    keeps its size, reserve, name and [table_capacity] while its mempool,
    cache and tracking table become null; the mempool is destroyed, the
    cache is destroyed and the table is handed to [kfree] with whatever
    addresses it still records, and no line about them is written to the
    log. *)
Theorem deinit_clears_every_tier st :
  ∃ calls st',
    cnss_deinitialize_prealloc_pool st = Done (calls, st') ∧
    dmesg st' = dmesg st ∧
    (cnss_pools st = None → calls = [] ∧ st' = st) ∧
    ∀ pools : list cnss_pool, cnss_pools st = Some pools →
      ∃ pools' : list cnss_pool,
        cnss_pools st' = Some pools' ∧ length pools' = length pools ∧
        ∀ i p, pools !! i = Some p →
          (∃ p', pools' !! i = Some p' ∧
             mp p' = NULL ∧ cache p' = NULL ∧ pool_ptrs p' = None ∧
             size p' = size p ∧ min p' = min p ∧ name p' = name p ∧
             table_capacity p' = table_capacity p) ∧
          MempoolDestroy i (mp p) ∈ calls ∧
          Kfree i (pool_ptrs p) ∈ calls ∧
          KKmemCacheDestroy i ∈ drop (length (ktrace st)) (ktrace st').
Proof.
  destruct st as [[pools|] tr dm].
  2:{ exists [], (mk_machine None tr dm). by repeat split. }
  eexists _, _. split; [apply deinit_run|]. simpl.
  split; [done|]. split; [done|]. intros ? [= <-].
  exists (torn_down <$> pools). split; [done|].
  split; [by rewrite length_fmap|]. intros i p Hp. split.
  { exists (torn_down p). split; [by rewrite list_lookup_fmap, Hp|].
    apply torn_down_fields. }
  destruct (deinit_calls_elem 0 pools i p Hp) as (_ & H2 & H3).
  do 2 (split; [done|]). rewrite drop_app_length.
  apply list_elem_of_fmap. exists i. split; [done|].
  apply elem_of_seq. pose proof (lookup_lt_Some _ _ _ Hp). lia.
Qed.

Lemma get_without_mempools env sz (pools : list cnss_pool) tr dm :
  pools ≠ [] → (∀ p, p ∈ pools → mp p = NULL) →
  ∃ dm', wcnss_prealloc_get env sz (mk_machine (Some pools) tr dm) =
         Done (NULL, mk_machine (Some pools) tr dm').
Proof.
  intros Hne Hmp.
  destruct (pools !! 0%nat) as [p0|] eqn:Hp0; [|by destruct pools].
  destruct (Z_lt_le_dec sz (size p0)) as [Hlt|Hle].
  { exists dm. by apply (get_below _ _ _ _ _ p0). }
  assert (∀ k q, pools !! k = Some q → candidate sz q = false) as Hc.
  { intros k q Hq. unfold candidate.
    rewrite (Hmp q) by (by eapply list_elem_of_lookup_2).
    simpl. apply andb_false_r. }
  eexists. rewrite get_exhausted.
  - rewrite failed_allocs_none, app_nil_r; [done|]. intros k q _. apply Hc.
  - by exists p0.
  - intros k q _ Hq. left. by eapply Hc.
Qed.

Lemma put_without_mempools a (pools : list cnss_pool) tr dm :
  Forall table_sized pools → (∀ p, p ∈ pools → mp p = NULL) →
  wcnss_prealloc_put a (mk_machine (Some pools) tr dm) =
  Done (0, mk_machine (Some pools) tr dm).
Proof.
  intros Hs Hmp. destruct (decide (a = NULL)) as [->|Ha]; [done|].
  rewrite put_eq by done.
  rewrite (put_loop_run a pools tr dm (length pools) 0 Hs); [|lia|].
  - simpl. by rewrite Nat.sub_diag.
  - intros k p _ Hp. left. by eapply Hmp, list_elem_of_lookup_2.
Qed.

Lemma torn_down_sized (pools : list cnss_pool) :
  Forall table_sized pools → Forall table_sized (torn_down <$> pools).
Proof.
  intros Hs. apply Forall_fmap. eapply Forall_impl; [exact Hs|].
  intros p [Hcap _]. split; by destruct p.
Qed.

(** X13. After [cnss_deinitialize_prealloc_pool] the allocator serves
    nothing and touches nothing: every [wcnss_prealloc_get] returns [NULL]
    and every [wcnss_prealloc_put] returns 0, neither faults, and neither
    calls a kernel service or changes a tier. *)
Theorem get_and_put_after_deinit st (pools : list cnss_pool) :
  cnss_pools st = Some pools → pools ≠ [] → Forall table_sized pools →
  ∃ calls st1,
    cnss_deinitialize_prealloc_pool st = Done (calls, st1) ∧
    (∀ env sz, ∃ st2,
       wcnss_prealloc_get env sz st1 = Done (NULL, st2) ∧
       cnss_pools st2 = cnss_pools st1 ∧ ktrace st2 = ktrace st1) ∧
    (∀ a, wcnss_prealloc_put a st1 = Done (0, st1)).
Proof.
  destruct st as [ps tr dm]. simpl. intros -> Hne Hs.
  eexists _, _. split; [apply deinit_run|].
  assert (∀ p, p ∈ torn_down <$> pools → mp p = NULL) as Hmp.
  { intros p (q & -> & _)%list_elem_of_fmap. by destruct q. }
  split.
  - intros env sz.
    destruct (get_without_mempools env sz (torn_down <$> pools)
                (tr ++ (KKmemCacheDestroy <$> seq 0 (length pools))) dm)
      as [dm' ->]; [by destruct pools|done|].
    by eexists.
  - intros a. apply put_without_mempools; [by apply torn_down_sized|done].
Qed.

Lemma get_and_put_after_deinit_witness :
  ∃ calls st1,
    cnss_deinitialize_prealloc_pool st_held = Done (calls, st1) ∧
    wcnss_prealloc_put 20480 st1 = Done (0, st1).
Proof.
  destruct (get_and_put_after_deinit st_held
              (tiersA (Some [0; 0]) (Some [20480; 0])))
    as (calls & st1 & H & _ & Hput).
  - reflexivity.
  - discriminate.
  - apply table_ok_sized. unfold tiersA. solve_tables_ok.
  - by exists calls, st1.
Defined.

(** X14. [cnss_pool_deinit] frees the tracking tables but keeps their
    capacity, so the leak audit must not follow it: after
    [cnss_deinitialize_prealloc_pool], [wcnss_check_pool_lists] reads
    through a null table as soon as one tier had a table capacity above
    zero. *)
Theorem audit_after_deinit_faults st (pools : list cnss_pool) i p :
  cnss_pools st = Some pools → Forall table_sized pools →
  pools !! i = Some p → 0 < table_capacity p →
  ∃ calls st1,
    cnss_deinitialize_prealloc_pool st = Done (calls, st1) ∧
    wcnss_check_pool_lists st1 = Fault.
Proof.
  destruct st as [ps tr dm]. simpl. intros -> Hs Hp Hcap.
  eexists _, _. split; [apply deinit_run|].
  eapply (check_faults _ _ _ i (torn_down p)).
  - by apply torn_down_sized.
  - by rewrite list_lookup_fmap, Hp.
  - by destruct p.
  - by destruct p.
Qed.

Lemma audit_after_deinit_faults_witness :
  ∃ calls st1,
    cnss_deinitialize_prealloc_pool st_initA = Done (calls, st1) ∧
    wcnss_check_pool_lists st1 = Fault.
Proof.
  apply (audit_after_deinit_faults st_initA
           (tiersA (Some [0; 0]) (Some [0; 0])) 0 (tier8k (Some [0; 0]))).
  - reflexivity.
  - apply table_ok_sized. unfold tiersA. solve_tables_ok.
  - reflexivity.
  - simpl. lia.
Defined.

Lemma init_tier_after_torn_down env1 env2 i p :
  static_row p → mp p = NULL → cache p = NULL →
  (env_kmem_cache_create env1 i ≠ NULL ∧ env_mempool_create env1 i ≠ NULL →
   env_kmem_cache_create env2 i ≠ NULL ∧ env_mempool_create env2 i ≠ NULL) →
  init_tier env2 i (torn_down (init_tier env1 i p)) = init_tier env2 i p.
Proof.
  intros (Hnone & Hcap & _) Hmp Hcache Hbuilt. unfold init_tier.
  destruct (env_kmem_cache_create env1 i =? NULL) eqn:Hc1;
    [|destruct (env_mempool_create env1 i =? NULL) eqn:Hm1].
  1,2: destruct (env_kmem_cache_create env2 i =? NULL);
       [|destruct (env_mempool_create env2 i =? NULL)];
       destruct p; simpl in *; by subst.
  apply Z.eqb_neq in Hc1, Hm1.
  destruct Hbuilt as [Hc2%Z.eqb_neq Hm2%Z.eqb_neq]; [done|].
  rewrite Hc2, Hm2. by destruct p.
Qed.

(** X15. Initialisation can be repeated after a teardown: on static rows,
    [cnss_pool_init], then [cnss_pool_deinit], then [cnss_pool_init] again
    leaves the tiers as a first initialisation with the second kernel
    answers would, provided every tier that was built the first time is
    built again. *)
Theorem init_after_deinit_rebuilds env1 env2 (pools : list cnss_pool) :
  Forall static_row pools →
  (∀ p, p ∈ pools → mp p = NULL ∧ cache p = NULL) →
  (∀ i, env_kmem_cache_create env1 i ≠ NULL ∧
        env_mempool_create env1 i ≠ NULL →
        env_kmem_cache_create env2 i ≠ NULL ∧
        env_mempool_create env2 i ≠ NULL) →
  ∃ st1 calls st2 st3 fresh,
    cnss_pool_init env1 (boot pools) = Done (0, st1) ∧
    cnss_pool_deinit st1 = Done (calls, st2) ∧
    cnss_pool_init env2 st2 = Done (0, st3) ∧
    cnss_pool_init env2 (boot pools) = Done (0, fresh) ∧
    cnss_pools st3 = cnss_pools fresh.
Proof.
  intros Hrows Hnull Hbuilt.
  destruct (init_run env1 pools [] []) as [dm1 H1].
  destruct (init_run env2 (torn_down <$> init_tiers env1 0 pools)
              ([] ++ init_trace env1 0 pools ++
               (KKmemCacheDestroy <$>
                  seq 0 (length (init_tiers env1 0 pools)))) dm1)
    as [dm3 H3].
  destruct (init_run env2 pools [] []) as [dm4 H4].
  eexists _, _, _, _, _. split; [exact H1|].
  split; [apply deinit_run|].
  split; [simpl in *; exact H3|]. split; [exact H4|].
  simpl. f_equal. apply list_eq. intros i.
  rewrite !init_tiers_lookup, list_lookup_fmap, init_tiers_lookup. simpl.
  destruct (pools !! i) as [p|] eqn:Hp; [|done]. simpl. f_equal.
  destruct (Hnull p) as [Hmp Hcache]; [by eapply list_elem_of_lookup_2|].
  apply init_tier_after_torn_down; [|done|done|apply Hbuilt].
  by eapply Forall_lookup_1.
Qed.

Lemma init_after_deinit_rebuilds_witness :
  ∃ st1 calls st2 st3,
    cnss_pool_init (kernel_says (λ _, 0) None) (boot profileA)
      = Done (0, st1) ∧
    cnss_pool_deinit st1 = Done (calls, st2) ∧
    cnss_pool_init (kernel_says (λ _, 0) None) st2 = Done (0, st3) ∧
    cnss_pools st3 = cnss_pools st1.
Proof.
  destruct (init_after_deinit_rebuilds (kernel_says (λ _, 0) None)
              (kernel_says (λ _, 0) None) profileA)
    as (st1 & calls & st2 & st3 & fresh & H1 & H2 & H3 & H4 & H5).
  - unfold profileA, row, static_row, INT_MAX. repeat constructor; simpl; lia.
  - intros p Hp. apply list_elem_of_In in Hp. simpl in Hp.
    destruct Hp as [<-|[<-|[]]]; by split.
  - done.
  - exists st1, calls, st2, st3. do 3 (split; [done|]).
    rewrite H5. rewrite H1 in H4. by injection H4 as <-.
Defined.

(** ** cnss_initialize_prealloc_pool *)

Lemma init_tiers_sizes env i (l : list cnss_pool) :
  size <$> init_tiers env i l = size <$> l ∧
  min <$> init_tiers env i l = min <$> l.
Proof.
  induction l as [|p l IH] in i |- *; [done|].
  cbn [init_tiers fmap list_fmap].
  destruct (IH (S i)) as [H1 H2].
  destruct (init_tier_config env i p) as (-> & -> & _).
  split; f_equal; [exact H1|exact H2].
Qed.

(** X16. Whatever the device id and whatever the kernel refuses,
    [cnss_initialize_prealloc_pool] on the tables as they are when the
    module is loaded ends with five tiers of 8, 16, 32, 64 and 128 KiB.
    The reserves are those of the adrastea table for the Adrastea id, of
    the wcn6750 table for the WCN6750 id and of the default table for any
    other id.  Afterwards a request below 8192 bytes returns [NULL] and
    changes nothing, and a request above 131072 bytes returns [NULL] with
    one log line and no kernel call. *)
Theorem initialize_serves_8k_to_128k adrastea_id wcn6750_id env device_id st :
  ∃ notes st1 (pools1 : list cnss_pool),
    cnss_initialize_prealloc_pool adrastea_id wcn6750_id pristine env
      device_id st = Done (notes, st1) ∧
    cnss_pools st1 = Some pools1 ∧
    size <$> pools1 = [8192; 16384; 32768; 65536; 131072] ∧
    min <$> pools1 =
      (if device_id =? adrastea_id then [2; 10; 8; 4; 2]
       else if device_id =? wcn6750_id then [2; 8; 11; 15; 4]
       else [16; 16; 22; 38; 10]) ∧
    (∀ env' sz, sz < 8192 →
       wcnss_prealloc_get env' sz st1 = Done (NULL, st1)) ∧
    (∀ env' sz, 131072 < sz →
       wcnss_prealloc_get env' sz st1 =
       Done (NULL, add_msgs st1 [MsgNotAvailable sz (gfp_of env')])).
Proof.
  destruct st as [ps tr dm].
  set (table := if device_id =? adrastea_id then cnss_pools_adrastea
                else if device_id =? wcn6750_id then cnss_pools_wcn6750
                else cnss_pools_default).
  destruct (init_run env table tr dm) as [dm' Hrun].
  exists [InfoAssign device_id], (mk_machine (Some (init_tiers env 0 table))
                                   (tr ++ init_trace env 0 table) dm'),
    (init_tiers env 0 table).
  destruct (init_tiers_sizes env 0 table) as [Hsz Hmin].
  assert (size <$> table = [8192; 16384; 32768; 65536; 131072]) as Hsizes.
  { unfold table. destruct (_ =? _); [done|]. by destruct (_ =? _). }
  rewrite Hsizes in Hsz.
  split.
  { unfold cnss_initialize_prealloc_pool, cnss_assign_prealloc_pool, kbind.
    simpl. fold table. unfold kbind in Hrun |- *. simpl in *.
    by rewrite Hrun. }
  split; [done|]. split; [done|]. split.
  { rewrite Hmin. unfold table.
    destruct (_ =? _); [done|]. by destruct (_ =? _). }
  assert (∃ p0, init_tiers env 0 table !! 0%nat = Some p0 ∧ size p0 = 8192)
    as (p0 & Hp0 & Hs0).
  { destruct (init_tiers env 0 table) as [|p0 l]; [done|].
    exists p0. split; [done|]. by injection Hsz. }
  split.
  - intros env' sz Hlt. apply (get_below _ _ _ _ _ p0); [done|lia].
  - intros env' sz Hgt.
    assert (∀ k q, init_tiers env 0 table !! k = Some q →
                   candidate sz q = false) as Hc.
    { intros k q Hq. unfold candidate.
      assert (size q <= 131072) as Hq'.
      { assert ((size <$> init_tiers env 0 table) !! k = Some (size q)) as H
          by (by rewrite list_lookup_fmap, Hq).
        rewrite Hsz in H.
        do 5 (destruct k as [|k]; [injection H as <-; lia|]). done. }
      replace (sz <=? size q) with false by (symmetry; apply Z.leb_gt; lia).
      done. }
    rewrite get_exhausted.
    + rewrite failed_allocs_none; [|intros k q _; apply Hc].
      unfold add_msgs. simpl. by rewrite app_nil_r.
    + exists p0. split; [done|lia].
    + intros k q _ Hq. left. by eapply Hc.
Qed.

Lemma initialize_serves_8k_to_128k_witness :
  ∃ notes st1,
    cnss_initialize_prealloc_pool 62 26448 pristine
      (kernel_says (λ _, 0) None) 26448 (mk_machine None [] [])
      = Done (notes, st1) ∧
    wcnss_prealloc_get (kernel_says (λ _, 0) None) 100 st1
      = Done (NULL, st1) ∧
    wcnss_prealloc_get (kernel_says (λ _, 0) None) 200000 st1
      = Done (NULL, add_msgs st1 [MsgNotAvailable 200000 GFP_ZERO_KERNEL]).
Proof.
  destruct (initialize_serves_8k_to_128k 62 26448
              (kernel_says (λ _, 0) None) 26448 (mk_machine None [] []))
    as (notes & st1 & pools1 & Hrun & _ & _ & _ & Hlow & Hhigh).
  exists notes, st1. split; [exact Hrun|]. split.
  - apply Hlow. lia.
  - apply (Hhigh (kernel_says (λ _, 0) None)). lia.
Defined.

(** ** The release variant for kernels before 5.17 *)

Lemma get_index_loop_found c (pools : list cnss_pool) tr dm todo k i p :
  (k ≤ i < k + todo)%nat → pools !! i = Some p → cache p = c →
  (∀ l q, (k ≤ l < i)%nat → pools !! l = Some q → cache q ≠ c) →
  Pre517.get_index_loop c todo k (mk_machine (Some pools) tr dm) =
  Done (Z.of_nat i, mk_machine (Some pools) tr dm).
Proof.
  induction todo as [|n IH] in k |- *; intros Hk Hp Hc Hfirst; [lia|].
  destruct (decide (k = i)) as [->|Hne].
  - simpl. rewrite (kbind_read _ _ _ p) by done.
    apply Z.eqb_eq in Hc. by rewrite Hc.
  - destruct (lookup_lt_is_Some_2 pools k) as [q Hq].
    { apply lookup_lt_Some in Hp. lia. }
    simpl. rewrite (kbind_read _ _ _ q) by done.
    assert (cache q ≠ c) as Hqc by (eapply Hfirst; [|done]; lia).
    apply Z.eqb_neq in Hqc. rewrite Hqc.
    apply IH; [lia|done|done|]. intros l r Hl. apply Hfirst. lia.
Qed.

Lemma get_index_loop_none c (pools : list cnss_pool) tr dm todo k :
  (k + todo ≤ length pools)%nat →
  (∀ l q, pools !! l = Some q → cache q ≠ c) →
  Pre517.get_index_loop c todo k (mk_machine (Some pools) tr dm) =
  Done (- ENOENT, mk_machine (Some pools) tr dm).
Proof.
  induction todo as [|n IH] in k |- *; intros Hk Hnone; [done|].
  destruct (lookup_lt_is_Some_2 pools k) as [q Hq]; [lia|].
  simpl. rewrite (kbind_read _ _ _ q) by done.
  assert (cache q ≠ c) as Hqc by (by eapply Hnone).
  apply Z.eqb_neq in Hqc. rewrite Hqc. apply IH; [lia|done].
Qed.

Lemma get_index_owner pm mem (pools : list cnss_pool) tr dm i :
  owner_tier pm mem pools i →
  Pre517.cnss_pool_get_index pm mem (mk_machine (Some pools) tr dm) =
  Done (Z.of_nat i, mk_machine (Some pools) tr dm).
Proof.
  intros (Hv & Hpage%Z.eqb_neq & Hc%Z.eqb_neq & (p & Hp & Hpc) & Hfirst).
  unfold Pre517.cnss_pool_get_index. rewrite Hv, Hpage, Hc. simpl.
  eapply get_index_loop_found; [|done|done|].
  - apply lookup_lt_Some in Hp. unfold cnss_prealloc_pool_size. lia.
  - intros l q Hl. apply Hfirst. lia.
Qed.

Lemma get_index_no_owner pm mem (pools : list cnss_pool) tr dm :
  no_owner pm mem pools →
  ∃ e, e < 0 ∧
    Pre517.cnss_pool_get_index pm mem (mk_machine (Some pools) tr dm) =
    Done (e, mk_machine (Some pools) tr dm).
Proof.
  intros H. unfold Pre517.cnss_pool_get_index.
  destruct (virt_addr_valid pm mem) eqn:Hv; simpl.
  2:{ exists (- EINVAL). by split. }
  destruct (virt_to_head_page pm mem =? NULL) eqn:Hpage.
  { exists (- ENOENT). by split. }
  destruct (slab_cache pm (virt_to_head_page pm mem) =? NULL) eqn:Hc.
  { exists (- ENOENT). by split. }
  apply Z.eqb_neq in Hpage, Hc.
  destruct H as [?|[?|[?|Hnone]]]; [congruence..|].
  exists (- ENOENT). split; [done|].
  apply get_index_loop_none; [done|exact Hnone].
Qed.

Lemma kbind_done {A B} (c : kfun A) (k : A → kfun B) st a st' :
  c st = Done (a, st') → kbind c k st = k a st'.
Proof. intros H. unfold kbind. by rewrite H. Qed.

Lemma legacy_put_found pm a (pools : list cnss_pool) tr dm i p t k :
  a ≠ NULL → owner_tier pm a pools i → pools !! i = Some p →
  mp p ≠ NULL → pool_ptrs p = Some t → table_sized p →
  first_hit (Z.eqb a) t k →
  Pre517.wcnss_prealloc_put pm a (mk_machine (Some pools) tr dm) =
  Done (1, mk_machine
             (Some (<[i:=set_pool_ptrs p (Some (<[k:=NULL]> t))]> pools))
             (tr ++ [KMempoolFree i a]) dm).
Proof.
  intros Ha%Z.eqb_neq Hown Hp Hmp%Z.eqb_neq Ht Hs Hk.
  pose proof (lookup_lt_Some _ _ _ Hp) as Hlt.
  unfold Pre517.wcnss_prealloc_put. rewrite Ha. simpl.
  rewrite (kbind_done _ _ _ _ _ (get_index_owner pm a pools tr dm i Hown)).
  unfold cnss_prealloc_pool_size.
  replace ((0 <=? Z.of_nat i) && (Z.of_nat i <? Z.of_nat (length pools)))
    with true by (symmetry; apply andb_true_iff; split;
                  [apply Z.leb_le|apply Z.ltb_lt]; lia).
  rewrite Nat2Z.id, (kbind_read _ _ _ p) by done.
  rewrite Hmp, Ht, (free_slot_found p t k a Ht Hs Hk).
  erewrite kbind_done; [|by eapply write_pool_eq].
  replace (0 <=? Z.of_nat k) with true by (symmetry; apply Z.leb_le; lia).
  unfold with_pools. simpl. by rewrite kbind_call.
Qed.

Lemma legacy_put_no_owner pm a (pools : list cnss_pool) tr dm :
  no_owner pm a pools →
  Pre517.wcnss_prealloc_put pm a (mk_machine (Some pools) tr dm) =
  Done (0, mk_machine (Some pools) tr dm).
Proof.
  intros Hno. unfold Pre517.wcnss_prealloc_put.
  destruct (a =? NULL); [done|]. simpl.
  destruct (get_index_no_owner pm a pools tr dm Hno) as (e & He & Hidx).
  rewrite (kbind_done _ _ _ _ _ Hidx).
  replace (0 <=? e) with false by (symmetry; apply Z.leb_gt; lia).
  done.
Qed.

(** X17. The release variant for kernels before 5.17 looks only at the
    tier that owns the block.  When the memory manager attributes the
    address to tier [i], and that tier has a mempool and records the
    address, the release returns 1, clears the first slot that holds the
    address and frees the block to mempool [i], whatever the state of the
    other tiers.  In particular it succeeds where the table-scan variant
    returns 0 because it met an earlier tier that has lost its table. *)
Theorem legacy_put_ignores_other_tiers pm a st (pools : list cnss_pool)
    i p t k :
  cnss_pools st = Some pools → Forall table_sized pools → a ≠ NULL →
  owner_tier pm a pools i → pools !! i = Some p → mp p ≠ NULL →
  pool_ptrs p = Some t → first_hit (Z.eqb a) t k →
  Pre517.wcnss_prealloc_put pm a st =
    Done (1, mk_machine
               (Some (<[i:=set_pool_ptrs p (Some (<[k:=NULL]> t))]> pools))
               (ktrace st ++ [KMempoolFree i a]) (dmesg st)) ∧
  ∀ j q, (j < i)%nat → pools !! j = Some q → mp q ≠ NULL →
         pool_ptrs q = None →
         (∀ l r, (l < j)%nat → pools !! l = Some r → ¬ recorded a r) →
         ∃ st', wcnss_prealloc_put a st = Done (0, st') ∧
                cnss_pools st' = Some pools ∧ ktrace st' = ktrace st.
Proof.
  destruct st as [ps tr dm]. simpl.
  intros -> Hs Ha Hown Hp Hmp Ht Hk. split.
  - eapply legacy_put_found; try done. by eapply Forall_lookup_1.
  - intros j q Hj Hq Hmq Hnone Hbefore.
    destruct (put_stops_at a pools tr dm j q Ha Hs Hq Hmq Hnone Hbefore)
      as [dm' ->].
    by eexists.
Qed.

Lemma legacy_put_ignores_other_tiers_witness :
  let pm := mk_page_map (λ _, true) (λ _, 1) (λ _, 257) in
  let st := mk_machine (Some (tiersA None (Some [20480; 0]))) [] [] in
  Pre517.wcnss_prealloc_put pm 20480 st =
    Done (1, mk_machine (Some (tiersA None (Some [0; 0])))
               [KMempoolFree 1 20480] []) ∧
  ∃ st', wcnss_prealloc_put 20480 st = Done (0, st').
Proof.
  intros pm st.
  destruct (legacy_put_ignores_other_tiers pm 20480 st
              (tiersA None (Some [20480; 0])) 1
              (tier16k (Some [20480; 0])) [20480; 0] 0) as [Hold Hnew].
  - reflexivity.
  - unfold tiersA, table_sized, INT_MAX. repeat constructor; simpl; lia.
  - unfold NULL. lia.
  - unfold owner_tier, NULL. simpl. split; [done|]. split; [lia|].
    split; [lia|]. split; [by eexists|].
    intros l q Hl Hq. destruct l as [|l]; [|lia].
    injection Hq as <-. simpl. lia.
  - reflexivity.
  - simpl. unfold NULL. lia.
  - reflexivity.
  - split; [by exists 20480|]. intros j w Hj. lia.
  - split; [exact Hold|].
    destruct (Hnew 0%nat (tier8k None)) as (st' & H & _).
    + lia.
    + reflexivity.
    + simpl. unfold NULL. lia.
    + reflexivity.
    + intros l r Hl. lia.
    + by exists st'.
Defined.

(** X18. On a healthy allocator the two release variants agree: for an
    address recorded in exactly one slot of tier [j], with every earlier
    tier that has a mempool still having its table, and with the memory
    manager attributing the address to tier [j], the variant for kernels
    before 5.17 and the table-scan variant return 1 and leave the same
    tiers, the same kernel trace and the same log. *)
Theorem put_variants_agree pm a st (pools : list cnss_pool) j k p :
  cnss_pools st = Some pools → Forall table_sized pools → a ≠ NULL →
  only_slot a pools j k → pools !! j = Some p → mp p ≠ NULL →
  tables_present_before pools j → owner_tier pm a pools j →
  ∃ st',
    wcnss_prealloc_put a st = Done (1, st') ∧
    Pre517.wcnss_prealloc_put pm a st = Done (1, st').
Proof.
  destruct st as [ps tr dm]. simpl.
  intros -> Hs Ha Hslot Hp Hmp Hbefore Hown.
  pose proof Hslot as [(p0 & t & Hp0 & Ht & Hk) _].
  assert (p0 = p) as -> by congruence.
  pose proof (lookup_lt_Some _ _ _ Hp) as Hj.
  pose proof (only_slot_first_hit _ _ _ _ _ _ Hslot Hp Ht) as Hhit.
  pose proof (Forall_lookup_1 _ _ _ _ Hs Hp) as Hsp.
  eexists. split.
  - rewrite put_eq by done.
    rewrite (put_loop_run a pools tr dm j 0 Hs); [|lia|].
    + simpl.
      replace (length pools - j)%nat with (S (length pools - S j)) by lia.
      by eapply put_loop_found.
    + intros i q Hi Hq. eapply only_slot_passes; [done|done| |done]. lia.
  - by eapply legacy_put_found.
Qed.

Lemma put_variants_agree_witness :
  ∃ st',
    wcnss_prealloc_put 20480 st_held = Done (1, st') ∧
    Pre517.wcnss_prealloc_put
      (mk_page_map (λ _, true) (λ _, 1) (λ _, 257)) 20480 st_held
      = Done (1, st').
Proof.
  apply (put_variants_agree (mk_page_map (λ _, true) (λ _, 1) (λ _, 257))
           20480 st_held (tiersA (Some [0; 0]) (Some [20480; 0])) 1 0
           (tier16k (Some [20480; 0]))).
  - reflexivity.
  - unfold tiersA, table_sized, INT_MAX. repeat constructor; simpl; lia.
  - unfold NULL. lia.
  - split; [by eexists _, _|].
    intros j' p' t' k' Hp' Ht' Hk'.
    destruct j' as [|[|j']]; simpl in Hp'; inversion Hp'; subst p';
      simpl in Ht'; inversion Ht'; subst t';
      destruct k' as [|[|k']]; simpl in Hk'; inversion Hk'; done.
  - reflexivity.
  - simpl. unfold NULL. lia.
  - intros i q Hi Hq _.
    destruct i as [|i]; [|lia]. by injection Hq as <-.
  - unfold owner_tier, NULL. simpl. split; [done|]. split; [lia|].
    split; [lia|]. split; [by eexists|].
    intros l q Hl Hq. destruct l as [|l]; [|lia].
    injection Hq as <-. simpl. lia.
Defined.

(** X19. The release variant for kernels before 5.17 releases nothing it
    cannot attribute: for a null address, with no table bound, or when the
    address is not valid, has no head page, has no slab cache or has a slab
    cache that no tier owns, it returns 0 and leaves the tiers, the kernel
    trace and the log as they were, even if a table records the address. *)
Theorem legacy_put_needs_owner pm a st :
  a = NULL ∨ cnss_pools st = None ∨
  (∃ pools, cnss_pools st = Some pools ∧ no_owner pm a pools) →
  Pre517.wcnss_prealloc_put pm a st = Done (0, st).
Proof.
  destruct st as [ps tr dm]. simpl. intros [->|[->|(pools & -> & Hno)]].
  - done.
  - unfold Pre517.wcnss_prealloc_put. by destruct (a =? NULL).
  - by apply legacy_put_no_owner.
Qed.

Lemma legacy_put_needs_owner_witness :
  Pre517.wcnss_prealloc_put
    (mk_page_map (λ _, true) (λ _, 1) (λ _, 999)) 20480 st_held
  = Done (0, st_held).
Proof.
  apply legacy_put_needs_owner. right. right.
  exists (tiersA (Some [0; 0]) (Some [20480; 0])). split; [reflexivity|].
  do 3 right. intros k q Hq.
  destruct k as [|[|k]]; simpl in Hq; inversion Hq; subst q; simpl; lia.
Defined.

(** ** The device-tree gate *)

Lemma first_available_Some nodes :
  is_Some (first_available nodes) ↔
  ∃ dn, dn ∈ nodes ∧ of_device_is_available dn = true.
Proof.
  induction nodes as [|dn rest IH]; simpl.
  { split; [by intros [? ?]|]. intros (dn & H & _). by inversion H. }
  destruct (of_device_is_available dn) eqn:Hdn.
  - split; [|done]. intros _. exists dn. split; [left|done].
  - rewrite IH. split.
    + intros (d & Hd & Ha). exists d. split; [by right|done].
    + intros (d & Hd & Ha). apply elem_of_cons in Hd as [->|Hd];
        [congruence|]. by exists d.
Qed.

(** X20. The module loads only on a device tree with a usable WLAN node:
    [cnss_prealloc_init] returns 0 exactly when some node has the property
    "qcom,wlan" and is available, and returns [-ENODEV] otherwise; nodes
    without the property and disabled nodes are passed over. *)
Theorem prealloc_init_needs_wlan_node (tree : list device_node) :
  (cnss_prealloc_init tree = 0 ↔
   ∃ dn, dn ∈ tree ∧ "qcom,wlan" ∈ properties dn ∧
         of_device_is_available dn = true) ∧
  (cnss_prealloc_init tree ≠ 0 → cnss_prealloc_init tree = - ENODEV).
Proof.
  unfold cnss_prealloc_init, cnss_prealloc_is_valid_dt_node_found.
  pose proof (first_available_Some
                (filter (λ dn, has_property "qcom,wlan" dn = true) tree))
    as Hfirst.
  assert ((∃ dn, dn ∈ filter (λ dn, has_property "qcom,wlan" dn = true) tree
                 ∧ of_device_is_available dn = true) ↔
          ∃ dn, dn ∈ tree ∧ "qcom,wlan" ∈ properties dn ∧
                of_device_is_available dn = true) as Hfilter.
  { split; intros (dn & Hd & Ha); exists dn.
    - apply list_elem_of_filter in Hd as [Hp Hd]. split; [done|].
      split; [|done]. unfold has_property in Hp.
      by apply bool_decide_eq_true in Hp.
    - destruct Ha as [Hp Ha]. split; [|done].
      apply list_elem_of_filter. split; [|done].
      unfold has_property. by apply bool_decide_eq_true. }
  rewrite <- Hfilter, <- Hfirst.
  destruct (first_available _) as [dn|]; simpl.
  - split; [|done]. split; [by eexists|done].
  - split; [|done]. split; [done|]. by intros [? ?].
Qed.

(** ** What a request leaves on loan and in the log *)

(** X21. An acquire never leaves a block on loan without returning it.
    On well-sized tables, with mempools that hand out no address still on
    loan, [wcnss_prealloc_get] either returns [NULL], and then the blocks
    on loan are those on loan before (a block taken from a mempool and not
    recorded has been given back), or returns a block, and then exactly
    that block has been added to the blocks on loan.  A failed request
    that reached the tiers ends with its "not available" line; a served
    request writes nothing to the log. *)
Theorem get_balances_loans env sz st (pools : list cnss_pool) :
  cnss_pools st = Some pools → pools ≠ [] → Forall table_ok pools →
  hands_out_fresh env st →
  ∃ r st',
    wcnss_prealloc_get env sz st = Done (r, st') ∧
    (r = NULL → on_loan (ktrace st') = on_loan (ktrace st)) ∧
    (r ≠ NULL → (∃ j, on_loan (ktrace st') = (j, r) :: on_loan (ktrace st)) ∧
                dmesg st' = dmesg st) ∧
    (r = NULL → engaged sz pools →
     ∃ dm, dmesg st' = dm ++ [MsgNotAvailable sz (gfp_of env)]).
Proof.
  destruct st as [ps tr dm]. simpl. intros -> Hne Hok Hfresh.
  destruct (pools !! 0%nat) as [p0|] eqn:Hp0; [|by destruct pools].
  destruct (Z_lt_le_dec sz (size p0)) as [Hlt|Hle].
  { eexists _, _. split; [by apply (get_below _ _ _ _ _ p0)|]. simpl.
    split; [done|]. split; [done|].
    intros _ (q & Hq & Hsz). assert (q = p0) as -> by congruence. lia. }
  assert (engaged sz pools) as Heng by (by exists p0).
  destruct (first_stop env sz pools (length pools))
    as [Hall|(j & pj & Hj & Hreach & Hpj & Hc & Hstop)]; [lia| |].
  { eexists _, _. split; [by apply get_exhausted|]. simpl.
    split; [intros _; apply on_loan_failed_allocs|].
    split; [done|]. intros _ _. by eexists. }
  destruct Hstop as [Hnone|[Hsome Hm]].
  { eexists _, _. split; [by eapply get_lost_table|]. simpl.
    split; [intros _; apply on_loan_failed_allocs|].
    split; [done|]. intros _ _.
    exists (dm ++ [MsgTableNull (name pj)]). by rewrite <- app_assoc. }
  destruct (pool_ptrs pj) as [t|] eqn:Ht; [|done].
  pose proof (Forall_lookup_1 _ _ _ _ Hok Hpj) as Hokj.
  pose proof (on_loan_at_insert env sz pools tr dm j Hm) as Hloan.
  destruct (get_served env sz pools tr dm j pj t Heng Hreach Hpj Hc Ht Hokj Hm)
    as [(k & Hk & Hres)|[(Hg & Hfull & Hres)|(Hg & Hfull & Hres)]];
    eexists _, _; (split; [exact Hres|]); simpl.
  - split; [done|]. split; [|done]. intros _. split; [|done]. by exists j.
  - split; [done|]. split; [|done]. intros _. split; [|done]. exists j.
    by rewrite on_loan_app.
  - split; [|split; [done|intros _ _; by eexists]]. intros _.
    unfold at_insert in Hloan. simpl in Hloan.
    rewrite (on_loan_app _ [KMempoolFree _ _]), (on_loan_app _ [KKrealloc _ _]).
    rewrite Hloan. simpl.
    rewrite filter_cons. simpl. rewrite decide_False by (by intros ?).
    apply filter_loans_fresh. intros j'. by apply Hfresh.
Qed.

Lemma get_balances_loans_witness :
  ∃ r st',
    wcnss_prealloc_get (kernel_says (λ _, 4096) None) 8192 st_ready
      = Done (r, st').
Proof.
  destruct (get_balances_loans (kernel_says (λ _, 4096) None) 8192 st_ready
              (tiersA (Some [0; 0]) (Some [0; 0])))
    as (r & st' & H & _).
  - reflexivity.
  - discriminate.
  - unfold tiersA. solve_tables_ok.
  - intros i j _ Hin. simpl in Hin. by inversion Hin.
  - by exists r, st'.
Defined.
